(** * Pagination and filtering helpers of linodego

    A shallow embedding of the pagination core of the Go package
    [linodego]: [ListOptions], [ListOptions.Hash],
    [applyListOptionsToRequest], [listHelper], [flattenQueryStruct] and
    [queryFieldToString], together with the parts of the Go runtime they
    lean on ([reflect], [strconv], [fmt], [crypto/sha256],
    [encoding/json], the resty request builder).

    With it comes [instances.go] of the older package [golinode]:
    [ListInstances], which walks the pages by itself, [GetInstance] and
    the calls that act on one instance.

    Conventions.
    - A Go [int] is a [Z]; the only arithmetic the code performs on one is
      the [page++] of the page loop, which stays far below 2^63.
    - A Go [(T, error)] result is a [Result T]; a Go [error] that may be
      [nil] is an [option error].
    - A Go [map[string]string] is a [gmap string string].
    - [*ListOptions] is a location in a heap of [ListOptions] objects, so
      that what a callee writes through the pointer is what the caller
      reads afterwards.
    - The [*PageOptions] a [ListOptions] embeds is held in the object, as
      an [option PageOptions]: each object has a page window of its own.
      Two objects that share one window, as after [b := *a] in Go, are
      not modelled, and nothing here speaks of them. *)

From Stdlib Require Import ZArith Ascii String List Lia.
From stdpp Require Import base tactics option list numbers strings gmap
  fin_maps list_numbers pretty.

Set Warnings "-register-all".

Local Open Scope string_scope.
Local Open Scope list_scope.
Local Open Scope Z_scope.

(** ** Errors *)

(** [errors.errorString] and [fmt.wrapError]: an error is a message, and a
    wrapping error also remembers the error it wraps. *)
Inductive error : Type :=
| errorString (s : string)
| wrapError (msg : string) (err : error).

(** [err.Error()] *)
Definition Error (e : error) : string :=
  match e with
  | errorString s => s
  | wrapError msg _ => msg
  end.

(** [err.Unwrap()] *)
Definition Unwrap (e : error) : option error :=
  match e with
  | errorString _ => None
  | wrapError _ err => Some err
  end.

(** [fmt.Errorf(format)] where the verbs of [format] are already filled in
    and none of them is [%w]. *)
Definition Errorf (msg : string) : error := errorString msg.

(** [fmt.Errorf(prefix + "%w", err)] *)
Definition Errorf_w (prefix : string) (err : error) : error :=
  wrapError (prefix +:+ Error err) err.

Inductive Result (A : Type) : Type :=
| Ok (a : A)
| Err (e : error).
Arguments Ok {A} a.
Arguments Err {A} e.

(** ** strconv *)

(** The digit [d] (from 0 to 9) as a character. *)
Definition digitChar (d : Z) : ascii :=
  ascii_of_N (48 + Z.to_N d).

(** The loop of [strconv.formatBits] in base 10: the digits of [u], least
    significant first, are put in front of [acc]. [n] bounds the number of
    digits. *)
Fixpoint formatDigits (n : nat) (u : Z) (acc : string) : string :=
  match n with
  | O => acc
  | S n' =>
    let acc := String (digitChar (u mod 10)) acc in
    if u / 10 =? 0 then acc else formatDigits n' (u / 10) acc
  end.

(** [strconv.FormatInt(i, 10)]: the decimal digits of [i], most significant
    first, after a minus sign when [i] is negative. A number has no more
    decimal digits than binary ones. *)
Definition FormatInt10 (i : Z) : string :=
  let u := Z.abs i in
  let digits := formatDigits (S (Z.to_nat (Z.log2 u))) u "" in
  if i <? 0 then String "-" digits else digits.

(** [strconv.Itoa(i)] is [FormatInt(int64(i), 10)]. *)
Definition Itoa (i : Z) : string := FormatInt10 i.

(** [strconv.FormatBool] *)
Definition FormatBool (b : bool) : string :=
  if b then "true" else "false".

(** ** reflect *)

Module reflect.

(** [reflect.Kind], in the order of the Go declaration. *)
Inductive Kind : Set :=
| Invalid | Bool
| Int | Int8 | Int16 | Int32 | Int64
| Uint | Uint8 | Uint16 | Uint32 | Uint64 | Uintptr
| Float32 | Float64 | Complex64 | Complex128
| Array | Chan | Func | Interface | Map | Pointer | Slice
| String | Struct | UnsafePointer.

(** [Kind.String()] *)
Definition Kind_String (k : Kind) : string :=
  match k with
  | Invalid => "invalid" | Bool => "bool"
  | Int => "int" | Int8 => "int8" | Int16 => "int16"
  | Int32 => "int32" | Int64 => "int64"
  | Uint => "uint" | Uint8 => "uint8" | Uint16 => "uint16"
  | Uint32 => "uint32" | Uint64 => "uint64" | Uintptr => "uintptr"
  | Float32 => "float32" | Float64 => "float64"
  | Complex64 => "complex64" | Complex128 => "complex128"
  | Array => "array" | Chan => "chan" | Func => "func"
  | Interface => "interface" | Map => "map" | Pointer => "ptr"
  | Slice => "slice" | String => "string" | Struct => "struct"
  | UnsafePointer => "unsafe.Pointer"
  end.

End reflect.

(** The kinds that share a representation are grouped, so that a value's
    payload always fits its kind. *)
Inductive IntKind : Set := KInt | KInt8 | KInt16 | KInt32 | KInt64.
Inductive UintKind : Set :=
  KUint | KUint8 | KUint16 | KUint32 | KUint64 | KUintptr.
Inductive FloatKind : Set := KFloat32 | KFloat64.
Inductive ComplexKind : Set := KComplex64 | KComplex128.
(** Kinds of which the code only ever observes whether the value is nil. *)
Inductive NilableKind : Set :=
  KChan | KFunc | KInterface | KMap | KSlice | KUnsafePointer.

(** [reflect.StructField]: the field's name and its tag. The tag is kept as
    the key/value pairs that the conventional tag syntax spells out. *)
Record StructField : Type := {
  Name : string;
  Tag : list (string * string)
}.

(** [StructTag.Lookup]: the value of the first pair with that key. *)
Fixpoint Lookup (tag : list (string * string)) (key : string) : option string :=
  match tag with
  | [] => None
  | (k, v) :: tag' => if String.eqb k key then Some v else Lookup tag' key
  end.

(** A valid [reflect.Value]. Every constructor carries [tname], what
    [Type().Name()] returns for the value's type: the name of a defined or
    predeclared type, the empty string for a type literal such as [*int]
    or [[]string].
    - [VInt]: [i] is what [v.Int()] returns;
    - [VFloat]: [bits] is [math.Float64bits(v.Float())];
    - [VPointer]: [None] is the nil pointer;
    - [VStruct]: the fields in declaration order. *)
Inductive Value : Type :=
| VBool (tname : string) (b : bool)
| VInt (k : IntKind) (tname : string) (i : Z)
| VUint (k : UintKind) (tname : string) (u : Z)
| VFloat (k : FloatKind) (tname : string) (bits : Z)
| VComplex (k : ComplexKind) (tname : string) (rebits imbits : Z)
| VString (tname : string) (s : string)
| VPointer (tname : string) (elem : option Value)
| VStruct (tname : string) (fields : list (StructField * Value))
| VArray (tname : string) (elems : list Value)
| VNilable (k : NilableKind) (tname : string) (isNil : bool).

(** A Go [any]: [None] is the nil interface. *)
Definition any : Type := option Value.

(** [v.Kind()] *)
Definition Kind (v : Value) : reflect.Kind :=
  match v with
  | VBool _ _ => reflect.Bool
  | VInt KInt _ _ => reflect.Int
  | VInt KInt8 _ _ => reflect.Int8
  | VInt KInt16 _ _ => reflect.Int16
  | VInt KInt32 _ _ => reflect.Int32
  | VInt KInt64 _ _ => reflect.Int64
  | VUint KUint _ _ => reflect.Uint
  | VUint KUint8 _ _ => reflect.Uint8
  | VUint KUint16 _ _ => reflect.Uint16
  | VUint KUint32 _ _ => reflect.Uint32
  | VUint KUint64 _ _ => reflect.Uint64
  | VUint KUintptr _ _ => reflect.Uintptr
  | VFloat KFloat32 _ _ => reflect.Float32
  | VFloat KFloat64 _ _ => reflect.Float64
  | VComplex KComplex64 _ _ _ => reflect.Complex64
  | VComplex KComplex128 _ _ _ => reflect.Complex128
  | VString _ _ => reflect.String
  | VPointer _ _ => reflect.Pointer
  | VStruct _ _ => reflect.Struct
  | VArray _ _ => reflect.Array
  | VNilable KChan _ _ => reflect.Chan
  | VNilable KFunc _ _ => reflect.Func
  | VNilable KInterface _ _ => reflect.Interface
  | VNilable KMap _ _ => reflect.Map
  | VNilable KSlice _ _ => reflect.Slice
  | VNilable KUnsafePointer _ _ => reflect.UnsafePointer
  end.

(** [v.Type().Name()] *)
Definition TypeName (v : Value) : string :=
  match v with
  | VBool n _ | VInt _ n _ | VUint _ n _ | VFloat _ n _
  | VComplex _ n _ _ | VString n _ | VPointer n _ | VStruct n _
  | VArray n _ | VNilable _ n _ => n
  end.

(** [v.IsZero()] *)
Fixpoint IsZero (v : Value) : bool :=
  match v with
  | VBool _ b => negb b
  | VInt _ _ i => i =? 0
  | VUint _ _ u => u =? 0
  | VFloat _ _ bits => bits =? 0
  | VComplex _ _ re im => (re =? 0) && (im =? 0)
  | VString _ s => Nat.eqb (String.length s) 0
  | VPointer _ elem => match elem with None => true | Some _ => false end
  | VStruct _ fields => forallb (fun fv => IsZero (snd fv)) fields
  | VArray _ elems => forallb IsZero elems
  | VNilable _ _ isNil => isNil
  end.

(** [v.IsNil()] for a pointer. *)
Definition IsNil (v : Value) : bool :=
  match v with
  | VPointer _ None => true
  | VNilable _ _ isNil => isNil
  | _ => false
  end.

(** [reflect.Indirect(v)]: the value [v] points to, [v] itself when it is
    no pointer. Both call sites apply it to a pointer known not to be nil;
    on a nil pointer Go gives the invalid [Value], which is never asked
    for here. *)
Definition Indirect (v : Value) : Value :=
  match v with
  | VPointer _ (Some e) => e
  | _ => v
  end.

(** [v.FieldByName(name)] for a struct: the first field with that name
    ([None] is the invalid [Value]). A name declared by the struct itself
    always wins over a promoted one, and those are the only names the code
    asks for. *)
Fixpoint FieldByName (fields : list (StructField * Value)) (name : string)
  : option Value :=
  match fields with
  | [] => None
  | (f, v) :: fields' =>
    if String.eqb (Name f) name then Some v else FieldByName fields' name
  end.

(** [v.String()], [v.Int()] and [v.Bool()]. The code calls each one only
    under the matching case of a switch on [v.Kind()]; what they give on
    another kind is never looked at. *)
Definition Value_String (v : Value) : string :=
  match v with VString _ s => s | _ => "" end.
Definition Value_Int (v : Value) : Z :=
  match v with VInt _ _ i => i | _ => 0 end.
Definition Value_Bool (v : Value) : bool :=
  match v with VBool _ b => b | _ => false end.

(** ** The query flattener *)

Definition queryFieldToString (value : Value) : Result string :=
  match Kind value with
  | reflect.String => Ok (Value_String value)
  | reflect.Int64 | reflect.Int32 | reflect.Int =>
    Ok (FormatInt10 (Value_Int value))
  | reflect.Bool => Ok (FormatBool (Value_Bool value))
  | _ => Err (Errorf ("unsupported query param type: " +:+ TypeName value))
  end.

(** The body of the field loop of [flattenQueryStruct]: [all] is the
    struct that [FieldByName] searches, [rest] the fields still to visit,
    [result] the map built so far. *)
Fixpoint flattenFields (all rest : list (StructField * Value))
    (result : gmap string string) : Result (gmap string string) :=
  match rest with
  | [] => Ok result
  | (currentField, _) :: rest' =>
    match Lookup (Tag currentField) "query" with
    | None => flattenFields all rest' result
    | Some queryTag =>
      match FieldByName all (Name currentField) with
      | None =>
        Err (Errorf ("invalid query param tag: " +:+ Name currentField))
      | Some valField =>
        if IsZero valField then flattenFields all rest' result
        else
          let valField :=
            match Kind valField with
            | reflect.Pointer => Indirect valField
            | _ => valField
            end in
          match queryFieldToString valField with
          | Err err => Err err
          | Ok fieldString =>
            flattenFields all rest' (<[queryTag := fieldString]> result)
          end
      end
    end
  end.

Definition flattenQueryStruct (val : any) : Result (gmap string string) :=
  match val with
  | None =>
    (* [reflect.ValueOf(nil)] is the invalid [Value]: no pointer, no struct *)
    Err (Errorf ("expected struct type for the QueryParams but got: "
                 +:+ reflect.Kind_String reflect.Invalid))
  | Some reflectVal =>
    let dereferenced :=
      match Kind reflectVal with
      | reflect.Pointer =>
        if IsNil reflectVal then Err (Errorf "QueryParams is a nil pointer")
        else Ok (Indirect reflectVal)
      | _ => Ok reflectVal
      end in
    match dereferenced with
    | Err err => Err err
    | Ok reflectVal =>
      match reflectVal with
      | VStruct _ fields => flattenFields fields fields ∅
      | _ =>
        Err (Errorf ("expected struct type for the QueryParams but got: "
                     +:+ reflect.Kind_String (Kind reflectVal)))
      end
    end
  end.

(** The kinds [queryFieldToString] has a case for. *)
Definition supported (k : reflect.Kind) : bool :=
  match k with
  | reflect.String | reflect.Int64 | reflect.Int32 | reflect.Int
  | reflect.Bool => true
  | _ => false
  end.

(** The query names of the annotated fields, in declaration order. *)
Definition queryTags (fields : list (StructField * Value)) : list string :=
  omap (λ fv, Lookup (Tag fv.1) "query") fields.

(** A record as the language has them: no two fields share a name; and as
    the flattener is meant to be fed: no two fields share a query name. *)
Definition wellFormed (fields : list (StructField * Value)) : Prop :=
  NoDup (Name <$> fields.*1) ∧ NoDup (queryTags fields).

(** The record behind the value handed to the flattener: a struct, or a
    pointer to one. *)
Definition recordOf (val : Value) : option (list (StructField * Value)) :=
  match val with
  | VStruct _ fields => Some fields
  | VPointer _ (Some (VStruct _ fields)) => Some fields
  | _ => None
  end.

(** ** Pagination and filtering types *)

(** PageOptions are the pagination parameters for List endpoints. *)
Record PageOptions : Type := {
  Page : Z;
  Pages : Z;
  Results : Z
}.

(** ListOptions. The embedded [*PageOptions] is the field [pageOptions]
    ([None] is the nil pointer); the [PageOptions] it points to is reached
    through its [ListOptions] only. *)
Record ListOptions : Type := {
  pageOptions : option PageOptions;
  PageSize : Z;
  Filter : string;
  QueryParams : any
}.

(** [&PageOptions{Page: page}] *)
Definition newPageOptions (page : Z) : PageOptions :=
  {| Page := page; Pages := 0; Results := 0 |}.

(** The [ListOptions] that [NewListOptions(page, filter)] allocates. *)
Definition NewListOptions (page : Z) (filter : string) : ListOptions :=
  {| pageOptions := Some (newPageOptions page);
     PageSize := 0; Filter := filter; QueryParams := None |}.

(** [opts.PageOptions = &PageOptions{...}] *)
Definition setPageOptions (po : PageOptions) (opts : ListOptions) : ListOptions :=
  {| pageOptions := Some po; PageSize := PageSize opts;
     Filter := Filter opts; QueryParams := QueryParams opts |}.

(** [opts.Page = page], a write through the embedded pointer. *)
Definition setPage (page : Z) (opts : ListOptions) : ListOptions :=
  {| pageOptions :=
       (fun po => {| Page := page; Pages := Pages po; Results := Results po |})
         <$> pageOptions opts;
     PageSize := PageSize opts;
     Filter := Filter opts; QueryParams := QueryParams opts |}.

(** [opts.Results = results; opts.Pages = pages] *)
Definition setTotals (results pages : Z) (opts : ListOptions) : ListOptions :=
  {| pageOptions :=
       (fun po => {| Page := Page po; Pages := pages; Results := results |})
         <$> pageOptions opts;
     PageSize := PageSize opts;
     Filter := Filter opts; QueryParams := QueryParams opts |}.

(** [&ListOptions{PageOptions: &PageOptions{Page: 0}}], the options
    [listHelper] makes up when it is given none. *)
Definition defaultOptions : ListOptions :=
  {| pageOptions := Some (newPageOptions 0);
     PageSize := 0; Filter := ""; QueryParams := None |}.

(** [if opts.PageOptions == nil { opts.PageOptions = &PageOptions{Page: 0} }] *)
Definition ensurePageOptions (opts : ListOptions) : ListOptions :=
  match pageOptions opts with
  | None => setPageOptions (newPageOptions 0) opts
  | Some _ => opts
  end.

(** The same options with another filter. *)
Definition withFilter (filter : string) (o : ListOptions) : ListOptions :=
  {| pageOptions := pageOptions o; PageSize := PageSize o;
     Filter := filter; QueryParams := QueryParams o |}.

(** ** The outbound request *)

(** The part of [resty.Request] the code touches: [QueryParam] is a
    [url.Values], [Header] an [http.Header]; both map a name to the list of
    its values. *)
Record Request : Type := {
  QueryParam : gmap string (list string);
  Header : gmap string (list string)
}.

(** [req.SetQueryParam(param, value)] is [req.QueryParam.Set(param, value)]. *)
Definition SetQueryParam (param value : string) (req : Request) : Request :=
  {| QueryParam := <[param := [value]]> (QueryParam req);
     Header := Header req |}.

(** [req.SetQueryParams(params)] calls [SetQueryParam] for every entry of
    [params]; the keys of a map are distinct, so the order of the calls
    does not show. *)
Definition SetQueryParams (params : gmap string string) (req : Request) : Request :=
  {| QueryParam := ((fun v => [v]) <$> params) ∪ QueryParam req;
     Header := Header req |}.

(** [req.SetHeader(header, value)] is [req.Header.Set(header, value)]. Both
    header names in use are in canonical form already. *)
Definition SetHeader (header value : string) (req : Request) : Request :=
  {| QueryParam := QueryParam req;
     Header := <[header := [value]]> (Header req) |}.

(** [opts] is the [ListOptions] the pointer refers to, [None] for a nil
    pointer. The request is returned as the call leaves it. *)
Definition applyListOptionsToRequest (opts : option ListOptions) (req : Request)
  : Request * option error :=
  match opts with
  | None => (req, None)
  | Some opts =>
    let flattened :=
      match QueryParams opts with
      | None => Ok req
      | Some _ =>
        match flattenQueryStruct (QueryParams opts) with
        | Err err => Err (Errorf_w "failed to apply list options: " err)
        | Ok params => Ok (SetQueryParams params req)
        end
      end in
    match flattened with
    | Err err => (req, Some err)
    | Ok req =>
      let req :=
        match pageOptions opts with
        | Some po =>
          if 0 <? Page po then SetQueryParam "page" (Itoa (Page po)) req
          else req
        | None => req
        end in
      let req :=
        if 0 <? PageSize opts
        then SetQueryParam "page_size" (Itoa (PageSize opts)) req
        else req in
      let req :=
        if (0 <? String.length (Filter opts))%nat
        then SetHeader "X-Filter" (Filter opts) req
        else req in
      (req, None)
    end
  end.

(** The options apply when there are no query parameters to flatten or
    when flattening them succeeds. *)
Definition applies (o : ListOptions) : Prop :=
  QueryParams o = None
  ∨ ∃ params, flattenQueryStruct (QueryParams o) = Ok params.

(** The query parameters of the caller's own name no page: there are
    none, or they flatten to a map without the key [page]. *)
Definition setsNoPage (o : ListOptions) : Prop :=
  QueryParams o = None
  ∨ ∃ params, flattenQueryStruct (QueryParams o) = Ok params
              ∧ params !! "page" = None.

(** The query parameters the options' own fields stand for: [page_size]
    when the page size is positive, [page] when there is a page window
    with a positive page. *)
Definition standardParams (o : ListOptions) : gmap string (list string) :=
  (if 0 <? PageSize o then {["page_size" := [Itoa (PageSize o)]]} else ∅)
  ∪ match pageOptions o with
    | Some po => if 0 <? Page po then {["page" := [Itoa (Page po)]]} else ∅
    | None => ∅
    end.

(** The query parameters of the caller's own, flattened, each with its
    one value; none when there are none or when they do not flatten. *)
Definition extraParams (o : ListOptions) : gmap string (list string) :=
  match QueryParams o with
  | None => ∅
  | Some _ =>
    match flattenQueryStruct (QueryParams o) with
    | Ok params => (λ v, [v]) <$> params
    | Err _ => ∅
    end
  end.

(** The same options with another page window. *)
Definition withWindow (w : option PageOptions) (o : ListOptions) : ListOptions :=
  {| pageOptions := w; PageSize := PageSize o;
     Filter := Filter o; QueryParams := QueryParams o |}.

(** ** The paged fetch *)

(** The interface [PagedResponse]. An implementation lives in a state [P]
    that holds whatever [castResult] reads and writes: the results gathered
    so far and the remote end it talks to. [castResult] returns the new
    state and [(pages, results)] or an error. *)
Class PagedResponse (P : Type) : Type := {
  endpoint : P → list any → string;
  castResult : P → Request → string → P * Result (Z * Z)
}.

(** Modelled from the spec: [Client.R], which is not part of the sources at
    hand, builds the outbound request; the request it hands out is a field
    of the client. *)
Record Client : Type := {
  R : Request
}.

(** A [*ListOptions] that is not nil. *)
Definition loc : Type := positive.

(** What a call of [listHelper] reads and writes: the [ListOptions]
    objects, the pager, and (for the statements only) the requests handed
    to [castResult] so far, each with the address it went to, oldest
    first. *)
Record State (P : Type) : Type := {
  heap : gmap loc ListOptions;
  pager : P;
  requests : list (Request * string)
}.
Arguments heap {P} _.
Arguments pager {P} _.
Arguments requests {P} _.

Section ListHelper.
Context {P : Type} `{PagedResponse P}.

(** A write to the object at [l]. *)
Definition store (f : ListOptions → ListOptions) (l : loc) (st : State P)
  : State P :=
  {| heap := alter f l (heap st); pager := pager st;
     requests := requests st |}.

(** [&ListOptions{...}]: a new object at an address not in use. *)
Definition alloc (o : ListOptions) (st : State P) : loc * State P :=
  let l := fresh (dom (heap st)) in
  (l, {| heap := <[l := o]> (heap st); pager := pager st;
         requests := requests st |}).

(** The [ListOptions] behind [opts]: [Some None] for the nil pointer,
    [None] for an address with no object (which Go rules out). *)
Definition deref (h : gmap loc ListOptions) (opts : option loc)
  : option (option ListOptions) :=
  match opts with
  | None => Some None
  | Some l => Some <$> h !! l
  end.

(** [for page := 2; page <= pages; page++ { ... }] with the return on an
    error of the body; [pageNumbers] are the values [page] takes, 2 to
    [pages]. (Only with a page count of 2^63-1 would [page++] ever wrap
    around in Go, after as many requests.) *)
Fixpoint forPages (body : Z → State P → option (option error * State P))
    (pageNumbers : list Z) (st : State P) : option (option error * State P) :=
  match pageNumbers with
  | [] => Some (None, st)
  | page :: pageNumbers' =>
    match body page st with
    | Some (None, st') => forPages body pageNumbers' st'
    | stopped => stopped
    end
  end.

(** [c.listHelper(ctx, pager, opts, ids...)]. [fuel] bounds the depth of
    the recursion; the result is [None] when it runs out, otherwise the
    returned error and the state the call leaves. ([None] also stands for
    what Go rules out or answers with a panic: an [opts] with no object
    behind it, and reading [opts.Page] through a nil [PageOptions], which
    the two guards before the loop exclude.) *)
Fixpoint listHelper (fuel : nat) (c : Client) (ids : list any)
    (opts : option loc) (st : State P) : option (option error * State P) :=
  match fuel with
  | O => None
  | S fuel' =>
    match deref (heap st) opts with
    | None => None
    | Some o =>
      match applyListOptionsToRequest o (R c) with
      | (_, Some err) => Some (Some err, st)
      | (req, None) =>
        let url := endpoint (pager st) ids in
        let '(pg, response) := castResult (pager st) req url in
        let st :=
          {| heap := heap st; pager := pg;
             requests := requests st ++ [(req, url)] |} in
        match response with
        | Err err => Some (Some err, st)
        | Ok (pages, results) =>
          let '(l, st) :=
            match opts with
            | None =>
              alloc defaultOptions st
            | Some l => (l, st)
            end in
          let st := store ensurePageOptions l st in
          match heap st !! l ≫= pageOptions with
          | None => None
          | Some po =>
            let walked :=
              if Page po =? 0
              then forPages
                     (fun page st =>
                        listHelper fuel' c ids (Some l) (store (setPage page) l st))
                     (seqZ 2 (pages - 1)) st
              else Some (None, st) in
            match walked with
            | None => None
            | Some (Some err, st) => Some (Some err, st)
            | Some (None, st) =>
              Some (None, store (setTotals results pages) l st)
            end
          end
        end
      end
    end
  end.

End ListHelper.

(** ** A resource's pager *)

(** The body of one page as the API sends it: the items and the totals
    ([InstancesPagedResponse] has the same shape: an embedded
    [*PageOptions] and [Data]). *)
Record PageBody (T : Type) : Type := {
  body_Data : list T;
  body_Pages : Z;
  body_Results : Z
}.
Arguments body_Data {T} _.
Arguments body_Pages {T} _.
Arguments body_Results {T} _.

(** Modelled from the spec: the [castResult] and [endpoint] of a resource,
    which are not part of the sources at hand. [castResult] issues one GET
    and, when it succeeds, appends the items of the page to the pager's
    own [Data] (what [AppendData] does) and returns the totals of the page;
    when it fails nothing is appended. The remote end is the function
    [remote], from the request and its address to the answer. *)
Record Paged (T : Type) : Type := {
  Data : list T;
  path : list any → string;
  remote : Request → string → Result (PageBody T)
}.
Arguments Data {T} _.
Arguments path {T} _.
Arguments remote {T} _.

(** [resp.Data = append(resp.Data, r.Data...)] *)
Definition AppendData {T : Type} (resp : Paged T) (r : list T) : Paged T :=
  {| Data := Data resp ++ r; path := path resp; remote := remote resp |}.

#[global] Instance Paged_PagedResponse (T : Type) : PagedResponse (Paged T) := {
  endpoint resp ids := path resp ids;
  castResult resp req url :=
    match remote resp req url with
    | Err err => (resp, Err err)
    | Ok body => (AppendData resp (body_Data body),
                  Ok (body_Pages body, body_Results body))
    end
}.

(** ** crypto/sha256 and the hexadecimal verb of fmt *)

(** A byte is a [Z] read modulo 256, a word of SHA-256 a [Z] kept below
    2^32. *)
Module sha256.

Definition w32 (x : Z) : Z := x mod 2 ^ 32.
Definition add32 (x y : Z) : Z := w32 (x + y).
Definition rotr (n x : Z) : Z :=
  Z.lor (Z.shiftr x n) (w32 (Z.shiftl x (32 - n))).
Definition not32 (x : Z) : Z := 2 ^ 32 - 1 - x.

Definition Ch (x y z : Z) : Z :=
  Z.lxor (Z.land x y) (Z.land (not32 x) z).
Definition Maj (x y z : Z) : Z :=
  Z.lxor (Z.lxor (Z.land x y) (Z.land x z)) (Z.land y z).
Definition Sigma0 (x : Z) : Z :=
  Z.lxor (Z.lxor (rotr 2 x) (rotr 13 x)) (rotr 22 x).
Definition Sigma1 (x : Z) : Z :=
  Z.lxor (Z.lxor (rotr 6 x) (rotr 11 x)) (rotr 25 x).
Definition sigma0 (x : Z) : Z :=
  Z.lxor (Z.lxor (rotr 7 x) (rotr 18 x)) (Z.shiftr x 3).
Definition sigma1 (x : Z) : Z :=
  Z.lxor (Z.lxor (rotr 17 x) (rotr 19 x)) (Z.shiftr x 10).

(** The constants of FIPS 180-4 are fractional parts of roots of the first
    primes, 32 bits each. *)
Definition isPrime (n : Z) : bool :=
  forallb (λ d, negb (n mod d =? 0)) (seqZ 2 (Z.sqrt n - 1)).

(** The first 64 primes: those up to 311. *)
Definition primes : list Z := filter (λ n, isPrime n = true) (seqZ 2 310).

(** The largest [r] below [2 ^ bits] above the start value whose cube is at
    most [n], found bit by bit. *)
Fixpoint cubeRoot (bits : nat) (n r : Z) : Z :=
  match bits with
  | O => r
  | S bits' =>
    let r' := r + 2 ^ Z.of_nat bits' in
    if r' ^ 3 <=? n then cubeRoot bits' n r' else cubeRoot bits' n r
  end.

(** The round constants: the first 32 bits of the fractional part of the
    cube root of each prime. *)
Definition K : list Z :=
  Eval vm_compute in (λ p, w32 (cubeRoot 36 (p * 2 ^ 96) 0)) <$> primes.

(** The first 32 bits of the fractional part of the square root. *)
Definition fracSqrt (p : Z) : Z := w32 (Z.sqrt (p * 2 ^ 64)).

(** The eight working words. *)
Record digest : Type := {
  h0 : Z; h1 : Z; h2 : Z; h3 : Z; h4 : Z; h5 : Z; h6 : Z; h7 : Z
}.

(** The initial hash value, from the first eight primes. *)
Definition init : digest :=
  Eval vm_compute in
  {| h0 := fracSqrt 2; h1 := fracSqrt 3; h2 := fracSqrt 5; h3 := fracSqrt 7;
     h4 := fracSqrt 11; h5 := fracSqrt 13; h6 := fracSqrt 17;
     h7 := fracSqrt 19 |}.

(** Four bytes, most significant first, as one word. *)
Definition word_of_bytes (b : list Z) : Z :=
  fold_left (fun acc x => acc * 256 + x mod 256) b 0.

(** A word (or the 64-bit length) as [n] bytes, most significant first. *)
Fixpoint bytes_of (n : nat) (x : Z) : list Z :=
  match n with
  | O => []
  | S n' => (Z.shiftr x (8 * Z.of_nat n')) mod 256 :: bytes_of n' x
  end.

(** The message followed by 0x80, zeros up to 56 modulo 64, and the
    length of the message in bits on eight bytes. *)
Definition pad (msg : list Z) : list Z :=
  let len := Z.of_nat (length msg) in
  msg ++ [0x80] ++ repeat 0 (Z.to_nat ((55 - len) mod 64))
      ++ bytes_of 8 ((8 * len) mod 2 ^ 64).

(** The message cut into blocks of 64 bytes. *)
Fixpoint blocks (n : nat) (msg : list Z) : list (list Z) :=
  match n with
  | O => []
  | S n' => take 64 msg :: blocks n' (drop 64 msg)
  end.

(** The sixteen words of a block. *)
Fixpoint words (n : nat) (block : list Z) : list Z :=
  match n with
  | O => []
  | S n' => word_of_bytes (take 4 block) :: words n' (drop 4 block)
  end.

(** The message schedule, newest word first: [w] holds W[t-1] ... W[0]. *)
Fixpoint schedule (n : nat) (w : list Z) : list Z :=
  match n with
  | O => w
  | S n' =>
    let wt :=
      add32 (add32 (sigma1 (nth 1 w 0)) (nth 6 w 0))
            (add32 (sigma0 (nth 14 w 0)) (nth 15 w 0)) in
    schedule n' (wt :: w)
  end.

(** One round of the compression function. *)
Definition round (s : digest) (kw : Z * Z) : digest :=
  let t1 :=
    add32 (add32 (add32 (h7 s) (Sigma1 (h4 s)))
                 (add32 (Ch (h4 s) (h5 s) (h6 s)) (fst kw)))
          (snd kw) in
  let t2 := add32 (Sigma0 (h0 s)) (Maj (h0 s) (h1 s) (h2 s)) in
  {| h0 := add32 t1 t2; h1 := h0 s; h2 := h1 s; h3 := h2 s;
     h4 := add32 (h3 s) t1; h5 := h4 s; h6 := h5 s; h7 := h6 s |}.

Definition compress (s : digest) (block : list Z) : digest :=
  let w := rev (schedule 48 (rev (words 16 block))) in
  let r := fold_left round (combine K w) s in
  {| h0 := add32 (h0 s) (h0 r); h1 := add32 (h1 s) (h1 r);
     h2 := add32 (h2 s) (h2 r); h3 := add32 (h3 s) (h3 r);
     h4 := add32 (h4 s) (h4 r); h5 := add32 (h5 s) (h5 r);
     h6 := add32 (h6 s) (h6 r); h7 := add32 (h7 s) (h7 r) |}.

(** [h := sha256.New(); h.Write(data); h.Sum(nil)]: the 32 bytes of the
    digest. *)
Definition Sum (data : list Z) : list Z :=
  let padded := pad data in
  let s := fold_left compress (blocks (length padded / 64) padded) init in
  bytes_of 4 (h0 s) ++ bytes_of 4 (h1 s) ++ bytes_of 4 (h2 s)
    ++ bytes_of 4 (h3 s) ++ bytes_of 4 (h4 s) ++ bytes_of 4 (h5 s)
    ++ bytes_of 4 (h6 s) ++ bytes_of 4 (h7 s).

End sha256.

(** One hexadecimal digit in lower case. *)
Definition hexDigit (d : Z) : ascii :=
  match d with
  | 0 => "0" | 1 => "1" | 2 => "2" | 3 => "3" | 4 => "4" | 5 => "5"
  | 6 => "6" | 7 => "7" | 8 => "8" | 9 => "9" | 10 => "a" | 11 => "b"
  | 12 => "c" | 13 => "d" | 14 => "e" | _ => "f"
  end%char.

(** [fmt.Sprintf("%x", b)] for a byte slice: two digits a byte. *)
Fixpoint Sprintf_x (b : list Z) : string :=
  match b with
  | [] => ""
  | x :: b' =>
    String (hexDigit ((x mod 256) / 16))
      (String (hexDigit (x mod 16)) (Sprintf_x b'))
  end.

(** The bytes of a string. *)
Definition bytesOf (s : string) : list Z :=
  (fun a => Z.of_N (N_of_ascii a)) <$> list_ascii_of_string s.

(** The characters of a lower-case hexadecimal number. *)
Definition isLowerHex (a : ascii) : bool :=
  existsb (Ascii.eqb a) (list_ascii_of_string "0123456789abcdef").

Fixpoint string_forallb (p : ascii → bool) (s : string) : bool :=
  match s with
  | EmptyString => true
  | String a s' => p a && string_forallb p s'
  end.

(** ** The options hasher *)

Section Hash.
(** [json.Marshal] on a [ListOptions], from the standard library: the
    bytes of its JSON, or an error for a value JSON cannot express. *)
Variable json_Marshal : ListOptions → Result (list Z).

(** Hash returns the sha256 hash of the provided ListOptions. *)
Definition Hash (l : ListOptions) : Result string :=
  match json_Marshal l with
  | Err err => Err (Errorf_w "failed to cache ListOptions: " err)
  | Ok data => Ok (Sprintf_x (sha256.Sum data))
  end.
End Hash.

(** ** encoding/json on the options *)

(** [json.Marshal] is code of the standard library. What follows is its
    encoder (package [encoding/json] of Go 1.20, the version [go.mod]
    names) on the type [ListOptions]: the struct encoder, the integer
    encoder and the string encoder with [escapeHTML] set. *)

(** [utf8.RuneError] *)
Definition RuneError : Z := 0xFFFD.

(** The tables [first] and [acceptRanges] of [unicode/utf8], for a byte
    of 0x80 or more: the length of the encoding the byte [s0] starts and
    the bounds of its second byte; [None] for a byte that starts none. *)
Definition leadByte (s0 : Z) : option (nat * Z * Z) :=
  if s0 <? 0xC2 then None
  else if s0 <? 0xE0 then Some (2%nat, 0x80, 0xBF)
  else if s0 =? 0xE0 then Some (3%nat, 0xA0, 0xBF)
  else if s0 =? 0xED then Some (3%nat, 0x80, 0x9F)
  else if s0 <? 0xF0 then Some (3%nat, 0x80, 0xBF)
  else if s0 =? 0xF0 then Some (4%nat, 0x90, 0xBF)
  else if s0 <? 0xF4 then Some (4%nat, 0x80, 0xBF)
  else if s0 =? 0xF4 then Some (4%nat, 0x80, 0x8F)
  else None.

(** A byte that may follow: [locb <= b <= hicb]. *)
Definition continues (b : Z) : bool := (0x80 <=? b) && (b <=? 0xBF).

(** [utf8.DecodeRuneInString(s)] on the bytes [s]: the code point that
    starts [s] and the number of bytes it takes, [(RuneError, 1)] when
    the first byte starts no well-formed encoding. *)
Definition DecodeRuneInString (s : list Z) : Z * nat :=
  match s with
  | [] => (RuneError, 0%nat)
  | s0 :: s' =>
    if s0 <? 0x80 then (s0, 1%nat)
    else
      match leadByte s0 with
      | None => (RuneError, 1%nat)
      | Some (sz, lo, hi) =>
        if (length s <? sz)%nat then (RuneError, 1%nat)
        else
          match s' with
          | [] => (RuneError, 1%nat)
          | s1 :: s' =>
            if (s1 <? lo) || (hi <? s1) then (RuneError, 1%nat)
            else if (sz <=? 2)%nat
            then (Z.lor (Z.shiftl (Z.land s0 0x1F) 6) (Z.land s1 0x3F), 2%nat)
            else
              match s' with
              | [] => (RuneError, 1%nat)
              | s2 :: s' =>
                if negb (continues s2) then (RuneError, 1%nat)
                else if (sz <=? 3)%nat
                then (Z.lor (Z.shiftl (Z.land s0 0x0F) 12)
                        (Z.lor (Z.shiftl (Z.land s1 0x3F) 6) (Z.land s2 0x3F)),
                      3%nat)
                else
                  match s' with
                  | [] => (RuneError, 1%nat)
                  | s3 :: _ =>
                    if negb (continues s3) then (RuneError, 1%nat)
                    else (Z.lor (Z.shiftl (Z.land s0 0x07) 18)
                            (Z.lor (Z.shiftl (Z.land s1 0x3F) 12)
                               (Z.lor (Z.shiftl (Z.land s2 0x3F) 6)
                                  (Z.land s3 0x3F))),
                          4%nat)
                  end
              end
          end
      end
  end.

(** The byte of a character, and of a hexadecimal digit. *)
Definition byteOf (a : ascii) : Z := Z.of_N (N_of_ascii a).
Definition hexByte (d : Z) : Z := byteOf (hexDigit d).

(** [htmlSafeSet[b]] for an ASCII byte: no control character, and none
    of the double quote, the backslash, [<], [>] and [&]. *)
Definition htmlSafeSet (b : Z) : bool :=
  (0x20 <=? b) && negb (bool_decide (b ∈ [34; 38; 60; 62; 92])).

(** What the encoder writes for an ASCII byte that is not safe, after the
    backslash. *)
Definition escapeOf (b : Z) : list Z :=
  if bool_decide (b ∈ [92; 34]) then [b]
  else if b =? 10 then bytesOf "n"
  else if b =? 13 then bytesOf "r"
  else if b =? 9 then bytesOf "t"
  else bytesOf "u00" ++ [hexByte (Z.shiftr b 4); hexByte (Z.land b 0xF)].

(** The loop of [encodeState.string] with [escapeHTML] set, which is how
    [Marshal] calls it: [s] is what is left of the string from index [i]
    on, and the result is what the loop and the write after it put
    between the quotes. [fuel] bounds the number of characters. *)
Fixpoint escaped (fuel : nat) (s : list Z) : list Z :=
  match fuel, s with
  | O, _ | _, [] => []
  | S fuel', b :: s' =>
    if b <? 0x80 then
      (if htmlSafeSet b then [b] else 92 :: escapeOf b) ++ escaped fuel' s'
    else
      let '(c, size) := DecodeRuneInString s in
      if (c =? RuneError) && (size =? 1)%nat
      then 92 :: bytesOf "ufffd" ++ escaped fuel' (drop size s)
      else if (c =? 0x2028) || (c =? 0x2029)
      then 92 :: bytesOf "u202" ++ [hexByte (Z.land c 0xF)]
           ++ escaped fuel' (drop size s)
      else take size s ++ escaped fuel' (drop size s)
  end.

(** [e.string(s, true)]: the string [s] as JSON, between double quotes. *)
Definition jsonString (s : string) : list Z :=
  [34] ++ escaped (String.length s) (bytesOf s) ++ [34].

(** The name of a field as the struct encoder writes it: between double
    quotes, and the colon. *)
Definition fieldName (name : string) : list Z :=
  [34] ++ bytesOf name ++ [34; 58].

(** An integer field. *)
Definition jsonInt (i : Z) : list Z := bytesOf (FormatInt10 i).

Section Marshal.
(** The encoder of [encoding/json] on a value that is not the nil
    interface, which goes by reflection on the dynamic type: its JSON, or
    an error for a value JSON cannot express. *)
Variable encodeValue : Value → Result (list Z).

(** The encoder on an [any]: [null] for the nil interface. *)
Definition encodeAny (v : any) : Result (list Z) :=
  match v with
  | None => Ok (bytesOf "null")
  | Some v => encodeValue v
  end.

(** [json.Marshal(l)] for a [ListOptions]: an object with the fields in
    the order of their declaration, each under the name its [json] tag
    gives ([QueryParams] has none and goes by its own name). The fields
    [page], [pages] and [results] are those of the embedded
    [*PageOptions]; they are left out when that pointer is nil. Only
    [QueryParams] can make it fail. *)
Definition json_Marshal (l : ListOptions) : Result (list Z) :=
  match encodeAny (QueryParams l) with
  | Err err => Err err
  | Ok queryParams =>
    Ok (bytesOf "{"
        ++ match pageOptions l with
           | None => []
           | Some po =>
             fieldName "page" ++ jsonInt (Page po) ++ bytesOf ","
             ++ fieldName "pages" ++ jsonInt (Pages po) ++ bytesOf ","
             ++ fieldName "results" ++ jsonInt (Results po) ++ bytesOf ","
           end
        ++ fieldName "page_size" ++ jsonInt (PageSize l) ++ bytesOf ","
        ++ fieldName "filter" ++ jsonString (Filter l) ++ bytesOf ","
        ++ fieldName "QueryParams" ++ queryParams
        ++ bytesOf "}")
  end.
End Marshal.

(** The value of a hexadecimal digit in lower case. *)
Definition hexValue (a : ascii) : option Z :=
  let b := byteOf a in
  if (48 <=? b) && (b <=? 57) then Some (b - 48)
  else if (97 <=? b) && (b <=? 102) then Some (b - 87)
  else None.

(** The bytes a string of hexadecimal digits spells, two digits a byte. *)
Fixpoint hexDecode (s : string) : option (list Z) :=
  match s with
  | EmptyString => Some []
  | String _ EmptyString => None
  | String a (String b s') =>
    match hexValue a, hexValue b, hexDecode s' with
    | Some hi, Some lo, Some bytes => Some (16 * hi + lo :: bytes)
    | _, _, _ => None
    end
  end.

(** The string with the bytes [bytes]. *)
Definition stringOf (bytes : list Z) : string :=
  string_of_list_ascii ((λ b, ascii_of_N (Z.to_N b)) <$> bytes).

(** What the encoder writes for one ASCII byte. *)
Definition asciiToken (b : Z) : list Z :=
  if htmlSafeSet b then [b] else 92 :: escapeOf b.

(** The part of a JSON text up to the double quote that closes the string
    it starts in, and what follows that quote: a backslash takes the
    byte after it along. *)
Fixpoint splitAtQuote (s : list Z) : option (list Z * list Z) :=
  match s with
  | [] => None
  | b :: s' =>
    if b =? 34 then Some ([], s')
    else if b =? 92 then
      match s' with
      | [] => None
      | c :: s'' => (λ xr, (b :: c :: xr.1, xr.2)) <$> splitAtQuote s''
      end
    else (λ xr, (b :: xr.1, xr.2)) <$> splitAtQuote s'
  end.

(** The bytes of a decimal integer, and the bytes of a JSON string that
    take no part in escaping. *)
Definition numeric (b : Z) : Prop := b = 45 ∨ 48 ≤ b ≤ 57.
Definition plain (b : Z) : Prop := b ≠ 34 ∧ b ≠ 92.


(** ** The page walk, read off the requests *)

Section Walk.
Context {P : Type} `{PagedResponse P}.

(** The request a frame builds when the options it is given are [o]. *)
Definition requestOf (c : Client) (o : ListOptions) : Request :=
  fst (applyListOptionsToRequest (Some o) (R c)).

(** The request of the frame that the loop starts for page [k]. *)
Definition pageRequest (c : Client) (o : ListOptions) (k : Z) : Request :=
  requestOf c (setPage k (ensurePageOptions o)).

(** Requests issued one after the other, each to the pager as the one
    before left it: the pager at the end and the answers in order. *)
Fixpoint replay (ids : list any) (pg : P) (reqs : list Request)
  : P * list (Result (Z * Z)) :=
  match reqs with
  | [] => (pg, [])
  | req :: reqs' =>
    let '(pg', r) := castResult pg req (endpoint pg ids) in
    let '(pg'', rs) := replay ids pg' reqs' in
    (pg'', r :: rs)
  end.

(** What a run of the page loop leaves behind. *)
Record Walked : Type := {
  w_err : option error;
  w_opts : ListOptions;
  w_pager : P;
  w_sent : list (Request * string);
  w_totals : list (Z * Z)
}.

(** The loop over the page numbers [ks] in iterative form: for each page,
    set [Page], fetch it, and on success write its totals; stop at the
    first error. [o] is the [ListOptions] object, [pg] the pager. *)
Fixpoint walk (c : Client) (ids : list any) (o : ListOptions) (ks : list Z)
    (pg : P) : Walked :=
  match ks with
  | [] =>
    {| w_err := None; w_opts := o; w_pager := pg; w_sent := [];
       w_totals := [] |}
  | k :: ks' =>
    let o := setPage k o in
    let req := requestOf c o in
    let url := endpoint pg ids in
    match castResult pg req url with
    | (pg', Err err) =>
      {| w_err := Some err; w_opts := o; w_pager := pg';
         w_sent := [(req, url)]; w_totals := [] |}
    | (pg', Ok (pages, results)) =>
      let w := walk c ids (setTotals results pages o) ks' pg' in
      {| w_err := w_err w; w_opts := w_opts w; w_pager := w_pager w;
         w_sent := (req, url) :: w_sent w;
         w_totals := (pages, results) :: w_totals w |}
    end
  end.

End Walk.

(** A pager that gathers: [gathered] is its accumulator, and a successful
    [castResult] appends to it the items [decoded] from the page, while a
    failed one leaves it alone. *)
Class Gathers (P T : Type) `{PagedResponse P} : Type := {
  gathered : P → list T;
  decoded : P → Request → string → list T;
  castResult_Ok : ∀ pg req url pg' r,
    castResult pg req url = (pg', Ok r) →
    gathered pg' = gathered pg ++ decoded pg req url;
  castResult_Err : ∀ pg req url pg' e,
    castResult pg req url = (pg', Err e) →
    gathered pg' = gathered pg
}.

(** The items each of the requests brings when they are issued in turn,
    up to the first that fails. *)
Fixpoint decodedAll {P T : Type} `{Gathers P T} (ids : list any) (pg : P)
    (reqs : list Request) : list (list T) :=
  match reqs with
  | [] => []
  | req :: reqs' =>
    match castResult pg req (endpoint pg ids) with
    | (pg', Ok _) => decoded pg req (endpoint pg ids) :: decodedAll ids pg' reqs'
    | (_, Err _) => []
    end
  end.

(** ** The instances of the older package [golinode]

    [instances.go] belongs to an older state of the library, the package
    [golinode], where every resource walks its pages by itself. It shares
    with the code above the types [ListOptions] and [PageOptions], of
    which it touches the embedded page window only. *)

Module golinode.

(** What a call leaves: a returned value, or a run-time panic. *)
Inductive Outcome (A : Type) : Type :=
| Returns (a : A)
| Panics.
Arguments Returns {A} a.
Arguments Panics {A}.

(** InstanceSpec represents a linode spec. *)
Record InstanceSpec : Type := {
  Disk : Z;
  Memory : Z;
  VCPUs : Z;
  Transfer : Z
}.

(** InstanceAlert represents a metric alert. *)
Record InstanceAlert : Type := {
  CPU : Z;
  IO : Z;
  NetworkIn : Z;
  NetworkOut : Z;
  TransferQuote : Z
}.

(** The anonymous struct of [InstanceBackup.Schedule]. *)
Record BackupSchedule : Type := {
  Day : string;
  Window : string
}.

(** InstanceBackup represents backup settings for an instance. *)
Record InstanceBackup : Type := {
  Enabled : bool;
  Schedule : BackupSchedule
}.

(** Instance represents a linode object. [Time] is [time.Time]; a pointer
    field is an [option], [None] for nil; a [net.IP] is its bytes. *)
Record Instance (Time : Type) : Type := {
  CreatedStr : string;
  UpdatedStr : string;
  ID : Z;
  Created : option Time;
  Updated : option Time;
  Region : string;
  Alerts : option InstanceAlert;
  Backups : option InstanceBackup;
  Image : string;
  Group : string;
  IPv4 : list (option (list Z));
  IPv6 : string;
  Label : string;
  Type_ : string;
  Status : string;
  Hypervisor : string;
  Specs : option InstanceSpec
}.
Arguments CreatedStr {Time} _.
Arguments UpdatedStr {Time} _.
Arguments ID {Time} _.
Arguments Created {Time} _.
Arguments Updated {Time} _.
Arguments Region {Time} _.
Arguments Alerts {Time} _.
Arguments Backups {Time} _.
Arguments Image {Time} _.
Arguments Group {Time} _.
Arguments IPv4 {Time} _.
Arguments IPv6 {Time} _.
Arguments Label {Time} _.
Arguments Type_ {Time} _.
Arguments Status {Time} _.
Arguments Hypervisor {Time} _.
Arguments Specs {Time} _.

(** InstancesPagedResponse represents a linode API response for listing:
    the embedded [*PageOptions] and the items, each a [*Instance]. *)
Record InstancesPagedResponse (Time : Type) : Type := {
  PageOptions_ : option PageOptions;
  Data : list (option (Instance Time))
}.
Arguments PageOptions_ {Time} _.
Arguments Data {Time} _.

(** The part of [resty.Request] the code touches. *)
Record Request : Type := {
  QueryParam : gmap string (list string);
  Header : gmap string (list string);
  Body : string
}.

(** [req.SetQueryParam(param, value)] *)
Definition SetQueryParam (param value : string) (req : Request) : Request :=
  {| QueryParam := <[param := [value]]> (QueryParam req);
     Header := Header req; Body := Body req |}.

(** [req.SetHeader(header, value)] *)
Definition SetHeader (header value : string) (req : Request) : Request :=
  {| QueryParam := QueryParam req;
     Header := <[header := [value]]> (Header req); Body := Body req |}.

(** [req.SetBody(body)] *)
Definition SetBody (body : string) (req : Request) : Request :=
  {| QueryParam := QueryParam req; Header := Header req; Body := body |}.

(** A request as it went out: [req.Get(url)] or [req.Post(url)]. *)
Record Sent : Type := {
  method : string;
  url : string;
  request : Request
}.

(** Modelled from the spec: a resource of the client, of which the code
    at hand only asks for its address; [Endpoint()] gives it or fails. *)
Record Resource : Type := {
  Endpoint : Result string
}.

(** Modelled from the spec: the client, with the request [R()] hands out
    and the resource [Instances]. *)
Record Client : Type := {
  R : Request;
  Instances : Resource
}.

(** The remote end, in a state [W]: what resty's [req.Get(e)] and
    [req.Post(e)] answer. A [Get] answers with its error or with what
    [r.Result()] then holds, a value of the type handed to [SetResult]:
    [Get_InstancesPagedResponse] after
    [SetResult(&InstancesPagedResponse{})], [Get_Instance] after
    [SetResult(&Instance{})]. The answer to a [Post] whose result the
    code never reads is its error alone. *)
Class Transport (W Time : Type) : Type := {
  Get_InstancesPagedResponse :
    W → Request → string → W * Result (InstancesPagedResponse Time);
  Get_Instance : W → Request → string → W * Result (Instance Time);
  Post : W → Request → string → W * option error
}.

(** What a call reads and writes: the [ListOptions] objects, the remote
    end, and (for the statements only) the requests sent so far, oldest
    first. *)
Record State (W : Type) : Type := {
  heap : gmap loc ListOptions;
  world : W;
  sent : list Sent
}.
Arguments heap {W} _.
Arguments world {W} _.
Arguments sent {W} _.

(** A string between double quotes, as the formats of the bodies spell
    them. *)
Definition quoted (s : string) : string :=
  String (ascii_of_N 34) (s +:+ String (ascii_of_N 34) "").

(** [fmt.Sprintf("%s/%d" + suffix, e, id)] *)
Definition Sprintf_s_d (e : string) (id : Z) (suffix : string) : string :=
  e +:+ "/" +:+ FormatInt10 id +:+ suffix.

(** [utf8.EncodeRune] as the run time's [encoderune] has it: the bytes of
    the code point [r], those of U+FFFD for what is no code point. *)
Definition encoderune (r : Z) : list Z :=
  if r <? 0 then [0xEF; 0xBF; 0xBD]
  else if r <=? 0x7F then [r]
  else if r <=? 0x7FF
  then [Z.lor 0xC0 (Z.shiftr r 6); Z.lor 0x80 (Z.land r 0x3F)]
  else if (0x10FFFF <? r) || ((0xD800 <=? r) && (r <=? 0xDFFF))
  then [0xEF; 0xBF; 0xBD]
  else if r <=? 0xFFFF
  then [Z.lor 0xE0 (Z.shiftr r 12);
        Z.lor 0x80 (Z.land (Z.shiftr r 6) 0x3F);
        Z.lor 0x80 (Z.land r 0x3F)]
  else [Z.lor 0xF0 (Z.shiftr r 18);
        Z.lor 0x80 (Z.land (Z.shiftr r 12) 0x3F);
        Z.lor 0x80 (Z.land (Z.shiftr r 6) 0x3F);
        Z.lor 0x80 (Z.land r 0x3F)].

(** The conversion [string(v)] of an integer: the UTF-8 of the code point
    [v]. *)
Definition intstring (v : Z) : string :=
  string_of_list_ascii ((λ b, ascii_of_N (Z.to_N b)) <$> encoderune v).

Section Calls.
Context {W Time : Type} `{Transport W Time}.

(** [parseDates], which is not part of the sources at hand: the time a
    string spells, or nil and an error. *)
Variable parseDates : string → option Time * option error.

(** [json.Marshal] on a [map[string]string], from the standard library. *)
Variable json_Marshal : gmap string string → Result string.

(** [l.fixDates()] *)
Definition fixDates (l : Instance Time) : Instance Time :=
  {| CreatedStr := CreatedStr l; UpdatedStr := UpdatedStr l; ID := ID l;
     Created := (parseDates (CreatedStr l)).1;
     Updated := (parseDates (UpdatedStr l)).1;
     Region := Region l; Alerts := Alerts l; Backups := Backups l;
     Image := Image l; Group := Group l; IPv4 := IPv4 l; IPv6 := IPv6 l;
     Label := Label l; Type_ := Type_ l; Status := Status l;
     Hypervisor := Hypervisor l; Specs := Specs l |}.

(** [for _, el := range data { el.fixDates() }]: calling the method on a
    nil [*Instance] panics. *)
Fixpoint fixDatesAll (data : list (option (Instance Time)))
  : Outcome (list (Instance Time)) :=
  match data with
  | [] => Returns []
  | None :: _ => Panics
  | Some el :: data' =>
    match fixDatesAll data' with
    | Panics => Panics
    | Returns fixed => Returns (fixDates el :: fixed)
    end
  end.

(** A write to the object at [l]. *)
Definition store (f : ListOptions → ListOptions) (l : loc) (st : State W)
  : State W :=
  {| heap := alter f l (heap st); world := world st; sent := sent st |}.

(** [&ListOptions{...}]: a new object at an address not in use. *)
Definition alloc (o : ListOptions) (st : State W) : loc * State W :=
  let l := fresh (dom (heap st)) in
  (l, {| heap := <[l := o]> (heap st); world := world st; sent := sent st |}).

(** [opts.Results = results], a write through the embedded pointer. *)
Definition setResults (results : Z) (opts : ListOptions) : ListOptions :=
  {| pageOptions :=
       (fun po => {| Page := Page po; Pages := Pages po; Results := results |})
         <$> pageOptions opts;
     PageSize := PageSize opts;
     Filter := Filter opts; QueryParams := QueryParams opts |}.

(** [&ListOptions{PageOptions: &PageOptions{Page: page}}] *)
Definition pageOnly (page : Z) : ListOptions :=
  {| pageOptions := Some (newPageOptions page);
     PageSize := 0; Filter := ""; QueryParams := None |}.

(** [for page := 2; page <= pages; page = page + 1 { next, _ := ...;
    data = append(data, next...) }]: [body] is the call for one page,
    which gives [next]. *)
Fixpoint appendPages
    (body : Z → State W → option (Outcome (list (Instance Time)) * State W))
    (pageNumbers : list Z) (data : list (Instance Time)) (st : State W)
  : option (Outcome (list (Instance Time)) * State W) :=
  match pageNumbers with
  | [] => Some (Returns data, st)
  | page :: pageNumbers' =>
    match body page st with
    | None => None
    | Some (Panics, st') => Some (Panics, st')
    | Some (Returns next, st') =>
      appendPages body pageNumbers' (data ++ next) st'
    end
  end.

(** [c.ListInstances(opts)]. [fuel] bounds the depth of the recursion;
    the result is [None] when it runs out (and for an [opts] with no
    object behind it, which Go rules out). *)
Fixpoint ListInstances (fuel : nat) (c : Client) (opts : option loc)
    (st : State W)
  : option (Outcome (Result (list (Instance Time))) * State W) :=
  match fuel with
  | O => None
  | S fuel' =>
    match Endpoint (Instances c) with
    | Err err => Some (Returns (Err err), st)
    | Ok e =>
      match deref (heap st) opts with
      | None => None
      | Some o =>
        let req : Outcome Request :=
          match o with
          | None => Returns (R c)
          | Some o =>
            (* [opts.Page] reads through the embedded pointer *)
            match pageOptions o with
            | None => Panics
            | Some po =>
              Returns (SetQueryParam "page" (Itoa (Page po)) (R c))
            end
          end in
        match req with
        | Panics => Some (Panics, st)
        | Returns req =>
          let '(w, r) := Get_InstancesPagedResponse (world st) req e in
          let st :=
            {| heap := heap st; world := w;
               sent := sent st
                         ++ [{| method := "GET"; url := e; request := req |}] |} in
          match r with
          | Err err => Some (Returns (Err err), st)
          | Ok result =>
            let data := Data result in
            (* [.Pages] and [.Results] read through the embedded pointer *)
            match PageOptions_ result with
            | None => Some (Panics, st)
            | Some po =>
              let pages := Pages po in
              let results := Results po in
              match fixDatesAll data with
              | Panics => Some (Panics, st)
              | Returns data =>
                match opts with
                | None =>
                  match
                    appendPages
                      (fun page st =>
                         let '(l, st) := alloc (pageOnly page) st in
                         match ListInstances fuel' c (Some l) st with
                         | None => None
                         | Some (Panics, st) => Some (Panics, st)
                         | Some (Returns (Err _), st) => Some (Returns [], st)
                         | Some (Returns (Ok next), st) =>
                           Some (Returns next, st)
                         end)
                      (seqZ 2 (pages - 1)) data st
                  with
                  | None => None
                  | Some (Panics, st) => Some (Panics, st)
                  | Some (Returns data, st) => Some (Returns (Ok data), st)
                  end
                | Some l =>
                  Some (Returns (Ok data), store (setResults results) l st)
                end
              end
            end
          end
        end
      end
    end
  end.

(** [settleBoolResponseOrError(resp, err)] *)
Definition settleBoolResponseOrError (err : option error)
  : bool * option error :=
  match err with
  | Some err => (false, Some err)
  | None => (true, None)
  end.

(** [req.Post(e)]: the error it returns and the state it leaves. *)
Definition post_ (req : Request) (e : string) (st : State W)
  : option error * State W :=
  let '(w, err) := Post (world st) req e in
  (err, {| heap := heap st; world := w;
           sent := sent st ++ [{| method := "POST"; url := e; request := req |}] |}).

(** [c.R().Post(e)] *)
Definition post (c : Client) (e : string) (st : State W)
  : option error * State W :=
  post_ (R c) e st.

(** [c.R().SetHeader("Content-Type", "application/json").SetBody(body).Post(e)] *)
Definition postJSON (c : Client) (body e : string) (st : State W)
  : option error * State W :=
  post_ (SetBody body (SetHeader "Content-Type" "application/json" (R c))) e st.

(** [c.GetInstance(linodeID)] *)
Definition GetInstance (c : Client) (linodeID : Z) (st : State W)
  : Result (Instance Time) * State W :=
  match Endpoint (Instances c) with
  | Err err => (Err err, st)
  | Ok e =>
    let e := Sprintf_s_d e linodeID "" in
    let '(w, r) := Get_Instance (world st) (R c) e in
    let st :=
      {| heap := heap st; world := w;
         sent := sent st ++ [{| method := "GET"; url := e; request := R c |}] |} in
    match r with
    | Err err => (Err err, st)
    | Ok result => (Ok (fixDates result), st)
    end
  end.

(** [c.BootInstance(id, configID)] *)
Definition BootInstance (c : Client) (id configID : Z) (st : State W)
  : (bool * option error) * State W :=
  let bodyStr : Result string :=
    if configID =? 0 then Ok ""
    else json_Marshal {["config_id" := intstring configID]} in
  match bodyStr with
  | Err err => ((false, Some err), st)
  | Ok bodyStr =>
    match Endpoint (Instances c) with
    | Err err => ((false, Some err), st)
    | Ok e =>
      let e := Sprintf_s_d e id "/boot" in
      let '(err, st) := postJSON c bodyStr e st in
      (settleBoolResponseOrError err, st)
    end
  end.

(** [c.RebootInstance(id, configID)] *)
Definition RebootInstance (c : Client) (id configID : Z) (st : State W)
  : (bool * option error) * State W :=
  let body :=
    "{" +:+ quoted "config_id" +:+ ":" +:+ quoted (FormatInt10 configID)
    +:+ "}" in
  match Endpoint (Instances c) with
  | Err err => ((false, Some err), st)
  | Ok e =>
    let e := Sprintf_s_d e id "/reboot" in
    let '(err, st) := postJSON c body e st in
    (settleBoolResponseOrError err, st)
  end.

(** [c.MutateInstance(id)] *)
Definition MutateInstance (c : Client) (id : Z) (st : State W)
  : (bool * option error) * State W :=
  match Endpoint (Instances c) with
  | Err err => ((false, Some err), st)
  | Ok e =>
    let e := Sprintf_s_d e id "/mutate" in
    let '(err, st) := post c e st in
    (settleBoolResponseOrError err, st)
  end.

(** [c.ResizeInstance(id, linodeType)] *)
Definition ResizeInstance (c : Client) (id : Z) (linodeType : string)
    (st : State W) : (bool * option error) * State W :=
  let body := "{" +:+ quoted "type" +:+ ":" +:+ quoted linodeType +:+ "}" in
  match Endpoint (Instances c) with
  | Err err => ((false, Some err), st)
  | Ok e =>
    let e := Sprintf_s_d e id "/resize" in
    let '(err, st) := postJSON c body e st in
    (settleBoolResponseOrError err, st)
  end.

(** [c.ShutdownInstance(id)] *)
Definition ShutdownInstance (c : Client) (id : Z) (st : State W)
  : (bool * option error) * State W :=
  match Endpoint (Instances c) with
  | Err err => ((false, Some err), st)
  | Ok e =>
    let e := Sprintf_s_d e id "/resize" in
    let '(err, st) := post c e st in
    (settleBoolResponseOrError err, st)
  end.

(** The request [ListInstances] builds for page [k]. *)
Definition instancesRequest (c : Client) (k : Z) : Request :=
  SetQueryParam "page" (Itoa k) (R c).

(** A [GET] of [e] as the log records it. *)
Definition getOf (e : string) (req : Request) : Sent :=
  {| method := "GET"; url := e; request := req |}.

(** Requests to [e] issued one after the other: the remote end afterwards
    and the answers in order. *)
Fixpoint replayGet (e : string) (w : W) (reqs : list Request)
  : W * list (Result (InstancesPagedResponse Time)) :=
  match reqs with
  | [] => (w, [])
  | req :: reqs' =>
    let '(w', r) := Get_InstancesPagedResponse w req e in
    let '(w'', rs) := replayGet e w' reqs' in
    (w'', r :: rs)
  end.

(** The instances an answer brings, their dates fixed; none for an
    error. *)
Definition instancesOf (r : Result (InstancesPagedResponse Time))
  : list (Instance Time) :=
  match r with
  | Ok result =>
    match fixDatesAll (Data result) with
    | Returns data => data
    | Panics => []
    end
  | Err _ => []
  end.

(** An instance whose dates are those its strings spell. *)
Definition datesFixed (i : Instance Time) : Prop :=
  Created i = (parseDates (CreatedStr i)).1
  ∧ Updated i = (parseDates (UpdatedStr i)).1.

End Calls.
End golinode.

(** ** Sample data *)

(** A collection of three pages of two items. Its first two pages count
    six items in all, its third counts seven: one was added while the
    pages were fetched. At the address [flaky] the third page fails. *)
Definition demo_remote (req : Request) (url : string) : Result (PageBody Z) :=
  match QueryParam req !! "page" with
  | None | Some ["1"] =>
    Ok {| body_Data := [11; 12]; body_Pages := 3; body_Results := 6 |}
  | Some ["2"] =>
    Ok {| body_Data := [21; 22]; body_Pages := 3; body_Results := 6 |}
  | Some ["3"] =>
    if String.eqb url "flaky" then Err (errorString "502 Bad Gateway")
    else Ok {| body_Data := [31; 32]; body_Pages := 3; body_Results := 7 |}
  | _ => Err (errorString "404 Not Found")
  end.

Definition demo_client : Client :=
  {| R := {| QueryParam := ∅; Header := ∅ |} |}.

Definition demo_pager (url : string) (data : list Z) : Paged Z :=
  {| Data := data; path := λ _, url; remote := demo_remote |}.

(** One [ListOptions] object, at address 1, and nothing fetched yet. *)
Definition demo_state (url : string) (o : ListOptions) : State (Paged Z) :=
  {| heap := {[1%positive := o]}; pager := demo_pager url [];
     requests := [] |}.

(** The request for page [k] of the demo client. *)
Definition demo_request (k : string) : Request :=
  {| QueryParam := {["page" := [k]]}; Header := ∅ |}.

(** The state after all three pages were fetched through the options at
    address 1. *)
Definition demo_fetched : State (Paged Z) :=
  {| heap := {[1%positive :=
                 {| pageOptions := Some {| Page := 3; Pages := 3; Results := 6 |};
                    PageSize := 0; Filter := ""; QueryParams := None |}]};
     pager := demo_pager "linode/instances" [11; 12; 21; 22; 31; 32];
     requests := [(R demo_client, "linode/instances");
                  (demo_request "2", "linode/instances");
                  (demo_request "3", "linode/instances")] |}.

(** The flaky address: the state after page 3 has failed. *)
Definition demo_aborted : State (Paged Z) :=
  {| heap := {[1%positive :=
                 {| pageOptions := Some {| Page := 3; Pages := 3; Results := 6 |};
                    PageSize := 0; Filter := ""; QueryParams := None |}]};
     pager := demo_pager "flaky" [11; 12; 21; 22];
     requests := [(R demo_client, "flaky"); (demo_request "2", "flaky");
                  (demo_request "3", "flaky")] |}.

(** The state after all three pages were fetched with the nil pointer:
    the object at address 1 is as it was, the totals are at address 2. *)
Definition demo_fetched_nil : State (Paged Z) :=
  {| heap := <[2%positive :=
                 {| pageOptions := Some {| Page := 3; Pages := 3; Results := 6 |};
                    PageSize := 0; Filter := ""; QueryParams := None |}]>
               {[1%positive := NewListOptions 1 "mine"]};
     pager := demo_pager "linode/instances" [11; 12; 21; 22; 31; 32];
     requests := [(R demo_client, "linode/instances");
                  (demo_request "2", "linode/instances");
                  (demo_request "3", "linode/instances")] |}.

(** Query parameters of the caller's own that name a page. *)
Definition page_params : any :=
  Some (VStruct "Params"
          [({| Name := "Page"; Tag := [("query", "page")] |},
            VInt KInt "int" 3)]).

(** Options with no page window, and with those parameters. *)
Definition page_options : ListOptions :=
  {| pageOptions := None; PageSize := 0; Filter := "";
     QueryParams := page_params |}.

(** The state after a fetch through those options: page 3 was asked for
    first, then pages 2 and 3. *)
Definition demo_fetched_askew : State (Paged Z) :=
  {| heap := {[1%positive :=
                 {| pageOptions := Some {| Page := 3; Pages := 3; Results := 7 |};
                    PageSize := 0; Filter := ""; QueryParams := page_params |}]};
     pager := demo_pager "linode/instances" [31; 32; 21; 22; 31; 32];
     requests := [(demo_request "3", "linode/instances");
                  (demo_request "2", "linode/instances");
                  (demo_request "3", "linode/instances")] |}.

(** Query parameters the flattener has no case for: a float. *)
Definition bad_params : any :=
  Some (VStruct "Params"
          [({| Name := "Ratio"; Tag := [("query", "ratio")] |},
            VFloat KFloat64 "float64" 0x3FF8000000000000)]).

(** Options asking for page 2 with a filter, and with those parameters. *)
Definition bad_options : ListOptions :=
  {| pageOptions := Some (newPageOptions 2); PageSize := 0;
     Filter := "label:myserver"; QueryParams := bad_params |}.

(** Query parameters of every supported sort: an optional limit set to 0,
    an empty label, a size, a flag, and a field that is no query
    parameter. *)
Definition demo_fields : list (StructField * Value) :=
  [({| Name := "Limit"; Tag := [("json", "limit"); ("query", "limit")] |},
    VPointer "" (Some (VInt KInt "int" 0)));
   ({| Name := "Label"; Tag := [("query", "label")] |}, VString "string" "");
   ({| Name := "Size"; Tag := [("query", "size")] |}, VInt KInt64 "int64" 512);
   ({| Name := "Active"; Tag := [("query", "active")] |}, VBool "bool" true);
   ({| Name := "Note"; Tag := [("json", "note")] |},
    VFloat KFloat64 "float64" 0x3FF8000000000000)].

(** Options with everything set but the page window: a page size, a
    filter, and query parameters of the caller's own. *)
Definition rich_options : ListOptions :=
  {| pageOptions := None; PageSize := 2; Filter := "label:myserver";
     QueryParams := Some (VStruct "Params" demo_fields) |}.

(** The request those options give, for the page [page] when there is
    one. *)
Definition rich_request (page : option string) : Request :=
  {| QueryParam :=
       from_option (λ k, <["page" := [k]]>) id page
         {["limit" := ["0"]; "size" := ["512"]; "active" := ["true"];
           "page_size" := ["2"]]};
     Header := {["X-Filter" := ["label:myserver"]]} |}.

(** The state after all three pages were fetched through those options. *)
Definition rich_fetched : State (Paged Z) :=
  {| heap := {[1%positive :=
                 {| pageOptions := Some {| Page := 3; Pages := 3; Results := 6 |};
                    PageSize := 2; Filter := "label:myserver";
                    QueryParams := Some (VStruct "Params" demo_fields) |}]};
     pager := demo_pager "linode/instances" [11; 12; 21; 22; 31; 32];
     requests := [(rich_request None, "linode/instances");
                  (rich_request (Some "2"), "linode/instances");
                  (rich_request (Some "3"), "linode/instances")] |}.

(** A record with two fields under one query name. *)
Definition twice_tagged : list (StructField * Value) :=
  [({| Name := "Old"; Tag := [("query", "label")] |}, VString "string" "a");
   ({| Name := "New"; Tag := [("query", "label")] |}, VString "string" "b");
   ({| Name := "Spare"; Tag := [("query", "label")] |}, VString "string" "")].

(** An instance as the API sends it: its dates are strings still. *)
Definition demo_instance (id : Z) (created : string) : golinode.Instance string :=
  {| golinode.CreatedStr := created; golinode.UpdatedStr := "";
     golinode.ID := id; golinode.Created := None; golinode.Updated := None;
     golinode.Region := "us-east"; golinode.Alerts := None;
     golinode.Backups := None; golinode.Image := "linode/debian9";
     golinode.Group := ""; golinode.IPv4 := []; golinode.IPv6 := "";
     golinode.Label := "myserver"; golinode.Type_ := "g6-standard-1";
     golinode.Status := "running"; golinode.Hypervisor := "kvm";
     golinode.Specs := None |}.

(** A stand-in for [parseDates]: a time is kept as the string that spells
    it, and the empty string spells none. *)
Definition demo_parseDates (s : string) : option string * option error :=
  if String.eqb s "" then (None, Some (errorString "cannot parse the date"))
  else (Some s, None).

(** That instance with its dates fixed. *)
Definition demo_fixed (id : Z) (created : string) : golinode.Instance string :=
  golinode.fixDates demo_parseDates (demo_instance id created).

(** A remote end that counts the requests it gets. It has three pages of
    one instance each; the second page fails. *)
#[global] Instance demo_transport : golinode.Transport nat string := {|
  golinode.Get_InstancesPagedResponse w req e :=
    (S w,
     match golinode.QueryParam req !! "page" with
     | None | Some ["0"] | Some ["1"] =>
       Ok {| golinode.PageOptions_ :=
               Some {| Page := 1; Pages := 3; Results := 3 |};
             golinode.Data := [Some (demo_instance 101 "2018-01-02T03:04:05")] |}
     | Some ["3"] =>
       Ok {| golinode.PageOptions_ :=
               Some {| Page := 3; Pages := 3; Results := 3 |};
             golinode.Data := [Some (demo_instance 103 "2018-03-04T05:06:07")] |}
     | _ => Err (errorString "502 Bad Gateway")
     end);
  golinode.Get_Instance w req e := (S w, Err (errorString "404 Not Found"));
  golinode.Post w req e := (S w, None)
|}.

Definition demo_instances_client : golinode.Client :=
  {| golinode.R := {| golinode.QueryParam := ∅; golinode.Header := ∅;
                      golinode.Body := "" |};
     golinode.Instances := {| golinode.Endpoint := Ok "linode/instances" |} |}.

(** Nothing sent yet, and one [ListOptions] object of the caller's. *)
Definition demo_instances_state : golinode.State nat :=
  {| golinode.heap := {[1%positive := NewListOptions 0 ""]};
     golinode.world := 0%nat; golinode.sent := [] |}.

(** The state after [ListInstances(nil)]: three requests; the caller's
    object is as it was, and the objects made for the pages 2 and 3 are
    at the addresses 2 and 3. *)
Definition demo_instances_listed : golinode.State nat :=
  {| golinode.heap :=
       {[1%positive := NewListOptions 0 "";
         2%positive := golinode.pageOnly 2;
         3%positive := golinode.setResults 3 (golinode.pageOnly 3)]};
     golinode.world := 3%nat;
     golinode.sent :=
       golinode.getOf "linode/instances"
         <$> [golinode.R demo_instances_client;
              golinode.instancesRequest demo_instances_client 2;
              golinode.instancesRequest demo_instances_client 3] |}.

(** A stand-in for [json.Marshal] on a map with the one key [config_id],
    good for values that need no escaping. *)
Definition demo_Marshal (m : gmap string string) : Result string :=
  match m !! "config_id" with
  | Some v =>
    Ok ("{" +:+ golinode.quoted "config_id" +:+ ":" +:+ golinode.quoted v
        +:+ "}")
  | None => Err (errorString "json: unsupported value")
  end.

(** ** The claims the code does not bear out, as they are worded *)

(** C1 as the specification words it: whatever else the options hold,
    with no page window or with page 0 the first request is the one for
    page 1 (it names no page, or page 1), and the requests for the pages
    from 2 on follow. *)
Definition page_one_first_claim : Prop :=
  ∀ (P : Type) (pagedResponse : PagedResponse P)
    fuel c ids l o (st st' : State P),
    QueryParam (R c) !! "page" = None →
    heap st !! l = Some o →
    (pageOptions o = None ∨ Page <$> pageOptions o = Some 0) →
    listHelper fuel c ids (Some l) st = Some (None, st') →
    ∃ req pages sent,
      requests st' = requests st ++ sent
      ∧ sent.*1 = req :: (pageRequest c o <$> seqZ 2 (pages - 1))
      ∧ (QueryParam req !! "page" = None
         ∨ QueryParam req !! "page" = Some ["1"])
      ∧ length sent = Z.to_nat (Z.max 1 pages).

(** C2 as the specification words it: after a successful fetch of all
    pages the options hold, as total of results, the one the last page
    reported. *)
Definition totals_of_last_page_claim : Prop :=
  ∀ (P : Type) (pagedResponse : PagedResponse P)
    fuel c ids l o (st st' : State P) sent answers,
    heap st !! l = Some o →
    (pageOptions o = None ∨ Page <$> pageOptions o = Some 0) →
    listHelper fuel c ids (Some l) st = Some (None, st') →
    requests st' = requests st ++ sent →
    replay ids (pager st) sent.*1 = (pager st', Ok <$> answers) →
    ∃ o' po',
      heap st' !! l = Some o'
      ∧ pageOptions o' = Some po'
      ∧ snd <$> last answers = Some (Results po').

(** C3 as the specification words it: whatever else the options hold, a
    positive page N makes one request, for page N, and the totals of its
    answer are written to the options. *)
Definition single_page_claim : Prop :=
  ∀ (P : Type) (pagedResponse : PagedResponse P)
    fuel c ids l o po (st : State P),
    heap st !! l = Some o →
    pageOptions o = Some po → 0 < Page po →
    ∃ err st' req,
      listHelper (S fuel) c ids (Some l) st = Some (err, st')
      ∧ requests st' = requests st ++ [(req, endpoint (pager st) ids)]
      ∧ QueryParam req !! "page" = Some [Itoa (Page po)]
      ∧ ∀ pg' pages results,
          castResult (pager st) req (endpoint (pager st) ids)
          = (pg', Ok (pages, results)) →
          heap st' !! l = Some (setTotals results pages o).

(** C4 as the specification words it: a field holding the zero value of
    its type is left out, so that no parameter is ever sent with its zero
    value, and a field that is not zero is sent. *)
Definition zero_never_sent_claim : Prop :=
  ∀ val fields f v t m,
    recordOf val = Some fields →
    wellFormed fields →
    (f, v) ∈ fields → Lookup (Tag f) "query" = Some t →
    flattenQueryStruct (Some val) = Ok m →
    (IsZero v = true → m !! t = None)
    ∧ (IsZero (Indirect v) = true → m !! t = None)
    ∧ (IsZero v = false →
       ∃ s, queryFieldToString (Indirect v) = Ok s ∧ m !! t = Some s).

(** C5 as the specification words it: an integer field of any width is
    turned into its decimal digits. *)
Definition any_integer_width_claim : Prop :=
  ∀ k tname i, queryFieldToString (VInt k tname i) = Ok (FormatInt10 i).

(** C7 as the specification words it: whatever else the options hold, a
    filter that is not empty ends up in the header [X-Filter], and the
    filter adds nothing to the query parameters. *)
Definition filter_header_claim : Prop :=
  ∀ o req,
    let req' := (applyListOptionsToRequest (Some o) req).1 in
    (Filter o ≠ "" → Header req' !! "X-Filter" = Some [Filter o])
    ∧ (Filter o = "" → Header req' = Header req)
    ∧ QueryParam req'
      = QueryParam (applyListOptionsToRequest (Some (withFilter "" o)) req).1.

(** Options with a filter that takes every way through the string
    encoder: HTML characters, a backslash, a two-byte character, a tab,
    a double quote, a control character, DEL, a byte that starts no
    character, the two line separators, encodings that break off, and a
    four-byte character. *)
Definition hashed_options : ListOptions :=
  {| pageOptions := Some (newPageOptions 2); PageSize := 25;
     Filter :=
       "a<b>&c\d"
       +:+ stringOf [0xC3; 0xA9; 9; 34; 1; 0x7F; 0xFF; 0xE2; 0x80; 0xA8;
                     0xE2; 0x80; 0xA9; 0xC3; 0xED; 0xA0; 0x80;
                     0xF0; 0x9F; 0x98; 0x80; 0xE2; 0x80];
     QueryParams := None |}.

(** * Properties *)

(** ** Decimal digits *)

Lemma digitChar_pretty d : 0 ≤ d < 10 → digitChar d = pretty_N_char (Z.to_N d).
Proof.
  intros Hd.
  assert (d = 0 ∨ d = 1 ∨ d = 2 ∨ d = 3 ∨ d = 4 ∨ d = 5 ∨ d = 6 ∨ d = 7
          ∨ d = 8 ∨ d = 9) as Hcases by lia.
  repeat (destruct Hcases as [->|Hcases]; [reflexivity|]). by subst.
Qed.

Lemma log2_div_10 u : 0 < u / 10 → Z.log2 (u / 10) < Z.log2 u.
Proof.
  intros Hq. assert (0 < u) as Hu.
  { destruct (decide (0 < u)); [done|]. exfalso.
    assert (u / 10 ≤ 0) by (apply Z.div_le_upper_bound; lia). lia. }
  apply Z.log2_lt_pow2; [done|].
  destruct (Z.log2_spec u Hu) as [_ Hlt].
  rewrite Z.pow_succ_r in Hlt by apply Z.log2_nonneg.
  apply Z.div_lt_upper_bound; lia.
Qed.

(** The digit loop agrees with the decimal printer of stdpp. *)
Lemma formatDigits_pretty n : ∀ u acc,
  0 < u → (Z.to_nat (Z.log2 u) < n)%nat →
  formatDigits n u acc = pretty_N_go (Z.to_N u) acc.
Proof.
  induction n as [|n IH]; intros u acc Hu Hn; [lia|].
  cbn [formatDigits]. rewrite pretty_N_go_step by lia.
  change 10%N with (Z.to_N 10).
  rewrite <-Z2N.inj_mod, <-Z2N.inj_div by lia.
  rewrite <-digitChar_pretty by (apply Z.mod_pos_bound; lia).
  destruct (Z.eqb_spec (u / 10) 0) as [->|Hq]; [done|].
  assert (0 < u / 10) as Hq'.
  { assert (0 ≤ u / 10) by (apply Z.div_pos; lia). lia. }
  apply IH; [done|]. pose proof (log2_div_10 u Hq').
  pose proof (Z.log2_nonneg (u / 10)). lia.
Qed.

Lemma FormatInt10_pretty i : FormatInt10 i = pretty i.
Proof.
  unfold FormatInt10. destruct i as [|p|p]; [done| |].
  - cbn [Z.abs Z.ltb Z.compare]. rewrite formatDigits_pretty by lia. done.
  - cbn [Z.abs Z.ltb Z.compare]. rewrite formatDigits_pretty by lia. done.
Qed.

(** Different numbers are written differently. *)
Lemma FormatInt10_inj i j : FormatInt10 i = FormatInt10 j → i = j.
Proof. rewrite !FormatInt10_pretty. apply (inj pretty). Qed.

(** ** The frames of [listHelper] *)

Section ListHelperFacts.
Context {P : Type} `{PagedResponse P}.
Implicit Types (st : State P) (o : ListOptions) (l : loc) (c : Client).

Lemma apply_error_setPage k o req :
  (applyListOptionsToRequest (Some (setPage k o)) req).2
  = (applyListOptionsToRequest (Some o) req).2.
Proof.
  unfold applyListOptionsToRequest; simpl.
  destruct (QueryParams o); [destruct (flattenQueryStruct _)|]; done.
Qed.

Lemma apply_error_setTotals r p o req :
  (applyListOptionsToRequest (Some (setTotals r p o)) req).2
  = (applyListOptionsToRequest (Some o) req).2.
Proof.
  unfold applyListOptionsToRequest; simpl.
  destruct (QueryParams o); [destruct (flattenQueryStruct _)|]; done.
Qed.

Lemma apply_error_ensure o req :
  (applyListOptionsToRequest (Some (ensurePageOptions o)) req).2
  = (applyListOptionsToRequest (Some o) req).2.
Proof.
  unfold ensurePageOptions. destruct (pageOptions o) eqn:E; [done|].
  unfold applyListOptionsToRequest; simpl.
  destruct (QueryParams o); [destruct (flattenQueryStruct _)|]; done.
Qed.

(** The totals of the page window do not show in the request. *)
Lemma requestOf_setPage_setTotals c k r p o :
  requestOf c (setPage k (setTotals r p o)) = requestOf c (setPage k o).
Proof.
  unfold requestOf, applyListOptionsToRequest; simpl.
  destruct (pageOptions o); done.
Qed.

Lemma requestOf_setPage_setPage c k k' o :
  requestOf c (setPage k (setPage k' o)) = requestOf c (setPage k o).
Proof.
  unfold requestOf, applyListOptionsToRequest; simpl.
  destruct (pageOptions o); done.
Qed.

Lemma apply_requestOf c o :
  (applyListOptionsToRequest (Some o) (R c)).2 = None →
  applyListOptionsToRequest (Some o) (R c) = (requestOf c o, None).
Proof.
  unfold requestOf. destruct (applyListOptionsToRequest _ _); simpl.
  by intros ->.
Qed.

(** A frame whose options fail to apply issues nothing. *)
Lemma listHelper_apply_error f c ids l o st req err :
  heap st !! l = Some o →
  applyListOptionsToRequest (Some o) (R c) = (req, Some err) →
  listHelper (S f) c ids (Some l) st = Some (Some err, st).
Proof.
  intros Hl Ha. cbn [listHelper deref]. rewrite Hl.
  cbn [fmap option_fmap option_map]. by rewrite Ha.
Qed.

(** A frame entered with a page number other than 0: one request, and
    the totals of its answer written to the options. *)
Lemma listHelper_single f c ids l o po h pg log :
  pageOptions o = Some po → Page po ≠ 0 →
  (applyListOptionsToRequest (Some o) (R c)).2 = None →
  listHelper (S f) c ids (Some l)
    {| heap := <[l := o]> h; pager := pg; requests := log |}
  = let req := requestOf c o in
    let url := endpoint pg ids in
    match castResult pg req url with
    | (pg', Err err) =>
      Some (Some err, {| heap := <[l := o]> h; pager := pg';
                         requests := log ++ [(req, url)] |})
    | (pg', Ok (pages, results)) =>
      Some (None, {| heap := <[l := setTotals results pages o]> h;
                     pager := pg'; requests := log ++ [(req, url)] |})
    end.
Proof.
  intros Hpo Hne Ha. apply apply_requestOf in Ha.
  cbn [listHelper deref heap pager requests].
  rewrite lookup_insert_eq. cbn [fmap option_fmap option_map].
  rewrite Ha.
  destruct (castResult pg (requestOf c o) (endpoint pg ids)) as [pg' [[pages results]|err]];
    [|done].
  unfold store; cbn [heap pager requests].
  rewrite alter_insert_eq.
  assert (ensurePageOptions o = o) as -> by (unfold ensurePageOptions; by rewrite Hpo).
  rewrite lookup_insert_eq. cbn [mbind option_bind]. rewrite Hpo.
  destruct (Z.eqb_spec (Page po) 0) as [?|_]; [done|].
  unfold store; cbn [heap pager requests]. by rewrite alter_insert_eq.
Qed.

(** The loop of the source and its iterative form agree. *)
Lemma forPages_walk f c ids l ks : ∀ o h pg log,
  is_Some (pageOptions o) →
  Forall (λ k, k ≠ 0) ks →
  (applyListOptionsToRequest (Some o) (R c)).2 = None →
  forPages
    (λ page st, listHelper (S f) c ids (Some l) (store (setPage page) l st))
    ks {| heap := <[l := o]> h; pager := pg; requests := log |}
  = let w := walk c ids o ks pg in
    Some (w_err w, {| heap := <[l := w_opts w]> h; pager := w_pager w;
                      requests := log ++ w_sent w |}).
Proof.
  induction ks as [|k ks IH]; intros o h pg log [po Hpo] Hks Ha.
  { cbn. by rewrite app_nil_r. }
  apply Forall_cons in Hks as [Hk Hks].
  cbn [forPages walk]. unfold store at 1; cbn [heap pager requests].
  rewrite alter_insert_eq.
  rewrite (listHelper_single f c ids l (setPage k o)
             {| Page := k; Pages := Pages po; Results := Results po |});
    [|by cbn; rewrite Hpo|done|by rewrite apply_error_setPage].
  cbn zeta.
  destruct (castResult pg (requestOf c (setPage k o)) (endpoint pg ids))
    as [pg' [[pages results]|err]]; [|done].
  rewrite IH; [|by cbn; rewrite Hpo; eauto|done
               |by rewrite apply_error_setTotals, apply_error_setPage].
  cbn. by rewrite <-app_assoc.
Qed.

Lemma seqZ_2_nonzero n : Forall (λ k, k ≠ 0) (seqZ 2 n).
Proof. apply Forall_seqZ. lia. Qed.

Lemma store_insert f l o h (pg : P) log :
  store f l {| heap := <[l := o]> h; pager := pg; requests := log |}
  = {| heap := <[l := f o]> h; pager := pg; requests := log |}.
Proof. unfold store; cbn. by rewrite alter_insert_eq. Qed.

(** A frame entered through a pointer, with no page window or with page
    0: the first request, then the walk over the pages from 2 on, and
    the totals of the first answer written last. *)
Lemma listHelper_all f c ids l o h pg log :
  (pageOptions o = None ∨ Page <$> pageOptions o = Some 0) →
  (applyListOptionsToRequest (Some o) (R c)).2 = None →
  listHelper (S (S f)) c ids (Some l)
    {| heap := <[l := o]> h; pager := pg; requests := log |}
  = let req := requestOf c o in
    let url := endpoint pg ids in
    match castResult pg req url with
    | (pg', Err err) =>
      Some (Some err, {| heap := <[l := o]> h; pager := pg';
                         requests := log ++ [(req, url)] |})
    | (pg', Ok (pages, results)) =>
      let w := walk c ids (ensurePageOptions o) (seqZ 2 (pages - 1)) pg' in
      Some (w_err w,
            {| heap :=
                 <[l := match w_err w with
                        | None => setTotals results pages (w_opts w)
                        | Some _ => w_opts w
                        end]> h;
               pager := w_pager w;
               requests := log ++ (req, url) :: w_sent w |})
    end.
Proof.
  intros Hpage Ha. pose proof (apply_requestOf _ _ Ha) as Hreq.
  remember (S f) as f' eqn:Hf'.
  cbn [listHelper deref heap pager requests]. rewrite lookup_insert_eq.
  cbn [fmap option_fmap option_map]. rewrite Hreq. cbn zeta.
  destruct (castResult pg (requestOf c o) (endpoint pg ids))
    as [pg' [[pages results]|err]]; [|done].
  rewrite store_insert. cbn [heap]. rewrite lookup_insert_eq.
  cbn [mbind option_bind].
  assert (∃ po, pageOptions (ensurePageOptions o) = Some po ∧ Page po = 0)
    as (po & Hpo & Hz).
  { unfold ensurePageOptions.
    destruct Hpage as [E|E]; rewrite ?E; [by eexists|].
    destruct (pageOptions o) as [po|] eqn:E'; [|done].
    exists po. by simplify_eq/=. }
  rewrite Hpo, Hz. cbn [Z.eqb]. subst f'.
  rewrite forPages_walk;
    [|by rewrite Hpo; eauto|apply seqZ_2_nonzero|by rewrite apply_error_ensure].
  cbn zeta.
  destruct (w_err (walk c ids (ensurePageOptions o) (seqZ 2 (pages - 1)) pg'))
    eqn:Ew.
  - by rewrite <-app_assoc.
  - by rewrite store_insert, <-app_assoc.
Qed.

(** A frame entered with the nil pointer. *)
Lemma listHelper_nil f c ids st :
  listHelper (S (S f)) c ids None st
  = let url := endpoint (pager st) ids in
    let l := fresh (dom (heap st)) in
    match castResult (pager st) (R c) url with
    | (pg', Err err) =>
      Some (Some err, {| heap := heap st; pager := pg';
                         requests := requests st ++ [(R c, url)] |})
    | (pg', Ok (pages, results)) =>
      let w := walk c ids defaultOptions (seqZ 2 (pages - 1)) pg' in
      Some (w_err w,
            {| heap :=
                 <[l := match w_err w with
                        | None => setTotals results pages (w_opts w)
                        | Some _ => w_opts w
                        end]> (heap st);
               pager := w_pager w;
               requests := requests st ++ (R c, url) :: w_sent w |})
    end.
Proof.
  remember (S f) as f' eqn:Hf'.
  cbn [listHelper deref applyListOptionsToRequest]. cbn zeta.
  destruct (castResult (pager st) (R c) (endpoint (pager st) ids))
    as [pg' [[pages results]|err]]; [|done].
  unfold alloc; cbn [heap pager requests].
  rewrite store_insert. cbn [heap]. rewrite lookup_insert_eq.
  cbn [mbind option_bind].
  change (ensurePageOptions _) with defaultOptions.
  cbn [pageOptions defaultOptions newPageOptions Page Z.eqb]. subst f'.
  rewrite forPages_walk; [|by eauto|apply seqZ_2_nonzero|done].
  cbn zeta.
  destruct (w_err (walk c ids defaultOptions (seqZ 2 (pages - 1)) pg')) eqn:Ew.
  - by rewrite <-app_assoc.
  - by rewrite store_insert, <-app_assoc.
Qed.

(** More fuel does not change what a call returns. *)
Lemma forPages_mono body body' ks :
  (∀ k st r, body k st = Some r → body' k st = Some r) →
  ∀ st r, forPages body ks st = Some r → forPages body' ks st = Some r.
Proof.
  intros Hb. induction ks as [|k ks IH]; intros st r; [done|].
  cbn [forPages]. destruct (body k st) as [[[e|] st1]|] eqn:E; [| |done].
  - intros <-. by rewrite (Hb _ _ _ E).
  - intros Hr. rewrite (Hb _ _ _ E). by apply IH.
Qed.

Lemma listHelper_fuel_S f : ∀ c ids opts st r,
  listHelper f c ids opts st = Some r →
  listHelper (S f) c ids opts st = Some r.
Proof.
  induction f as [|f IH]; intros c ids opts st r Hr; [done|].
  set (f' := S f). cbn [listHelper] in Hr |- *.
  destruct (deref (heap st) opts) as [o|]; [|done].
  destruct (applyListOptionsToRequest o (R c)) as [req [err|]]; [done|].
  destruct (castResult (pager st) req (endpoint (pager st) ids))
    as [pg [[pages results]|err]]; [|done].
  destruct (match opts with Some l => _ | None => _ end) as [l st1].
  destruct (heap (store ensurePageOptions l st1) !! l ≫= pageOptions)
    as [po|]; [|done].
  destruct (Page po =? 0); [|done].
  destruct (forPages _ (seqZ 2 (pages - 1)) _) as [[e st2]|] eqn:E;
    [|done].
  rewrite (forPages_mono _
             (λ page st, listHelper f' c ids (Some l) (store (setPage page) l st))
             _ (λ k st3 r3, IH c ids (Some l) _ r3) _ _ E).
  exact Hr.
Qed.

Lemma listHelper_fuel_le f f' c ids opts st r :
  (f ≤ f')%nat →
  listHelper f c ids opts st = Some r →
  listHelper f' c ids opts st = Some r.
Proof. induction 1; auto using listHelper_fuel_S. Qed.

Lemma state_insert_id st l o :
  heap st !! l = Some o →
  st = {| heap := <[l := o]> (heap st); pager := pager st;
          requests := requests st |}.
Proof. intros Hl. destruct st; cbn in *. by rewrite insert_id. Qed.


End ListHelperFacts.

(** ** The iterative form *)

Section WalkFacts.
Context {P : Type} `{PagedResponse P}.
Implicit Types (o : ListOptions) (c : Client) (pg : P) (ks : list Z).

Lemma last_cons_default {A} (a d : A) (xs : list A) :
  List.last (a :: xs) d = List.last xs a.
Proof.
  revert a d. induction xs as [|x xs IH]; intros a d; [done|].
  change (List.last (a :: x :: xs) d) with (List.last (x :: xs) d).
  by rewrite (IH x d), (IH x a).
Qed.

Lemma setPageOptions_setTotals po r p o :
  setPageOptions po (setTotals r p o) = setPageOptions po o.
Proof. done. Qed.

Lemma setPageOptions_setPage po k o :
  setPageOptions po (setPage k o) = setPageOptions po o.
Proof. done. Qed.

(** The requests of a walk are those of the pages it reached, in the
    order of the page numbers. *)
Lemma walk_sent c ids ks : ∀ o pg,
  (w_sent (walk c ids o ks pg)).*1
  = (λ k, requestOf c (setPage k o))
      <$> take (length (w_sent (walk c ids o ks pg))) ks.
Proof.
  induction ks as [|k ks IH]; intros o pg; [done|].
  cbn [walk].
  destruct (castResult pg _ _) as [pg' [[pages results]|err]]; [|done].
  cbn. f_equal. rewrite IH. apply list_fmap_ext. intros _ k' _.
  by rewrite requestOf_setPage_setTotals, requestOf_setPage_setPage.
Qed.

Lemma walk_length_le c ids ks : ∀ o pg,
  (length (w_sent (walk c ids o ks pg)) ≤ length ks)%nat.
Proof.
  induction ks as [|k ks IH]; intros o pg; [done|].
  cbn [walk].
  destruct (castResult pg _ _) as [pg' [[pages results]|err]]; cbn.
  - specialize (IH (setTotals results pages (setPage k o)) pg'). lia.
  - lia.
Qed.

(** A walk that ends without an error has fetched every page. *)
Lemma walk_length c ids ks : ∀ o pg,
  w_err (walk c ids o ks pg) = None →
  length (w_sent (walk c ids o ks pg)) = length ks
  ∧ length (w_totals (walk c ids o ks pg)) = length ks.
Proof.
  induction ks as [|k ks IH]; intros o pg; [done|].
  cbn [walk].
  destruct (castResult pg _ _) as [pg' [[pages results]|err]]; cbn; [|done].
  intros Hw. destruct (IH _ _ Hw). lia.
Qed.

(** The answers one by one: all but possibly the last are totals, and
    the last is the error the walk ends with. *)
Lemma walk_replay c ids ks : ∀ o pg,
  replay ids pg (w_sent (walk c ids o ks pg)).*1
  = (w_pager (walk c ids o ks pg),
     (Ok <$> w_totals (walk c ids o ks pg))
       ++ from_option (λ e, [Err e]) [] (w_err (walk c ids o ks pg))).
Proof.
  induction ks as [|k ks IH]; intros o pg; [done|].
  cbn [walk].
  destruct (castResult pg _ _) as [pg' [[pages results]|err]] eqn:E; cbn.
  - by rewrite E, IH.
  - by rewrite E.
Qed.

(** A walk that ends with an error: the failing request is the last one
    sent, and every one before it was answered with totals. *)
Lemma walk_error c ids ks : ∀ o pg e,
  w_err (walk c ids o ks pg) = Some e →
  ∃ reqs req pg_mid,
    (w_sent (walk c ids o ks pg)).*1 = reqs ++ [req]
    ∧ replay ids pg reqs = (pg_mid, Ok <$> w_totals (walk c ids o ks pg))
    ∧ castResult pg_mid req (endpoint pg_mid ids)
      = (w_pager (walk c ids o ks pg), Err e).
Proof.
  induction ks as [|k ks IH]; intros o pg e; [done|].
  cbn [walk].
  destruct (castResult pg _ _) as [pg' [[pages results]|err]] eqn:E; cbn.
  - intros Hw. destruct (IH _ _ _ Hw) as (reqs & req & pg_mid & Hs & Hr & Hc).
    exists (requestOf c (setPage k o) :: reqs), req, pg_mid.
    cbn. by rewrite Hs, E, Hr.
  - intros [= ->]. by exists [], (requestOf c (setPage k o)), pg.
Qed.

(** The options a walk leaves: the page number is that of the last page
    it asked for, the totals are those of the last answer it got. *)
Lemma walk_opts c ids ks : ∀ o po pg,
  pageOptions o = Some po →
  w_opts (walk c ids o ks pg)
  = setPageOptions
      {| Page := List.last (take (length (w_sent (walk c ids o ks pg))) ks)
                           (Page po);
         Pages := (List.last (w_totals (walk c ids o ks pg))
                             (Pages po, Results po)).1;
         Results := (List.last (w_totals (walk c ids o ks pg))
                               (Pages po, Results po)).2 |} o.
Proof.
  induction ks as [|k ks IH]; intros o po pg Hpo.
  { cbn. unfold setPageOptions. destruct o, po; cbn in *. by subst. }
  cbn [walk].
  destruct (castResult pg _ _) as [pg' [[pages results]|err]] eqn:E;
    cbn [w_opts w_sent w_totals length take].
  - rewrite (IH _ {| Page := k; Pages := pages; Results := results |});
      [|by cbn; rewrite Hpo].
    rewrite setPageOptions_setTotals, setPageOptions_setPage.
    by rewrite !last_cons_default.
  - cbn. unfold setPage, setPageOptions. by rewrite Hpo.
Qed.

(** What a gathering pager holds after a walk: what it held, then the
    items of each page in the order the pages were asked for. *)
Lemma walk_gathered {T} `{!Gathers P T} c ids ks : ∀ o pg,
  gathered (w_pager (walk c ids o ks pg))
  = gathered pg
      ++ concat (decodedAll ids pg (w_sent (walk c ids o ks pg)).*1).
Proof.
  induction ks as [|k ks IH]; intros o pg.
  { cbn. by rewrite app_nil_r. }
  cbn [walk].
  destruct (castResult pg _ _) as [pg' [[pages results]|err]] eqn:E; cbn.
  - rewrite E, IH. cbn. rewrite (castResult_Ok _ _ _ _ _ E).
    by rewrite app_assoc.
  - rewrite E. cbn. by rewrite (castResult_Err _ _ _ _ _ E), app_nil_r.
Qed.

End WalkFacts.

(** ** What the requests carry *)

Section RequestFacts.
Implicit Types (o : ListOptions) (req : Request).

Lemma applies_no_error o req :
  applies o ↔ (applyListOptionsToRequest (Some o) req).2 = None.
Proof.
  unfold applies, applyListOptionsToRequest.
  destruct (QueryParams o) as [v|] eqn:Eq; [|by intuition].
  destruct (flattenQueryStruct (Some v)) as [m|e]; cbn.
  - split; [done|]. intros _. right. by eexists.
  - split; [|done]. intros [|[? ?]]; done.
Qed.

(** Options that do not apply leave the request alone. *)
Lemma not_applies_error o req :
  ¬ applies o →
  ∃ err, applyListOptionsToRequest (Some o) req = (req, Some err).
Proof.
  intros Hna. unfold applyListOptionsToRequest.
  destruct (QueryParams o) as [v|] eqn:Eq; [|destruct Hna; by left].
  destruct (flattenQueryStruct (Some v)) as [m|e] eqn:Ef.
  - destruct Hna. right. rewrite Eq. by exists m.
  - by eexists.
Qed.

Lemma apply_page_param o po req :
  pageOptions o = Some po → 0 < Page po →
  (applyListOptionsToRequest (Some o) req).2 = None →
  QueryParam (applyListOptionsToRequest (Some o) req).1 !! "page"
  = Some [Itoa (Page po)].
Proof.
  intros Hpo Hpos. unfold applyListOptionsToRequest. rewrite Hpo.
  assert ((0 <? Page po) = true) as -> by by apply Z.ltb_lt.
  destruct (match QueryParams o with Some _ => _ | None => _ end)
    as [req'|e]; [|done].
  intros _. cbn [fst].
  destruct (0 <? PageSize o), (0 <? String.length (Filter o))%nat; cbn;
    rewrite ?lookup_insert_ne by done; by rewrite lookup_insert_eq.
Qed.

(** With no page window or with page 0, and query parameters of the
    caller's own that name no page, applying the options to a request
    without a [page] parameter gives it none. *)
Lemma apply_no_page o req :
  (pageOptions o = None ∨ Page <$> pageOptions o = Some 0) →
  setsNoPage o →
  QueryParam req !! "page" = None →
  QueryParam (applyListOptionsToRequest (Some o) req).1 !! "page" = None.
Proof.
  intros Hpage Hq Hreq. unfold applyListOptionsToRequest.
  assert (∃ req0,
            match QueryParams o with
            | Some _ =>
              match flattenQueryStruct (QueryParams o) with
              | Ok params => Ok (SetQueryParams params req)
              | Err err => Err (Errorf_w "failed to apply list options: " err)
              end
            | None => Ok req
            end = Ok req0
            ∧ QueryParam req0 !! "page" = None) as (req0 & -> & Hreq0).
  { destruct Hq as [->|(params & Hf & Hp)]; [by exists req|].
    rewrite Hf. destruct (QueryParams o); [|by exists req].
    exists (SetQueryParams params req). split; [done|].
    cbn. apply lookup_union_None. by rewrite lookup_fmap, Hp. }
  assert (match pageOptions o with
          | Some po =>
            if 0 <? Page po then SetQueryParam "page" (Itoa (Page po)) req0
            else req0
          | None => req0
          end = req0) as ->.
  { destruct Hpage as [->|Hz]; [done|].
    destruct (pageOptions o) as [po|]; [|done].
    injection Hz as ->. done. }
  destruct (0 <? PageSize o), (0 <? String.length (Filter o))%nat; cbn;
    by rewrite ?lookup_insert_ne.
Qed.

Lemma pageRequest_page c o k :
  0 < k → applies o →
  QueryParam (pageRequest c o k) !! "page" = Some [Itoa k].
Proof.
  intros Hk Ha. unfold pageRequest, requestOf.
  assert (∃ po, pageOptions (ensurePageOptions o) = Some po) as [po Hpo].
  { unfold ensurePageOptions. destruct (pageOptions o) eqn:E; eauto. }
  apply (apply_page_param _ {| Page := k; Pages := Pages po; Results := Results po |});
    [by cbn; rewrite Hpo|done|].
  rewrite apply_error_setPage, apply_error_ensure.
  by apply applies_no_error.
Qed.

Lemma last_seqZ_2 pages d : 2 ≤ pages → List.last (seqZ 2 (pages - 1)) d = pages.
Proof.
  intros Hp. replace (pages - 1) with (Z.of_nat (S (Z.to_nat (pages - 2)))) by lia.
  rewrite seqZ_S, last_last. lia.
Qed.

End RequestFacts.

(** ** Fetching every page *)

Section FetchAll.
Context {P T : Type} `{PagedResponse P} `{!Gathers P T}.
Implicit Types (st : State P) (o : ListOptions) (l : loc) (c : Client).

(** C1, amended. Options with no page window or with page 0: a call that
    succeeds has sent [max 1 pages] requests, where [pages] is the page
    count of the first answer: first the request of the options as they
    were given, then the requests for page 2, 3, ... up to [pages], each
    carrying its number as [page]. The first request carries no [page]
    parameter, and so asks for the first page, when neither the client's
    fresh request nor the query parameters of the caller's own name one.
    Each request was handed to the pager as the one before left it and
    each was answered with totals. The pager has gathered, after what it
    held, the items of every request in that order. With a page count of
    at most 1 the first request is the only one. *)
Theorem listHelper_fetches_every_page fuel c ids l o st st' :
  heap st !! l = Some o →
  (pageOptions o = None ∨ Page <$> pageOptions o = Some 0) →
  listHelper fuel c ids (Some l) st = Some (None, st') →
  ∃ req pages results sent totals,
    applyListOptionsToRequest (Some o) (R c) = (req, None)
    ∧ (QueryParam (R c) !! "page" = None → setsNoPage o →
       QueryParam req !! "page" = None)
    ∧ requests st' = requests st ++ sent
    ∧ sent.*1 = req :: (pageRequest c o <$> seqZ 2 (pages - 1))
    ∧ length sent = Z.to_nat (Z.max 1 pages)
    ∧ (∀ k, 2 ≤ k ≤ pages →
         QueryParam (pageRequest c o k) !! "page" = Some [Itoa k])
    ∧ replay ids (pager st) sent.*1
      = (pager st', Ok <$> (pages, results) :: totals)
    ∧ gathered (pager st')
      = gathered (pager st) ++ concat (decodedAll ids (pager st) sent.*1)
    ∧ (pages ≤ 1 → sent = [(req, endpoint (pager st) ids)]).
Proof.
  intros Hl Hpage Hrun.
  destruct fuel as [|fuel]; [done|].
  apply (listHelper_fuel_le _ (S (S fuel))) in Hrun; [|lia].
  destruct (applyListOptionsToRequest (Some o) (R c)) as [req0 [err|]] eqn:Ha.
  { by rewrite (listHelper_apply_error _ _ _ _ _ _ _ _ Hl Ha) in Hrun. }
  assert ((applyListOptionsToRequest (Some o) (R c)).2 = None) as Ha'
    by by rewrite Ha.
  assert (requestOf c o = req0) as Hreq by (unfold requestOf; by rewrite Ha).
  rewrite (state_insert_id st l o Hl), listHelper_all in Hrun by done.
  cbn zeta in Hrun. rewrite Hreq in Hrun.
  destruct (castResult (pager st) req0 (endpoint (pager st) ids))
    as [pg' [[pages results]|err]] eqn:E; [|done].
  pose proof (walk_sent c ids (seqZ 2 (pages - 1)) (ensurePageOptions o) pg')
    as Hs.
  pose proof (walk_replay c ids (seqZ 2 (pages - 1)) (ensurePageOptions o) pg')
    as Hr.
  pose proof (walk_gathered c ids (seqZ 2 (pages - 1)) (ensurePageOptions o) pg')
    as Hg.
  pose proof (walk_length c ids (seqZ 2 (pages - 1)) (ensurePageOptions o) pg')
    as Hlen.
  remember (walk c ids (ensurePageOptions o) (seqZ 2 (pages - 1)) pg') as w
    eqn:Hw.
  destruct (w_err w) eqn:Ew; [done|]. injection Hrun as <-.
  destruct (Hlen eq_refl) as [Hlen1 Hlen2].
  rewrite Hlen1, firstn_all in Hs. cbn in Hr. rewrite app_nil_r in Hr.
  exists req0, pages, results, ((req0, endpoint (pager st) ids) :: w_sent w),
    (w_totals w).
  cbn [heap pager requests fmap list_fmap fst length].
  change (list_fmap _ _ fst (w_sent w)) with ((w_sent w).*1).
  split; [done|]. split.
  { intros Hc Hq. rewrite <-Hreq. by apply apply_no_page. }
  repeat split.
  - by rewrite Hs.
  - rewrite Hlen1, length_seqZ. lia.
  - intros k Hk. apply pageRequest_page; [lia|].
    by apply (applies_no_error _ (R c)).
  - cbn [replay]. by rewrite E, Hr.
  - cbn [decodedAll]. rewrite E. cbn [concat].
    by rewrite Hg, (castResult_Ok _ _ _ _ _ E), app_assoc.
  - intros Hp. rewrite Hw. by rewrite seqZ_nil by lia.
Qed.

End FetchAll.

(** ** What a call leaves in the options *)

Section Options.
Context {P : Type} `{PagedResponse P}.
Implicit Types (st : State P) (o : ListOptions) (l : loc) (c : Client).

Lemma setPageOptions_ensure po o :
  setPageOptions po (ensurePageOptions o) = setPageOptions po o.
Proof. unfold ensurePageOptions. by destruct (pageOptions o). Qed.

(** The options after a walk over all the pages from 2 on that met no
    error, once the outer frame has written its totals. *)
Lemma walk_success_opts c ids o po pages results pg :
  pageOptions o = Some po → Page po = 0 →
  w_err (walk c ids o (seqZ 2 (pages - 1)) pg) = None →
  setTotals results pages (w_opts (walk c ids o (seqZ 2 (pages - 1)) pg))
  = setPageOptions
      {| Page := if decide (2 ≤ pages) then pages else 0;
         Pages := pages; Results := results |} o.
Proof.
  intros Hpo Hz Hw. rewrite (walk_opts _ _ _ _ _ _ Hpo).
  destruct (walk_length _ _ _ _ _ Hw) as [-> _]. rewrite firstn_all, Hz.
  unfold setTotals, setPageOptions; cbn. do 3 f_equal.
  case_decide; [by apply last_seqZ_2|by rewrite seqZ_nil by lia].
Qed.

Lemma ensure_page_0 o :
  (pageOptions o = None ∨ Page <$> pageOptions o = Some 0) →
  ∃ po, pageOptions (ensurePageOptions o) = Some po ∧ Page po = 0.
Proof.
  unfold ensurePageOptions. intros [E|E]; rewrite ?E; [by eexists|].
  destruct (pageOptions o) as [po|] eqn:E'; [|done].
  exists po. by simplify_eq/=.
Qed.

(** A call that succeeds on options with no page window or with page 0,
    in full: the state it leaves. *)
Lemma listHelper_all_success fuel c ids l o st st' :
  heap st !! l = Some o →
  (pageOptions o = None ∨ Page <$> pageOptions o = Some 0) →
  listHelper fuel c ids (Some l) st = Some (None, st') →
  ∃ pg1 pages results,
    applies o
    ∧ castResult (pager st) (requestOf c o) (endpoint (pager st) ids)
      = (pg1, Ok (pages, results))
    ∧ let w := walk c ids (ensurePageOptions o) (seqZ 2 (pages - 1)) pg1 in
      w_err w = None
      ∧ st' = {| heap :=
                   <[l := setPageOptions
                            {| Page := if decide (2 ≤ pages) then pages else 0;
                               Pages := pages; Results := results |} o]>
                     (heap st);
                 pager := w_pager w;
                 requests :=
                   requests st
                     ++ (requestOf c o, endpoint (pager st) ids) :: w_sent w |}.
Proof.
  intros Hl Hpage Hrun.
  destruct fuel as [|fuel]; [done|].
  apply (listHelper_fuel_le _ (S (S fuel))) in Hrun; [|lia].
  destruct (applyListOptionsToRequest (Some o) (R c)) as [req0 [err|]] eqn:Ha.
  { by rewrite (listHelper_apply_error _ _ _ _ _ _ _ _ Hl Ha) in Hrun. }
  assert ((applyListOptionsToRequest (Some o) (R c)).2 = None) as Ha'
    by by rewrite Ha.
  rewrite (state_insert_id st l o Hl), listHelper_all in Hrun by done.
  cbn zeta in Hrun.
  destruct (castResult (pager st) (requestOf c o) (endpoint (pager st) ids))
    as [pg1 [[pages results]|err]] eqn:E; [|done].
  exists pg1, pages, results. split; [by apply (applies_no_error _ (R c))|].
  split; [done|]. cbn zeta.
  destruct (w_err (walk c ids (ensurePageOptions o) (seqZ 2 (pages - 1)) pg1))
    eqn:Ew; [done|].
  split; [done|]. injection Hrun as <-.
  destruct (ensure_page_0 o Hpage) as (po & Hpo & Hz).
  by rewrite (walk_success_opts _ _ _ _ _ _ _ Hpo Hz Ew), setPageOptions_ensure.
Qed.

(** C2, amended. After a call that succeeds on options with no page
    window or with page 0, the options hold the totals of the first
    answer: [Pages] is its page count, which is also the number of the
    last page asked for, and [Results] is its result count. The answers
    to the later pages leave no trace. *)
Theorem listHelper_writes_first_totals fuel c ids l o st st' :
  heap st !! l = Some o →
  (pageOptions o = None ∨ Page <$> pageOptions o = Some 0) →
  listHelper fuel c ids (Some l) st = Some (None, st') →
  ∃ pages results sent totals,
    requests st' = requests st ++ sent
    ∧ replay ids (pager st) sent.*1
      = (pager st', Ok <$> (pages, results) :: totals)
    ∧ heap st'
      = <[l := setPageOptions
                 {| Page := if decide (2 ≤ pages) then pages else 0;
                    Pages := pages; Results := results |} o]> (heap st).
Proof.
  intros Hl Hpage Hrun.
  destruct (listHelper_all_success _ _ _ _ _ _ _ Hl Hpage Hrun)
    as (pg1 & pages & results & _ & E & Ew & ->).
  pose proof (walk_replay c ids (seqZ 2 (pages - 1)) (ensurePageOptions o) pg1)
    as Hr.
  rewrite Ew in Hr. cbn in Hr. rewrite app_nil_r in Hr.
  eexists pages, results, _, _. cbn [heap pager requests].
  split; [done|]. split; [|done].
  cbn [fmap list_fmap fst replay]. by rewrite E, Hr.
Qed.

(** C9. After a call that succeeds on options with no page window or
    with page 0 and whose first answer counts two pages or more, the
    options are left with [Page] equal to that page count; and a second
    call on them, whatever fuel it is given, returns after one request,
    the one for that page. *)
Theorem listHelper_leaves_last_page fuel c ids l o st st' pages results :
  heap st !! l = Some o →
  (pageOptions o = None ∨ Page <$> pageOptions o = Some 0) →
  listHelper fuel c ids (Some l) st = Some (None, st') →
  (castResult (pager st) (requestOf c o) (endpoint (pager st) ids)).2
  = Ok (pages, results) →
  2 ≤ pages →
  (∃ o', heap st' !! l = Some o' ∧ Page <$> pageOptions o' = Some pages)
  ∧ ∃ req,
      QueryParam req !! "page" = Some [Itoa pages]
      ∧ ∀ fuel', ∃ err st'',
          listHelper (S fuel') c ids (Some l) st' = Some (err, st'')
          ∧ requests st''
            = requests st' ++ [(req, endpoint (pager st') ids)].
Proof.
  intros Hl Hpage Hrun Hfirst Hpages.
  destruct (listHelper_all_success _ _ _ _ _ _ _ Hl Hpage Hrun)
    as (pg1 & pages' & results' & Happ & E & Ew & ->).
  rewrite E in Hfirst. cbn in Hfirst. simplify_eq.
  rewrite decide_True by done.
  set (po' := {| Page := pages; Pages := pages; Results := results |}).
  cbn [heap pager requests]. split.
  { eexists. by rewrite lookup_insert_eq. }
  assert ((applyListOptionsToRequest (Some (setPageOptions po' o)) (R c)).2
          = None) as Ha.
  { apply applies_no_error. exact Happ. }
  exists (requestOf c (setPageOptions po' o)). split.
  { apply (apply_page_param _ po'); [done|cbn; lia|done]. }
  intros fuel'.
  rewrite (listHelper_single fuel' c ids l (setPageOptions po' o) po');
    [|done|cbn; lia|done].
  cbn zeta.
  destruct (castResult (w_pager _) _ _) as [pg' [[p r]|e]];
    eexists _, _; (split; [reflexivity|done]).
Qed.

(** C3, amended. Options with a page window whose page N is positive.
    When they apply, already the first frame returns, having sent one
    request, which carries [page] = N; when the request is answered with
    totals these are written to the options, and when it fails the
    options stay as they were. When they do not apply, the call returns
    the error of applying them and nothing is sent. *)
Theorem listHelper_single_page c ids l o po st :
  heap st !! l = Some o →
  pageOptions o = Some po → 0 < Page po →
  (applies o →
   ∃ req,
     applyListOptionsToRequest (Some o) (R c) = (req, None)
     ∧ QueryParam req !! "page" = Some [Itoa (Page po)]
     ∧ ∀ fuel,
         listHelper (S fuel) c ids (Some l) st
         = let url := endpoint (pager st) ids in
           match castResult (pager st) req url with
           | (pg', Err err) =>
             Some (Some err,
                   {| heap := heap st; pager := pg';
                      requests := requests st ++ [(req, url)] |})
           | (pg', Ok (pages, results)) =>
             Some (None,
                   {| heap := <[l := setTotals results pages o]> (heap st);
                      pager := pg';
                      requests := requests st ++ [(req, url)] |})
           end)
  ∧ (¬ applies o →
     ∃ err,
       applyListOptionsToRequest (Some o) (R c) = (R c, Some err)
       ∧ ∀ fuel, listHelper (S fuel) c ids (Some l) st = Some (Some err, st)).
Proof.
  intros Hl Hpo Hpos. split.
  - intros Happ.
    assert ((applyListOptionsToRequest (Some o) (R c)).2 = None) as Ha
      by by apply applies_no_error.
    exists (requestOf c o). split; [by apply apply_requestOf|].
    split; [by apply apply_page_param|].
    intros fuel. rewrite (state_insert_id st l o Hl) at 1.
    rewrite (listHelper_single fuel c ids l o po); [|done|lia|done].
    cbn zeta. by rewrite (insert_id (heap st) l o Hl).
  - intros Hna. destruct (not_applies_error o (R c) Hna) as [err Herr].
    exists err. split; [done|]. intros fuel.
    by apply (listHelper_apply_error _ _ _ _ o _ (R c)).
Qed.

(** C10. A call with the nil pointer leaves every [ListOptions] object
    there was as it was, whatever comes of the call. When it succeeds it
    has walked all the pages, as for options with page 0 and nothing
    else set, and the one object it has written, totals included, sits
    at an address that was not in use before; the call hands back
    nothing but its error. *)
Theorem listHelper_nil_options_are_local fuel c ids st r st' :
  listHelper fuel c ids None st = Some (r, st') →
  (∀ l o, heap st !! l = Some o → heap st' !! l = Some o)
  ∧ (r = None →
     ∃ l pages results sent totals,
       heap st !! l = None
       ∧ heap st'
         = <[l := setPageOptions
                    {| Page := if decide (2 ≤ pages) then pages else 0;
                       Pages := pages; Results := results |}
                    defaultOptions]> (heap st)
       ∧ requests st' = requests st ++ sent
       ∧ sent.*1 = R c :: (pageRequest c defaultOptions <$> seqZ 2 (pages - 1))
       ∧ replay ids (pager st) sent.*1
         = (pager st', Ok <$> (pages, results) :: totals)).
Proof.
  intros Hrun.
  destruct fuel as [|fuel]; [done|].
  apply (listHelper_fuel_le _ (S (S fuel))) in Hrun; [|lia].
  rewrite listHelper_nil in Hrun. cbn zeta in Hrun.
  assert (heap st !! fresh (dom (heap st)) = None) as Hfresh.
  { apply not_elem_of_dom, is_fresh. }
  destruct (castResult (pager st) (R c) (endpoint (pager st) ids))
    as [pg1 [[pages results]|err]] eqn:E.
  2:{ injection Hrun as <- <-. by split. }
  pose proof (walk_sent c ids (seqZ 2 (pages - 1)) defaultOptions pg1) as Hs.
  pose proof (walk_replay c ids (seqZ 2 (pages - 1)) defaultOptions pg1) as Hr.
  pose proof (walk_length c ids (seqZ 2 (pages - 1)) defaultOptions pg1) as Hlen.
  pose proof (walk_success_opts c ids defaultOptions (newPageOptions 0)
                pages results pg1 eq_refl eq_refl) as Ho.
  destruct (w_err (walk c ids defaultOptions (seqZ 2 (pages - 1)) pg1)) eqn:Ew;
    injection Hrun as <- <-; cbn [heap pager requests].
  - split; [|done]. intros l o Hlo. rewrite lookup_insert_ne; [done|].
    intros <-. by rewrite Hfresh in Hlo.
  - split.
    { intros l o Hlo. rewrite lookup_insert_ne; [done|].
      intros <-. by rewrite Hfresh in Hlo. }
    intros _. destruct (Hlen eq_refl) as [Hlen1 _].
    rewrite Hlen1, firstn_all in Hs. cbn in Hr. rewrite app_nil_r in Hr.
    eexists _, pages, results, _, _.
    split; [exact Hfresh|]. split; [by rewrite (Ho eq_refl)|].
    split; [done|]. cbn [fmap list_fmap fst replay].
    split; [rewrite Hs; reflexivity|]. by rewrite E, Hr.
Qed.

End Options.

(** ** A page that fails *)

Section Abort.
Context {P T : Type} `{PagedResponse P} `{!Gathers P T}.
Implicit Types (st : State P) (o : ListOptions) (l : loc) (c : Client).

(** A walk whose pages [ks1] are all answered with totals and whose next
    page [k] fails stops there. *)
Lemma walk_until_error c ids o0 ks1 : ∀ o pg k ks2 pg_mid totals pg_k e,
  (∀ k', requestOf c (setPage k' o) = requestOf c (setPage k' o0)) →
  replay ids pg ((λ k', requestOf c (setPage k' o0)) <$> ks1)
  = (pg_mid, Ok <$> totals) →
  castResult pg_mid (requestOf c (setPage k o0)) (endpoint pg_mid ids)
  = (pg_k, Err e) →
  w_err (walk c ids o (ks1 ++ k :: ks2) pg) = Some e
  ∧ w_pager (walk c ids o (ks1 ++ k :: ks2) pg) = pg_k
  ∧ w_totals (walk c ids o (ks1 ++ k :: ks2) pg) = totals
  ∧ length (w_sent (walk c ids o (ks1 ++ k :: ks2) pg)) = S (length ks1).
Proof.
  induction ks1 as [|k1 ks1 IH];
    intros o pg k ks2 pg_mid totals pg_k e Hreq Hrep Hfail.
  - cbn in Hrep. injection Hrep as -> Ht.
    symmetry in Ht. apply fmap_nil_inv in Ht as ->.
    cbn [app walk]. by rewrite Hreq, Hfail.
  - cbn [fmap list_fmap replay] in Hrep.
    destruct (castResult pg (requestOf c (setPage k1 o0)) (endpoint pg ids))
      as [pg' r] eqn:E1.
    destruct (replay ids pg' _) as [pg'' rs] eqn:E2.
    injection Hrep as -> Ht.
    destruct totals as [|[pages results] totals]; [done|].
    injection Ht as -> ->.
    cbn [app walk]. rewrite Hreq, E1.
    destruct (IH (setTotals results pages (setPage k1 o)) pg' k ks2
                pg_mid totals pg_k e) as (Hw1 & Hw2 & Hw3 & Hw4);
      [|exact E2|exact Hfail|].
    { intros k'. by rewrite requestOf_setPage_setTotals,
        requestOf_setPage_setPage. }
    cbn. by rewrite Hw1, Hw2, Hw3, Hw4.
Qed.

Lemma seqZ_split_at k pages :
  2 ≤ k ≤ pages →
  seqZ 2 (pages - 1) = seqZ 2 (k - 2) ++ k :: seqZ (k + 1) (pages - k).
Proof.
  intros Hk. replace (pages - 1) with ((k - 2) + (pages - k + 1)) by lia.
  rewrite seqZ_app by lia. f_equal.
  rewrite seqZ_cons by lia. f_equal; [lia|f_equal; lia].
Qed.

Lemma take_S_length_app {A} (xs : list A) x ys :
  take (S (length xs)) (xs ++ x :: ys) = xs ++ [x].
Proof. induction xs as [|a xs IH]; cbn; [by rewrite take_0|by rewrite IH]. Qed.

(** Options which apply, and a page that fails.
    - Whatever page the options ask for: when the first request fails, the
      call returns its error; that request is the only one sent, the pager
      is as the failed request left it, and no [ListOptions] object has
      changed.
    - Options with no page window or with page 0: when the first request
      and those for the pages 2 to k-1 are answered with totals and the
      request for page k fails, the call returns the error of page k; the
      requests sent are those up to page k and no more, the pager is as
      the failed request left it and still holds the items of the pages
      before, and the options hold page k with the totals of page k-1
      (those they came with when k is 2): neither the totals of the first
      answer nor anything for page k is written. *)
Lemma listHelper_options_abort f c ids l o st :
  heap st !! l = Some o →
  applies o →
  let req := requestOf c o in
  let url := endpoint (pager st) ids in
  (∀ pg1 e,
     castResult (pager st) req url = (pg1, Err e) →
     listHelper (S (S f)) c ids (Some l) st
     = Some (Some e, {| heap := heap st; pager := pg1;
                        requests := requests st ++ [(req, url)] |}))
  ∧ (∀ pg1 pages results k pg_mid totals pg_k e,
       pageOptions o = None ∨ Page <$> pageOptions o = Some 0 →
       castResult (pager st) req url = (pg1, Ok (pages, results)) →
       2 ≤ k ≤ pages →
       replay ids pg1 (pageRequest c o <$> seqZ 2 (k - 2))
       = (pg_mid, Ok <$> totals) →
       castResult pg_mid (pageRequest c o k) (endpoint pg_mid ids)
       = (pg_k, Err e) →
       ∃ st' sent,
         listHelper (S (S f)) c ids (Some l) st = Some (Some e, st')
         ∧ requests st' = requests st ++ sent
         ∧ sent.*1 = req :: (pageRequest c o <$> seqZ 2 (k - 1))
         ∧ pager st' = pg_k
         ∧ gathered pg_k
           = gathered (pager st)
               ++ concat (decodedAll ids (pager st) sent.*1)
         ∧ let po := default (newPageOptions 0) (pageOptions o) in
           let last_totals := List.last totals (Pages po, Results po) in
           heap st'
           = <[l := setPageOptions
                      {| Page := k; Pages := last_totals.1;
                         Results := last_totals.2 |} o]> (heap st)).
Proof.
  intros Hl Happ req url.
  assert ((applyListOptionsToRequest (Some o) (R c)).2 = None) as Ha
    by by apply applies_no_error.
  split.
  - intros pg1 e E. rewrite (state_insert_id st l o Hl) at 1.
    assert ((pageOptions o = None ∨ Page <$> pageOptions o = Some 0)
            ∨ ∃ po, pageOptions o = Some po ∧ Page po ≠ 0) as [Hpage|Hpage].
    { destruct (pageOptions o) as [po|]; [|by left; left].
      destruct (decide (Page po = 0)) as [Hz|?];
        [left; right; cbn; by rewrite Hz|].
      right. by exists po. }
    + rewrite listHelper_all by done. cbn zeta. fold req url. rewrite E.
      by rewrite (insert_id (heap st) l o Hl).
    + destruct Hpage as (po & Hpo & Hne).
      rewrite (listHelper_single (S f) c ids l o po) by done.
      cbn zeta. fold req url. rewrite E.
      by rewrite (insert_id (heap st) l o Hl).
  - intros pg1 pages results k pg_mid totals pg_k e Hpage E Hk Hrep Hfail.
    pose proof (listHelper_all f c ids l o (heap st) (pager st) (requests st)
                  Hpage Ha) as Hrun.
    rewrite <-(state_insert_id st l o Hl) in Hrun.
    cbn zeta in Hrun. fold req url in Hrun. rewrite E in Hrun.
    rewrite (seqZ_split_at k pages Hk) in Hrun.
    set (ks1 := seqZ 2 (k - 2)) in *.
    set (ks2 := seqZ (k + 1) (pages - k)) in *.
    destruct (walk_until_error c ids (ensurePageOptions o) ks1
                (ensurePageOptions o) pg1 k ks2 pg_mid totals pg_k e)
      as (Hw1 & Hw2 & Hw3 & Hw4); [done|exact Hrep|exact Hfail|].
    pose proof (walk_sent c ids (ks1 ++ k :: ks2) (ensurePageOptions o) pg1)
      as Hs.
    pose proof (walk_gathered c ids (ks1 ++ k :: ks2) (ensurePageOptions o) pg1)
      as Hg.
    assert (∃ po, pageOptions (ensurePageOptions o) = Some po
                  ∧ po = default (newPageOptions 0) (pageOptions o))
      as (po & Hpo & Hpo').
    { unfold ensurePageOptions.
      destruct (pageOptions o) as [po0|] eqn:E0;
        [exists po0|exists (newPageOptions 0)]; by rewrite ?E0. }
    pose proof (walk_opts c ids (ks1 ++ k :: ks2) (ensurePageOptions o) po pg1 Hpo)
      as Ho.
    remember (walk c ids (ensurePageOptions o) (ks1 ++ k :: ks2) pg1) as w
      eqn:Hw.
    rewrite Hw1 in Hrun. rewrite Hw4, take_S_length_app in Hs, Ho.
    rewrite Hw3, last_last, setPageOptions_ensure in Ho.
    eexists _, ((req, url) :: w_sent w). split; [exact Hrun|].
    cbn [heap pager requests fmap list_fmap fst].
    change (list_fmap _ _ fst (w_sent w)) with ((w_sent w).*1).
    split; [done|]. split.
    { rewrite Hs. f_equal.
      replace (k - 1) with ((k - 2) + 1) by lia.
      rewrite seqZ_app by lia. do 2 f_equal.
      rewrite seqZ_cons, seqZ_nil by lia. f_equal. lia. }
    split; [done|]. split.
    { cbn [decodedAll]. fold req url. rewrite E. cbn [concat].
      by rewrite <-Hw2, Hg, (castResult_Ok _ _ _ _ _ E), app_assoc. }
    cbn zeta. by rewrite Ho, Hpo'.
Qed.

(** A call with the nil pointer: the first request fails. *)
Lemma listHelper_nil_first_fails f c ids st pg1 e :
  castResult (pager st) (R c) (endpoint (pager st) ids) = (pg1, Err e) →
  listHelper (S (S f)) c ids None st
  = Some (Some e, {| heap := heap st; pager := pg1;
                     requests :=
                       requests st ++ [(R c, endpoint (pager st) ids)] |}).
Proof. intros E. rewrite listHelper_nil. cbn zeta. by rewrite E. Qed.

(** A call with the nil pointer: the request for page [k] fails. *)
Lemma listHelper_nil_later_fails f c ids st pg1 pages results k pg_mid
    totals pg_k e :
  castResult (pager st) (R c) (endpoint (pager st) ids)
  = (pg1, Ok (pages, results)) →
  2 ≤ k ≤ pages →
  replay ids pg1 (pageRequest c defaultOptions <$> seqZ 2 (k - 2))
  = (pg_mid, Ok <$> totals) →
  castResult pg_mid (pageRequest c defaultOptions k) (endpoint pg_mid ids)
  = (pg_k, Err e) →
  ∃ st' sent,
    listHelper (S (S f)) c ids None st = Some (Some e, st')
    ∧ requests st' = requests st ++ sent
    ∧ sent.*1 = R c :: (pageRequest c defaultOptions <$> seqZ 2 (k - 1))
    ∧ pager st' = pg_k
    ∧ gathered pg_k
      = gathered (pager st) ++ concat (decodedAll ids (pager st) sent.*1)
    ∧ heap st'
      = <[fresh (dom (heap st)) :=
            setPageOptions
              {| Page := k; Pages := (List.last totals (0, 0)).1;
                 Results := (List.last totals (0, 0)).2 |} defaultOptions]>
          (heap st)
    ∧ ∀ l o, heap st !! l = Some o → heap st' !! l = Some o.
Proof.
  intros E Hk Hrep Hfail.
  pose proof (listHelper_nil f c ids st) as Hrun. cbn zeta in Hrun.
  rewrite E in Hrun. rewrite (seqZ_split_at k pages Hk) in Hrun.
  set (ks1 := seqZ 2 (k - 2)) in *.
  set (ks2 := seqZ (k + 1) (pages - k)) in *.
  destruct (walk_until_error c ids defaultOptions ks1
              defaultOptions pg1 k ks2 pg_mid totals pg_k e)
    as (Hw1 & Hw2 & Hw3 & Hw4); [done|exact Hrep|exact Hfail|].
  pose proof (walk_sent c ids (ks1 ++ k :: ks2) defaultOptions pg1) as Hs.
  pose proof (walk_gathered c ids (ks1 ++ k :: ks2) defaultOptions pg1) as Hg.
  pose proof (walk_opts c ids (ks1 ++ k :: ks2) defaultOptions
                (newPageOptions 0) pg1 eq_refl) as Ho.
  remember (walk c ids defaultOptions (ks1 ++ k :: ks2) pg1) as w eqn:Hw.
  rewrite Hw1 in Hrun. rewrite Hw4, take_S_length_app in Hs, Ho.
  rewrite Hw3, last_last in Ho.
  eexists _, ((R c, endpoint (pager st) ids) :: w_sent w).
  split; [exact Hrun|].
  cbn [heap pager requests fmap list_fmap fst].
  change (list_fmap _ _ fst (w_sent w)) with ((w_sent w).*1).
  split; [done|]. split.
  { rewrite Hs. f_equal.
    replace (k - 1) with ((k - 2) + 1) by lia.
    rewrite seqZ_app by lia. do 2 f_equal.
    rewrite seqZ_cons, seqZ_nil by lia. f_equal. lia. }
  split; [done|]. split.
  { cbn [decodedAll]. rewrite E. cbn [concat].
    by rewrite <-Hw2, Hg, (castResult_Ok _ _ _ _ _ E), app_assoc. }
  split; [by rewrite Ho|].
  intros l o Hl. rewrite lookup_insert_ne; [done|].
  intros <-. apply (is_fresh (dom (heap st))), elem_of_dom. by eexists.
Qed.

(** C8. A page that fails ends the call with the error of that page,
    whether the call is given options or the nil pointer.
    Options which apply:
    - Whatever page the options ask for: when the first request fails, the
      call returns its error; that request is the only one sent, the pager
      is as the failed request left it, and no [ListOptions] object has
      changed.
    - Options with no page window or with page 0: when the first request
      and those for the pages 2 to k-1 are answered with totals and the
      request for page k fails, the call returns the error of page k; the
      requests sent are those up to page k and no more, the pager is as
      the failed request left it and still holds the items of the pages
      before, and the options hold page k with the totals of page k-1
      (those they came with when k is 2): neither the totals of the first
      answer nor anything for page k is written.
    The nil pointer:
    - When the first request, which is the bare request of the client,
      fails, the call returns its error; that request is the only one
      sent, the pager is as the failed request left it, and the heap is
      as it was: the options of the loop have not been made.
    - When the first request and those for the pages 2 to k-1 are
      answered with totals and the request for page k fails, the call
      returns the error of page k; the requests sent are those up to
      page k and no more, the pager is as the failed request left it and
      still holds the items of the pages before; the options made for
      the loop, which the caller cannot reach, hold page k with the
      totals of page k-1, and every object the caller had is unchanged. *)
Theorem listHelper_aborts_on_error f c ids st :
  (∀ l o,
     heap st !! l = Some o →
     applies o →
     let req := requestOf c o in
     let url := endpoint (pager st) ids in
     (∀ pg1 e,
        castResult (pager st) req url = (pg1, Err e) →
        listHelper (S (S f)) c ids (Some l) st
        = Some (Some e, {| heap := heap st; pager := pg1;
                           requests := requests st ++ [(req, url)] |}))
     ∧ (∀ pg1 pages results k pg_mid totals pg_k e,
          pageOptions o = None ∨ Page <$> pageOptions o = Some 0 →
          castResult (pager st) req url = (pg1, Ok (pages, results)) →
          2 ≤ k ≤ pages →
          replay ids pg1 (pageRequest c o <$> seqZ 2 (k - 2))
          = (pg_mid, Ok <$> totals) →
          castResult pg_mid (pageRequest c o k) (endpoint pg_mid ids)
          = (pg_k, Err e) →
          ∃ st' sent,
            listHelper (S (S f)) c ids (Some l) st = Some (Some e, st')
            ∧ requests st' = requests st ++ sent
            ∧ sent.*1 = req :: (pageRequest c o <$> seqZ 2 (k - 1))
            ∧ pager st' = pg_k
            ∧ gathered pg_k
              = gathered (pager st)
                  ++ concat (decodedAll ids (pager st) sent.*1)
            ∧ let po := default (newPageOptions 0) (pageOptions o) in
              let last_totals := List.last totals (Pages po, Results po) in
              heap st'
              = <[l := setPageOptions
                         {| Page := k; Pages := last_totals.1;
                            Results := last_totals.2 |} o]> (heap st)))
  ∧ (∀ pg1 e,
       castResult (pager st) (R c) (endpoint (pager st) ids) = (pg1, Err e) →
       listHelper (S (S f)) c ids None st
       = Some (Some e,
               {| heap := heap st; pager := pg1;
                  requests :=
                    requests st ++ [(R c, endpoint (pager st) ids)] |}))
  ∧ (∀ pg1 pages results k pg_mid totals pg_k e,
       castResult (pager st) (R c) (endpoint (pager st) ids)
       = (pg1, Ok (pages, results)) →
       2 ≤ k ≤ pages →
       replay ids pg1 (pageRequest c defaultOptions <$> seqZ 2 (k - 2))
       = (pg_mid, Ok <$> totals) →
       castResult pg_mid (pageRequest c defaultOptions k)
                  (endpoint pg_mid ids)
       = (pg_k, Err e) →
       ∃ st' sent,
         listHelper (S (S f)) c ids None st = Some (Some e, st')
         ∧ requests st' = requests st ++ sent
         ∧ sent.*1
           = R c :: (pageRequest c defaultOptions <$> seqZ 2 (k - 1))
         ∧ pager st' = pg_k
         ∧ gathered pg_k
           = gathered (pager st)
               ++ concat (decodedAll ids (pager st) sent.*1)
         ∧ heap st'
           = <[fresh (dom (heap st)) :=
                 setPageOptions
                   {| Page := k; Pages := (List.last totals (0, 0)).1;
                      Results := (List.last totals (0, 0)).2 |}
                   defaultOptions]> (heap st)
         ∧ ∀ l o, heap st !! l = Some o → heap st' !! l = Some o).
Proof.
  split; [intros l o; apply listHelper_options_abort|].
  split; [intros pg1 e; apply listHelper_nil_first_fails|].
  intros pg1 pages results k pg_mid totals pg_k e.
  apply listHelper_nil_later_fails.
Qed.

End Abort.

(** ** The query flattener *)

Section Flatten.
Implicit Types (v : Value) (f : StructField)
  (fields all rest : list (StructField * Value)) (m result : gmap string string).

Lemma deref_Indirect v :
  match Kind v with reflect.Pointer => Indirect v | _ => v end = Indirect v.
Proof. destruct v as [| [] | [] | [] | [] | | ? [] | | | []]; done. Qed.

Lemma queryFieldToString_supported v :
  supported (Kind v) = true → ∃ s, queryFieldToString v = Ok s.
Proof.
  unfold queryFieldToString. destruct (Kind v); try done; by eexists.
Qed.

Lemma queryFieldToString_unsupported v :
  supported (Kind v) = false →
  queryFieldToString v
  = Err (Errorf ("unsupported query param type: " +:+ TypeName v)).
Proof. unfold queryFieldToString. by destruct (Kind v). Qed.

(** In a record, asking for a field by its name gives that field. *)
Lemma FieldByName_elem_of all f v :
  NoDup (Name <$> all.*1) → (f, v) ∈ all →
  FieldByName all (Name f) = Some v.
Proof.
  induction all as [|[f0 v0] all IH]; intros Hnd Hin.
  { by apply elem_of_nil in Hin. }
  cbn in Hnd. apply NoDup_cons in Hnd as [Hnotin Hnd].
  apply elem_of_cons in Hin as [[= -> ->]|Hin]; cbn [FieldByName].
  - by rewrite String.eqb_refl.
  - destruct (String.eqb_spec (Name f0) (Name f)) as [Heq|_]; [|by apply IH].
    destruct Hnotin. rewrite Heq.
    apply list_elem_of_fmap. exists f. split; [done|].
    apply list_elem_of_fmap. by exists (f, v).
Qed.

Lemma elem_of_queryTags rest f v t :
  (f, v) ∈ rest → Lookup (Tag f) "query" = Some t → t ∈ queryTags rest.
Proof.
  intros Hin Ht. apply list_elem_of_omap. by exists (f, v).
Qed.

(** The field loop, field by field: it succeeds when every annotated
    field that is not zero is of a supported kind once dereferenced;
    the fields it passes leave their mark under their own query name
    and nowhere else. *)
Lemma flattenFields_spec all rest :
  (∀ f v, (f, v) ∈ rest → FieldByName all (Name f) = Some v) →
  NoDup (queryTags rest) →
  (∀ f v t, (f, v) ∈ rest → Lookup (Tag f) "query" = Some t →
            IsZero v = false → supported (Kind (Indirect v)) = true) →
  ∀ result, ∃ m,
    flattenFields all rest result = Ok m
    ∧ (∀ t, t ∉ queryTags rest → m !! t = result !! t)
    ∧ (∀ f v t, (f, v) ∈ rest → Lookup (Tag f) "query" = Some t →
         (IsZero v = true → m !! t = result !! t)
         ∧ (IsZero v = false →
            ∃ s, queryFieldToString (Indirect v) = Ok s ∧ m !! t = Some s)).
Proof.
  induction rest as [|[f0 v0] rest IH]; intros Hname Hnd Hsup result.
  { exists result. split; [done|]. split; [done|].
    intros f v t Hin. by apply elem_of_nil in Hin. }
  assert (∀ f v, (f, v) ∈ rest → FieldByName all (Name f) = Some v) as Hname'
    by (intros; apply Hname; by right).
  assert (∀ f v t, (f, v) ∈ rest → Lookup (Tag f) "query" = Some t →
            IsZero v = false → supported (Kind (Indirect v)) = true) as Hsup'
    by (intros ??? Hin; apply Hsup; by right).
  cbn [flattenFields]. unfold queryTags in Hnd |- *. cbn [omap list_omap fst] in *.
  fold (queryTags rest) in *.
  destruct (Lookup (Tag f0) "query") as [t0|] eqn:Ht0.
  2:{ destruct (IH Hname' Hnd Hsup' result) as (m & Hm & Hout & Hin).
      exists m. split; [done|]. split; [done|].
      intros f v t [[= -> ->]|Hel]%elem_of_cons Ht; [congruence|].
      by apply (Hin f). }
  apply NoDup_cons in Hnd as [Hfresh Hnd].
  rewrite (Hname f0 v0) by left.
  destruct (IsZero v0) eqn:Hz.
  - destruct (IH Hname' Hnd Hsup' result) as (m & Hm & Hout & Hin).
    exists m. split; [done|]. split.
    { intros t Ht. apply Hout. intros ?. apply Ht. by right. }
    intros f v t [[= -> ->]|Hel]%elem_of_cons Ht.
    + assert (t = t0) as -> by congruence.
      split; [intros _; by apply Hout|congruence].
    + by apply (Hin f).
  - rewrite deref_Indirect.
    destruct (queryFieldToString_supported (Indirect v0)) as [s0 Hs0].
    { apply (Hsup f0 v0 t0); [by left|done..]. }
    rewrite Hs0.
    destruct (IH Hname' Hnd Hsup' (<[t0 := s0]> result))
      as (m & Hm & Hout & Hin).
    exists m. split; [done|]. split.
    { intros t Ht. rewrite Hout by (intros ?; apply Ht; by right).
      apply lookup_insert_ne. intros <-. apply Ht. by left. }
    intros f v t [[= -> ->]|Hel]%elem_of_cons Ht.
    + assert (t = t0) as -> by congruence. split; [congruence|].
      intros _. exists s0. split; [done|].
      by rewrite Hout, lookup_insert_eq.
    + destruct (Hin f v t Hel Ht) as [Hzero Hnz]. split; [|done].
      intros Hvz. rewrite (Hzero Hvz). apply lookup_insert_ne.
      intros <-. apply Hfresh. by eapply elem_of_queryTags.
Qed.

(** The loop stops at the first field it cannot put into words. *)
Lemma flattenFields_app all pre rest result :
  flattenFields all (pre ++ rest) result
  = match flattenFields all pre result with
    | Ok m => flattenFields all rest m
    | Err e => Err e
    end.
Proof.
  revert result. induction pre as [|[f0 v0] pre IH]; intros result; [done|].
  cbn [app flattenFields].
  destruct (Lookup (Tag f0) "query"); [|by apply IH].
  destruct (FieldByName all (Name f0)) as [v|]; [|done].
  destruct (IsZero v); [by apply IH|].
  destruct (queryFieldToString _); [by apply IH|done].
Qed.

Lemma flattenQueryStruct_record val fields :
  recordOf val = Some fields →
  flattenQueryStruct (Some val) = flattenFields fields fields ∅.
Proof.
  destruct val as [| | | | | | ? [[]|] | | |]; try done; by intros [= ->].
Qed.

(** C4, amended. In a well-formed record whose annotated fields that
    are not zero are all of a supported kind once dereferenced, the
    flattener succeeds, and for each annotated field: when the field
    holds the zero value of its type (for a pointer: nil) its query name
    is not in the result; otherwise its query name maps to the string of
    the field, or for a pointer of what it points to, be that zero or
    not. *)
Theorem flatten_omits_zero_fields val fields f v t :
  recordOf val = Some fields →
  wellFormed fields →
  (∀ f v t, (f, v) ∈ fields → Lookup (Tag f) "query" = Some t →
            IsZero v = false → supported (Kind (Indirect v)) = true) →
  (f, v) ∈ fields → Lookup (Tag f) "query" = Some t →
  ∃ m, flattenQueryStruct (Some val) = Ok m
       ∧ (IsZero v = true → m !! t = None)
       ∧ (IsZero v = false →
          ∃ s, queryFieldToString (Indirect v) = Ok s ∧ m !! t = Some s).
Proof.
  intros Hrec [Hnames Htags] Hsup Hin Ht.
  rewrite (flattenQueryStruct_record _ _ Hrec).
  destruct (flattenFields_spec fields fields) with (result := (∅ : gmap string string))
    as (m & Hm & _ & Hfields); [|done..|].
  { intros f' v' Hin'. by apply FieldByName_elem_of. }
  exists m. split; [done|].
  destruct (Hfields f v t Hin Ht) as [Hzero Hnz]. split; [|done].
  intros Hz. by rewrite (Hzero Hz).
Qed.

(** C5, amended. What a field that reaches [queryFieldToString] turns
    into: a string into itself; an [int], [int32] or [int64] into its
    decimal digits; a boolean into [true] or [false]; a value of any
    other kind, the other integer kinds among them, into an error that
    names the type of the value. The flattener fails with that very
    error at the first annotated field that is not zero and whose kind,
    once dereferenced, is one of the others. *)
Theorem queryFieldToString_by_kind :
  (∀ tname s, queryFieldToString (VString tname s) = Ok s)
  ∧ (∀ k tname i,
       k ∈ [KInt; KInt32; KInt64] →
       queryFieldToString (VInt k tname i) = Ok (FormatInt10 i))
  ∧ (∀ tname b,
       queryFieldToString (VBool tname b)
       = Ok (if b then "true" else "false"))
  ∧ (∀ v,
       Kind v ∉ [reflect.String; reflect.Int; reflect.Int32; reflect.Int64;
                 reflect.Bool] →
       queryFieldToString v
       = Err (Errorf ("unsupported query param type: " +:+ TypeName v)))
  ∧ (∀ tname pre f v post t m,
       let fields := pre ++ (f, v) :: post in
       NoDup (Name <$> fields.*1) →
       flattenFields fields pre ∅ = Ok m →
       Lookup (Tag f) "query" = Some t →
       IsZero v = false →
       Kind (Indirect v) ∉ [reflect.String; reflect.Int; reflect.Int32;
                            reflect.Int64; reflect.Bool] →
       flattenQueryStruct (Some (VStruct tname fields))
       = Err (Errorf ("unsupported query param type: "
                      +:+ TypeName (Indirect v)))).
Proof.
  assert (∀ v, Kind v ∉ [reflect.String; reflect.Int; reflect.Int32;
                         reflect.Int64; reflect.Bool] →
               supported (Kind v) = false) as Hunsup.
  { intros v Hk. destruct (Kind v); try done; destruct Hk;
      repeat (first [by left|right]). }
  split; [done|]. split.
  { intros k tname i Hk. apply list_elem_of_In in Hk. cbn in Hk.
    destruct k; try done; intuition discriminate. }
  split; [by intros ? []|]. split.
  { intros v Hk. by apply queryFieldToString_unsupported, Hunsup. }
  intros tname pre f v post t m fields Hnd Hpre Ht Hz Hk.
  cbn [flattenQueryStruct Kind]. unfold fields at 2.
  rewrite flattenFields_app, Hpre. cbn [flattenFields]. rewrite Ht.
  rewrite (FieldByName_elem_of fields f v Hnd)
    by (unfold fields; set_solver).
  rewrite Hz, deref_Indirect.
  by rewrite (queryFieldToString_unsupported _ (Hunsup _ Hk)).
Qed.

End Flatten.

(** ** The filter *)

(** C7, amended. When the options apply, applying them succeeds; a filter
    that is not empty is set, as it is, as the one value of the header
    [X-Filter] and changes no other header; an empty filter leaves the
    headers as they were; and the query parameters are those the same
    options give with no filter at all, so the filter adds nothing to the
    query string. When the options do not apply, applying them fails and
    leaves the request, its headers included, as it was. *)
Theorem filter_goes_to_header o req :
  (applies o →
   ∃ req',
     applyListOptionsToRequest (Some o) req = (req', None)
     ∧ (Filter o ≠ "" → Header req' = <["X-Filter" := [Filter o]]> (Header req))
     ∧ (Filter o = "" → Header req' = Header req)
     ∧ QueryParam req'
       = QueryParam (applyListOptionsToRequest (Some (withFilter "" o)) req).1)
  ∧ (¬ applies o →
     ∃ err, applyListOptionsToRequest (Some o) req = (req, Some err)).
Proof.
  split; [|apply not_applies_error].
  intros Happ. unfold applyListOptionsToRequest.
  cbn [withFilter QueryParams pageOptions PageSize Filter].
  destruct (match QueryParams o with Some _ => _ | None => _ end)
    as [req0|e] eqn:E.
  2:{ exfalso. destruct Happ as [Hq|[params Hq]]; rewrite Hq in E; [done|].
      by destruct (QueryParams o). }
  assert (Header req0 = Header req) as Hh.
  { destruct (QueryParams o); [destruct (flattenQueryStruct _)|];
      by simplify_eq/=. }
  eexists. split; [reflexivity|].
  remember (if 0 <? PageSize o then _ else _) as req1 eqn:E1.
  assert (Header req1 = Header req) as Hh1.
  { rewrite <-Hh, E1.
    destruct (pageOptions o) as [po|]; [destruct (0 <? Page po)|];
      by destruct (0 <? PageSize o). }
  destruct (Filter o) as [|a filter]; cbn; [by rewrite Hh1|].
  by rewrite Hh1.
Qed.

(** ** The options hasher *)

Section HashFacts.

Lemma Ok_inj {A} (a b : A) : Ok a = Ok b → a = b.
Proof. by intros [= ->]. Qed.

Lemma Err_inj {A} (e e' : error) : @Err A e = Err e' → e = e'.
Proof. by intros [= ->]. Qed.

Lemma length_bytes_of n x : length (sha256.bytes_of n x) = n.
Proof. induction n as [|n IH]; cbn; [done|by rewrite IH]. Qed.

Lemma bytes_of_range n x : Forall (λ b, 0 ≤ b < 256) (sha256.bytes_of n x).
Proof.
  induction n as [|n IH]; cbn [sha256.bytes_of]; constructor; [|done].
  apply Z.mod_pos_bound. lia.
Qed.

(** The digest is 32 bytes, that is 256 bits. *)
Lemma length_Sum data : length (sha256.Sum data) = 32%nat.
Proof. unfold sha256.Sum. by rewrite !length_app, !length_bytes_of. Qed.

Lemma Sum_range data : Forall (λ b, 0 ≤ b < 256) (sha256.Sum data).
Proof.
  unfold sha256.Sum. repeat (apply Forall_app; split);
    apply bytes_of_range.
Qed.

Lemma hexDigit_lower d : isLowerHex (hexDigit d) = true.
Proof.
  destruct d as [|p|p]; [done| |done].
  do 4 (try (destruct p as [p|p|]; try done)).
Qed.

Lemma Sprintf_x_lower b : string_forallb isLowerHex (Sprintf_x b) = true.
Proof.
  induction b as [|x b IH]; [done|].
  cbn [Sprintf_x string_forallb]. by rewrite !hexDigit_lower, IH.
Qed.

Lemma length_Sprintf_x b : String.length (Sprintf_x b) = (2 * length b)%nat.
Proof. induction b as [|x b IH]; cbn; [done|]. rewrite IH. lia. Qed.

Example K_ends :
  length sha256.K = 64%nat
  ∧ head sha256.K = Some 0x428a2f98 ∧ last sha256.K = Some 0xc67178f2
  ∧ sha256.h0 sha256.init = 0x6a09e667 ∧ sha256.h7 sha256.init = 0x5be0cd19.
Proof. by vm_compute. Qed.

(** Known answers of SHA-256 (FIPS 180-4): the empty message, one block,
    and a message whose padding takes a second block. *)
Example Sum_empty :
  Sprintf_x (sha256.Sum [])
  = "e3b0c44298fc1c149afbf4c8996fb92427ae41e4649b934ca495991b7852b855".
Proof. by vm_compute. Qed.

Example Sum_abc :
  Sprintf_x (sha256.Sum (bytesOf "abc"))
  = "ba7816bf8f01cfea414140de5dae2223b00361a396177a9cb410ff61f20015ad".
Proof. by vm_compute. Qed.

Example Sum_two_blocks :
  Sprintf_x (sha256.Sum (bytesOf
    "abcdbcdecdefdefgefghfghighijhijkijkljklmklmnlmnomnopnopq"))
  = "248d6a61d20638b8e5c026930c3e6039a33ce45964ff2167f6ecedd419db06c1".
Proof. by vm_compute. Qed.

(** *** The JSON of the options can be read back *)

Lemma byteOf_range a : 0 ≤ byteOf a < 256.
Proof.
  unfold byteOf. pose proof (N_ascii_bounded a). lia.
Qed.

Lemma byteOf_inj a a' : byteOf a = byteOf a' → a = a'.
Proof.
  unfold byteOf. intros Heq%(inj Z.of_N).
  by rewrite <-(ascii_N_embedding a), <-(ascii_N_embedding a'), Heq.
Qed.

Lemma bytesOf_inj s : ∀ s', bytesOf s = bytesOf s' → s = s'.
Proof.
  induction s as [|a s IH]; intros [|a' s']; cbn; try done.
  intros [= Ha Hs]. f_equal; [by apply byteOf_inj|by apply IH].
Qed.

Lemma length_bytesOf s : length (bytesOf s) = String.length s.
Proof. induction s as [|a s IH]; cbn; [done|]. by f_equal. Qed.

(** Two texts that agree, each a run of bytes of one sort followed by a
    byte of another sort: the runs agree, and so does what follows. *)
Lemma run_inj (p : Z → Prop) x : ∀ x' c c' r r',
  Forall p x → Forall p x' → ¬ p c → ¬ p c' →
  x ++ c :: r = x' ++ c' :: r' →
  x = x' ∧ c = c' ∧ r = r'.
Proof.
  induction x as [|a x IH]; intros [|a' x'] c c' r r' Hx Hx' Hc Hc'; cbn.
  - by intros [= -> ->].
  - intros [= -> _]. by apply Forall_cons_1 in Hx' as [??].
  - intros [= -> _]. by apply Forall_cons_1 in Hx as [??].
  - intros [= -> Hrest].
    apply Forall_cons_1 in Hx as [_ Hx]. apply Forall_cons_1 in Hx' as [_ Hx'].
    destruct (IH _ _ _ _ _ Hx Hx' Hc Hc' Hrest) as (-> & -> & ->). done.
Qed.

Lemma formatDigits_numeric n : ∀ u acc,
  0 ≤ u → Forall numeric (bytesOf acc) →
  Forall numeric (bytesOf (formatDigits n u acc)).
Proof.
  induction n as [|n IH]; intros u acc Hu Hacc; cbn [formatDigits]; [done|].
  assert (Forall numeric (bytesOf (String (digitChar (u mod 10)) acc))) as H1.
  { cbn. constructor; [|done]. right. unfold digitChar.
    pose proof (Z.mod_pos_bound u 10).
    fold (byteOf (ascii_of_N (48 + Z.to_N (u mod 10)))). unfold byteOf.
    rewrite N_ascii_embedding by lia. lia. }
  destruct (u / 10 =? 0); [done|]. apply IH; [apply Z.div_pos; lia|done].
Qed.

Lemma jsonInt_numeric i : Forall numeric (jsonInt i).
Proof.
  unfold jsonInt, FormatInt10.
  assert (Forall numeric
            (bytesOf (formatDigits (S (Z.to_nat (Z.log2 (Z.abs i)))) (Z.abs i) "")))
    as Hd by (apply formatDigits_numeric; [lia|constructor]).
  destruct (i <? 0); [|done]. cbn. constructor; [by left|done].
Qed.

Lemma jsonInt_inj i i' : jsonInt i = jsonInt i' → i = i'.
Proof. intros Heq%bytesOf_inj. by apply FormatInt10_inj. Qed.

(** An integer field and the comma after it. *)
Lemma jsonInt_comma_inj i i' r r' :
  jsonInt i ++ 44 :: r = jsonInt i' ++ 44 :: r' → i = i' ∧ r = r'.
Proof.
  intros Heq.
  assert (¬ numeric 44) as H44 by (unfold numeric; lia).
  destruct (run_inj numeric (jsonInt i) (jsonInt i') 44 44 r r'
              (jsonInt_numeric i) (jsonInt_numeric i') H44 H44 Heq)
    as (Hi & _ & Hr).
  split; [by apply jsonInt_inj|done].
Qed.

Lemma splitAtQuote_plain x : ∀ y,
  Forall plain x →
  splitAtQuote (x ++ y) = (λ xr, (x ++ xr.1, xr.2)) <$> splitAtQuote y.
Proof.
  induction x as [|b x IH]; intros y Hx; cbn [app splitAtQuote].
  { destruct (splitAtQuote y) as [[??]|]; done. }
  apply Forall_cons_1 in Hx as [[H34 H92] Hx].
  apply Z.eqb_neq in H34, H92. rewrite H34, H92, IH by done.
  by destruct (splitAtQuote y) as [[??]|].
Qed.

Lemma splitAtQuote_escape c x y :
  Forall plain x →
  splitAtQuote (92 :: c :: x ++ y)
  = (λ xr, (92 :: c :: x ++ xr.1, xr.2)) <$> splitAtQuote y.
Proof.
  intros Hx. cbn [splitAtQuote]. cbn. rewrite splitAtQuote_plain by done.
  by destruct (splitAtQuote y) as [[??]|].
Qed.

Lemma hexByte_plain d : plain (hexByte d).
Proof.
  unfold hexByte, hexDigit.
  destruct d as [|p|p]; [by vm_compute| |by vm_compute].
  do 4 (try (destruct p as [p|p|]; try by vm_compute)).
Qed.

(** A well-formed encoding of more than one byte has no byte below
    0x80. *)
Lemma DecodeRuneInString_high s0 s c size :
  0x80 ≤ s0 →
  DecodeRuneInString (s0 :: s) = (c, size) →
  ((c =? RuneError) && (size =? 1)%nat = false) →
  Forall (λ b, 0x80 ≤ b) (take size (s0 :: s)).
Proof.
  intros Hs0. unfold DecodeRuneInString.
  assert ((s0 <? 0x80) = false) as -> by lia.
  assert (∀ c' size', (RuneError, 1%nat) = (c', size') →
            (c' =? RuneError) && (size' =? 1)%nat = false → 
            Forall (λ b, 0x80 ≤ b) (take size' (s0 :: s))) as Hbad.
  { intros ?? [= <- <-]. done. }
  destruct (leadByte s0) as [[[sz lo] hi]|] eqn:Hlead; [|apply Hbad].
  assert (0x80 ≤ lo) as Hlo.
  { unfold leadByte in Hlead.
    repeat (destruct (_ <? _) || destruct (_ =? _)); by simplify_eq. }
  destruct (length (s0 :: s) <? sz)%nat; [apply Hbad|].
  destruct s as [|s1 s]; [apply Hbad|].
  destruct ((s1 <? lo) || (hi <? s1)) eqn:H1; [apply Hbad|].
  apply orb_false_iff in H1 as [H1%Z.ltb_ge _].
  destruct (sz <=? 2)%nat.
  { intros [= <- <-] _. cbn. repeat constructor; lia. }
  destruct s as [|s2 s]; [apply Hbad|].
  destruct (continues s2) eqn:H2; cbn [negb]; [|apply Hbad].
  apply andb_true_iff in H2 as [H2%Z.leb_le _].
  destruct (sz <=? 3)%nat.
  { intros [= <- <-] _. cbn. repeat constructor; lia. }
  destruct s as [|s3 s]; [apply Hbad|].
  destruct (continues s3) eqn:H3; cbn [negb]; [|apply Hbad].
  apply andb_true_iff in H3 as [H3%Z.leb_le _].
  intros [= <- <-] _. cbn. repeat constructor; lia.
Qed.

(** What stands between the quotes of a JSON string holds no double
    quote but after a backslash: the string ends where its closing quote
    is. *)
Lemma splitAtQuote_escaped n : ∀ s r,
  splitAtQuote (escaped n s ++ 34 :: r) = Some (escaped n s, r).
Proof.
  induction n as [|n IH]; intros s r; [done|].
  destruct s as [|b s]; [done|]. cbn [escaped].
  assert (∀ c x s0,
            Forall plain x →
            splitAtQuote (92 :: c :: x ++ escaped n s0 ++ 34 :: r)
            = Some (92 :: c :: x ++ escaped n s0, r)) as Hesc.
  { intros c x s0 Hx. by rewrite splitAtQuote_escape, IH. }
  destruct (b <? 0x80) eqn:Hb.
  - destruct (htmlSafeSet b) eqn:Hsafe.
    + rewrite <-app_assoc. rewrite splitAtQuote_plain, IH; [done|].
      constructor; [|done]. unfold htmlSafeSet in Hsafe.
      apply andb_true_iff in Hsafe as [_ Hn%negb_true_iff].
      apply bool_decide_eq_false in Hn.
      split; intros ->; apply Hn; repeat first [by left|right].
    + unfold escapeOf.
      destruct (bool_decide (b ∈ [92; 34])); [by apply (Hesc b [] s)|].
      destruct (b =? 10); [by apply (Hesc _ [] s)|].
      destruct (b =? 13); [by apply (Hesc _ [] s)|].
      destruct (b =? 9); [by apply (Hesc _ [] s)|].
      apply (Hesc _ [_; _; _; _] s).
      repeat constructor; try apply hexByte_plain; by vm_compute.
  - destruct (DecodeRuneInString (b :: s)) as [c size] eqn:Hdec.
    destruct ((c =? RuneError) && (size =? 1)%nat) eqn:Herr.
    { apply (Hesc _ [_; _; _; _] (drop size (b :: s))).
      repeat constructor; by vm_compute. }
    destruct ((c =? 0x2028) || (c =? 0x2029)).
    { apply (Hesc _ [_; _; _; _] (drop size (b :: s))).
      repeat constructor; try apply hexByte_plain; by vm_compute. }
    rewrite <-app_assoc, splitAtQuote_plain, IH; [done|].
    eapply Forall_impl; [apply (DecodeRuneInString_high b s c size); [lia|done..]|].
    intros x Hx. cbn beta in Hx. unfold plain. lia.
Qed.

Lemma jsonString_inj s s' r r' :
  jsonString s ++ r = jsonString s' ++ r' → jsonString s = jsonString s' ∧ r = r'.
Proof.
  unfold jsonString. rewrite <-!app_assoc. cbn [app]. intros [= Heq].
  apply (f_equal splitAtQuote) in Heq. rewrite !splitAtQuote_escaped in Heq.
  injection Heq as -> ->. done.
Qed.

(** *** The hexadecimal digits *)

Lemma hexValue_hexDigit d : 0 ≤ d < 16 → hexValue (hexDigit d) = Some d.
Proof.
  intros Hd.
  assert (d ∈ seqZ 0 16) as Hin by (apply elem_of_seqZ; lia).
  assert (Forall (λ d, hexValue (hexDigit d) = Some d) (seqZ 0 16)) as Hall
    by (apply (bool_decide_unpack _); by vm_compute).
  rewrite Forall_forall in Hall. by apply Hall.
Qed.

(** The hexadecimal digits spell the bytes back. *)
Lemma hexDecode_Sprintf_x b :
  Forall (λ x, 0 ≤ x < 256) b → hexDecode (Sprintf_x b) = Some b.
Proof.
  induction 1 as [|x b Hx _ IH]; [done|].
  cbn [Sprintf_x hexDecode]. rewrite IH.
  rewrite (Z.mod_small x 256) by lia.
  rewrite !hexValue_hexDigit.
  - do 2 f_equal. pose proof (Z.div_mod x 16). lia.
  - apply Z.mod_pos_bound. lia.
  - split; [apply Z.div_pos; lia|apply Z.div_lt_upper_bound; lia].
Qed.

(** *** ASCII filters *)

Lemma hexByte_inj d d' :
  0 ≤ d < 16 → 0 ≤ d' < 16 → hexByte d = hexByte d' → d = d'.
Proof.
  intros Hd Hd' Heq%byteOf_inj.
  pose proof (hexValue_hexDigit d Hd) as H1.
  rewrite Heq, hexValue_hexDigit in H1 by done. by injection H1.
Qed.

Lemma nibbles b :
  0 ≤ b < 256 →
  0 ≤ Z.shiftr b 4 < 16 ∧ 0 ≤ Z.land b 0xF < 16
  ∧ b = 16 * Z.shiftr b 4 + Z.land b 0xF.
Proof.
  intros Hb. rewrite Z.shiftr_div_pow2 by lia.
  change 0xF with (Z.ones 4). rewrite Z.land_ones by lia.
  change (2 ^ 4) with 16. pose proof (Z.div_mod b 16).
  pose proof (Z.mod_pos_bound b 16).
  split; [split; [apply Z.div_pos; lia|apply Z.div_lt_upper_bound; lia]|lia].
Qed.

Lemma asciiToken_inj b b' r r' :
  0 ≤ b < 128 → 0 ≤ b' < 128 →
  asciiToken b ++ r = asciiToken b' ++ r' → b = b' ∧ r = r'.
Proof.
  intros Hb Hb'. unfold asciiToken.
  assert (∀ x, htmlSafeSet x = true → x ≠ 92) as Hsafe.
  { intros x Hx ->. done. }
  destruct (htmlSafeSet b) eqn:Hs, (htmlSafeSet b') eqn:Hs'.
  - by intros [= -> ->].
  - intros [= -> _]. by apply Hsafe in Hs.
  - intros [= <- _]. by apply Hsafe in Hs'.
  - cbn [app]. intros [= Heq]. revert Heq. unfold escapeOf.
    destruct (nibbles b) as (Hh & Hl & Hbq); [lia|].
    destruct (nibbles b') as (Hh' & Hl' & Hbq'); [lia|].
    pose proof (hexByte_plain (Z.shiftr b 4)) as [_ Hx].
    destruct (bool_decide (b ∈ [92; 34])) eqn:E1;
      [apply bool_decide_eq_true in E1;
       apply list_elem_of_In in E1; cbn in E1;
       destruct E1 as [<-|[<-|[]]]|];
    (destruct (bool_decide (b' ∈ [92; 34])) eqn:E1';
      [apply bool_decide_eq_true in E1';
       apply list_elem_of_In in E1'; cbn in E1';
       destruct E1' as [<-|[<-|[]]]|]).
    all: repeat match goal with
         | |- context [?x =? ?y] =>
           destruct (Z.eqb_spec x y); try subst b; try subst b'
         end.
    all: cbn; try (intros [= ?]; done); try (intros [= ->]; done);
         try by intros [= ->].
    intros [= H1 H2 ->].
    apply hexByte_inj in H1, H2; try done. split; [lia|done].
Qed.

Lemma escaped_ascii n : ∀ s,
  (length s ≤ n)%nat → Forall (λ b, 0 ≤ b < 128) s →
  escaped n s = concat (asciiToken <$> s).
Proof.
  induction n as [|n IH]; intros [|b s] Hn Hs; cbn in *; try done; try lia.
  apply Forall_cons_1 in Hs as [Hb Hs].
  assert ((b <? 128) = true) as -> by lia.
  rewrite IH by (done || lia). done.
Qed.

Lemma tokens_inj s : ∀ s',
  Forall (λ b, 0 ≤ b < 128) s → Forall (λ b, 0 ≤ b < 128) s' →
  concat (asciiToken <$> s) = concat (asciiToken <$> s') → s = s'.
Proof.
  assert (∀ b r, asciiToken b ++ r ≠ []) as Hne.
  { intros b r. unfold asciiToken. by destruct (htmlSafeSet b). }
  induction s as [|b s IH]; intros [|b' s'] Hs Hs'; cbn; try done.
  - intros Heq. symmetry in Heq. by apply Hne in Heq.
  - intros Heq. by apply Hne in Heq.
  - apply Forall_cons_1 in Hs as [Hb Hs]. apply Forall_cons_1 in Hs' as [Hb' Hs'].
    intros [-> Heq]%asciiToken_inj; [|done..]. f_equal. by apply IH.
Qed.

(** A filter of ASCII characters can be read back from its JSON. *)
Lemma jsonString_ascii_inj s s' :
  Forall (λ b, b < 128) (bytesOf s) → Forall (λ b, b < 128) (bytesOf s') →
  jsonString s = jsonString s' → s = s'.
Proof.
  intros Hs Hs'. unfold jsonString. intros [= Heq]. apply app_inv_tail in Heq.
  assert (∀ t, Forall (λ b, b < 128) (bytesOf t) →
               Forall (λ b, 0 ≤ b < 128) (bytesOf t)) as Hrange.
  { intros t Ht. unfold bytesOf in *. rewrite Forall_fmap in Ht |- *.
    eapply Forall_impl; [exact Ht|]. intros a Ha. cbn in *.
    pose proof (byteOf_range a). unfold byteOf in *. lia. }
  rewrite !escaped_ascii in Heq by (rewrite ?length_bytesOf; auto).
  apply bytesOf_inj, tokens_inj; auto.
Qed.

(** *** The serializer *)

Variable encodeValue : Value → Result (list Z).

Lemma json_Marshal_Ok l :
  (∃ data, json_Marshal encodeValue l = Ok data)
  ↔ (∃ queryParams, encodeAny encodeValue (QueryParams l) = Ok queryParams).
Proof.
  unfold json_Marshal.
  destruct (encodeAny encodeValue (QueryParams l)) as [q|e].
  - split; intros _; by eexists.
  - split; intros [? ?]; done.
Qed.

(** The serialization holds every field: two options with the same
    serialization have the same page window, or both none, the same page
    size, filters that read the same as JSON, and query parameters with
    the same serialization. *)
Lemma json_Marshal_inj l l' data :
  json_Marshal encodeValue l = Ok data →
  json_Marshal encodeValue l' = Ok data →
  pageOptions l = pageOptions l'
  ∧ PageSize l = PageSize l'
  ∧ jsonString (Filter l) = jsonString (Filter l')
  ∧ encodeAny encodeValue (QueryParams l)
    = encodeAny encodeValue (QueryParams l').
Proof.
  unfold json_Marshal.
  destruct (encodeAny encodeValue (QueryParams l)) as [q|]; [|done].
  destruct (encodeAny encodeValue (QueryParams l')) as [q'|]; [|done].
  intros <-%Ok_inj Heq%Ok_inj. apply app_inv_head in Heq.
  assert (∀ (r r' : list Z) ps ps' f f',
            fieldName "page_size" ++ jsonInt ps ++ bytesOf "," ++ fieldName "filter"
              ++ jsonString f ++ bytesOf "," ++ fieldName "QueryParams" ++ r ++ bytesOf "}"
            = fieldName "page_size" ++ jsonInt ps' ++ bytesOf "," ++ fieldName "filter"
              ++ jsonString f' ++ bytesOf "," ++ fieldName "QueryParams" ++ r' ++ bytesOf "}" →
            ps = ps' ∧ jsonString f = jsonString f' ∧ r = r') as Htail.
  { intros r r' ps ps' f f' H1. apply app_inv_head in H1.
    apply jsonInt_comma_inj in H1 as [-> H1]. apply app_inv_head in H1.
    apply jsonString_inj in H1 as [-> H1]. apply app_inv_head in H1.
    apply app_inv_head in H1. apply app_inv_tail in H1. done. }
  destruct (pageOptions l) as [[p ps rs]|], (pageOptions l') as [[p' ps' rs']|];
    cbn [Page Pages Results] in Heq.
  - rewrite <-!app_assoc in Heq.
    apply app_inv_head in Heq. apply jsonInt_comma_inj in Heq as [-> Heq].
    apply app_inv_head in Heq. apply jsonInt_comma_inj in Heq as [-> Heq].
    apply app_inv_head in Heq. apply jsonInt_comma_inj in Heq as [-> Heq].
    destruct (Htail _ _ _ _ _ _ Heq) as (-> & -> & ->). done.
  - by cbn in Heq.
  - by cbn in Heq.
  - cbn [app] in Heq.
    destruct (Htail _ _ _ _ _ _ Heq) as (-> & -> & ->). done.
Qed.

Lemma json_Marshal_Err l :
  (∃ cause, json_Marshal encodeValue l = Err cause)
  ↔ ∃ v cause, QueryParams l = Some v ∧ encodeValue v = Err cause.
Proof.
  unfold json_Marshal, encodeAny.
  destruct (QueryParams l) as [v|].
  - destruct (encodeValue v) as [q|e] eqn:E.
    + split; [by intros [? ?]|]. intros (v' & e & [= <-] & He). congruence.
    + split; [|by eexists]. intros _. by exists v, e.
  - split; [by intros [? ?]|]. by intros (? & ? & ? & _).
Qed.

(** C6. Two options with the same serialization have the same hash. A
    hash is the 64 lower-case hexadecimal digits that spell, two a
    byte, the 32 bytes SHA-256 makes of the serialization. Hashing fails
    exactly when serializing does, with an error that wraps the one of
    the serializer, and serializing fails exactly when [QueryParams]
    holds a value the encoder refuses. The serialization is of the full
    value: from it one reads back the page window (or that there is
    none), the page size, the filter as JSON (the filter itself when it
    is ASCII) and the JSON of [QueryParams]. Two known answers fix the
    whole chain, serializer, SHA-256 and hexadecimal digits. *)
Theorem Hash_deterministic_and_well_formed :
  (∀ l1 l2, json_Marshal encodeValue l1 = json_Marshal encodeValue l2 →
            Hash (json_Marshal encodeValue) l1
            = Hash (json_Marshal encodeValue) l2)
  ∧ (∀ l s, Hash (json_Marshal encodeValue) l = Ok s →
       ∃ data, json_Marshal encodeValue l = Ok data
               ∧ s = Sprintf_x (sha256.Sum data)
               ∧ length (sha256.Sum data) = 32%nat
               ∧ Forall (λ b, 0 ≤ b < 256) (sha256.Sum data)
               ∧ String.length s = 64%nat
               ∧ string_forallb isLowerHex s = true
               ∧ hexDecode s = Some (sha256.Sum data))
  ∧ (∀ l, (∃ e, Hash (json_Marshal encodeValue) l = Err e)
          ↔ (∃ cause, json_Marshal encodeValue l = Err cause))
  ∧ (∀ l e, Hash (json_Marshal encodeValue) l = Err e →
       ∃ cause, json_Marshal encodeValue l = Err cause
                ∧ e = Errorf_w "failed to cache ListOptions: " cause
                ∧ Unwrap e = Some cause)
  ∧ (∀ l, (∃ cause, json_Marshal encodeValue l = Err cause)
          ↔ ∃ v cause, QueryParams l = Some v ∧ encodeValue v = Err cause)
  ∧ (∀ l l' data,
       json_Marshal encodeValue l = Ok data →
       json_Marshal encodeValue l' = Ok data →
       pageOptions l = pageOptions l'
       ∧ PageSize l = PageSize l'
       ∧ jsonString (Filter l) = jsonString (Filter l')
       ∧ encodeAny encodeValue (QueryParams l)
         = encodeAny encodeValue (QueryParams l')
       ∧ (Forall (λ b, b < 128) (bytesOf (Filter l)) →
          Forall (λ b, b < 128) (bytesOf (Filter l')) →
          Filter l = Filter l'))
  ∧ Hash (json_Marshal encodeValue) (NewListOptions 0 "")
    = Ok "53bff75e4b78b8d728b0fd4c13cc2bddd207d096ab184f77d50807bfedf85ebc"
  ∧ Hash (json_Marshal encodeValue) hashed_options
    = Ok "fc506e24ccbe77a2bc6e29674ce582b553d9215dd6e95fb8b56ed5b25a07f63e".
Proof.
  split; [unfold Hash; by intros l1 l2 ->|]. split.
  { intros l s. unfold Hash.
    destruct (json_Marshal encodeValue l) as [data|]; [|done].
    intros <-%Ok_inj. exists data. split; [done|]. split; [done|].
    split; [apply length_Sum|]. split; [apply Sum_range|].
    split; [by rewrite length_Sprintf_x, length_Sum|].
    split; [apply Sprintf_x_lower|apply hexDecode_Sprintf_x, Sum_range]. }
  split.
  { intros l. unfold Hash.
    destruct (json_Marshal encodeValue l) as [data|cause].
    - split; intros [? ?]; done.
    - split; intros _; by eexists. }
  split.
  { intros l e. unfold Hash.
    destruct (json_Marshal encodeValue l) as [data|cause]; [done|].
    intros <-%Err_inj. by exists cause. }
  split; [apply json_Marshal_Err|]. split.
  { intros l l' data Hl Hl'.
    destruct (json_Marshal_inj l l' data Hl Hl')
      as (Hw & Hs & Hf & Hq).
    repeat (split; [done|]). intros Ha Ha'. by apply jsonString_ascii_inj. }
  split; by vm_compute.
Qed.

End HashFacts.

(** ** A pager at work *)

(** The pager of a resource gathers in [Data]. *)
Lemma Paged_castResult_Ok {T} (pg : Paged T) req url pg' r :
  castResult pg req url = (pg', Ok r) →
  Data pg'
  = Data pg ++ match remote pg req url with
               | Ok body => body_Data body
               | Err _ => []
               end.
Proof.
  cbn. destruct (remote pg req url) as [body|e]; [|done]. by intros [= <- _].
Qed.

Lemma Paged_castResult_Err {T} (pg : Paged T) req url pg' e :
  castResult pg req url = (pg', Err e) → Data pg' = Data pg.
Proof.
  cbn. destruct (remote pg req url) as [body|e']; [done|]. by intros [= <- _].
Qed.

#[global] Instance Paged_Gathers (T : Type) : Gathers (Paged T) T := {|
  gathered := Data;
  decoded pg req url :=
    match remote pg req url with
    | Ok body => body_Data body
    | Err _ => []
    end;
  castResult_Ok := Paged_castResult_Ok;
  castResult_Err := Paged_castResult_Err
|}.

Example demo_run :
  listHelper 2 demo_client [] (Some 1%positive)
    (demo_state "linode/instances" (NewListOptions 0 ""))
  = Some (None, demo_fetched).
Proof. reflexivity. Qed.

(** [NewListOptions(2, "")] fetches page 2 and nothing else. *)
Example page_two_scenario :
  listHelper 1 demo_client [] (Some 1%positive)
    (demo_state "linode/instances" (NewListOptions 2 ""))
  = Some (None,
          {| heap := {[1%positive :=
                         {| pageOptions :=
                              Some {| Page := 2; Pages := 3; Results := 6 |};
                            PageSize := 0; Filter := ""; QueryParams := None |}]};
             pager := demo_pager "linode/instances" [21; 22];
             requests := [(demo_request "2", "linode/instances")] |}).
Proof. reflexivity. Qed.

Example demo_run_askew :
  listHelper 2 demo_client [] (Some 1%positive)
    (demo_state "linode/instances" page_options)
  = Some (None, demo_fetched_askew).
Proof. reflexivity. Qed.

(** With a [page] among the query parameters of the caller's own, the
    first request asks for that page: here 3, then 2 and 3. *)
Lemma page_one_first_counterexample : ¬ page_one_first_claim.
Proof.
  intros Hclaim.
  destruct (Hclaim (Paged Z) _ 2%nat demo_client [] 1%positive page_options
              (demo_state "linode/instances" page_options) demo_fetched_askew)
    as (req & pages & sent & Hreqs & Hsent & Hfirst & _);
    [reflexivity|reflexivity|by left|reflexivity|].
  cbn in Hreqs. subst sent. cbn in Hsent. injection Hsent as <- _.
  vm_compute in Hfirst. by destruct Hfirst.
Qed.

(** The three pages, fetched one after the other. *)
Lemma listHelper_fetches_every_page_witness :
  let c := demo_client in
  let l := 1%positive in
  let o := NewListOptions 0 "" in
  let st := demo_state "linode/instances" o in
  let st' := demo_fetched in
  (heap st !! l = Some o
   ∧ (pageOptions o = None ∨ Page <$> pageOptions o = Some 0)
   ∧ listHelper 2 c [] (Some l) st = Some (None, st'))
  ∧ ∃ req pages results sent totals,
      applyListOptionsToRequest (Some o) (R c) = (req, None)
      ∧ (QueryParam (R c) !! "page" = None → setsNoPage o →
         QueryParam req !! "page" = None)
      ∧ requests st' = requests st ++ sent
      ∧ sent.*1 = req :: (pageRequest c o <$> seqZ 2 (pages - 1))
      ∧ length sent = Z.to_nat (Z.max 1 pages)
      ∧ (∀ k, 2 ≤ k ≤ pages →
           QueryParam (pageRequest c o k) !! "page" = Some [Itoa k])
      ∧ replay [] (pager st) sent.*1
        = (pager st', Ok <$> (pages, results) :: totals)
      ∧ gathered (pager st')
        = gathered (pager st) ++ concat (decodedAll [] (pager st) sent.*1)
      ∧ (pages ≤ 1 → sent = [(req, endpoint (pager st) [])]).
Proof.
  intros c l o st st'.
  assert (heap st !! l = Some o) as H1 by reflexivity.
  assert (pageOptions o = None ∨ Page <$> pageOptions o = Some 0) as H2
    by (right; reflexivity).
  assert (listHelper 2 c [] (Some l) st = Some (None, st')) as H3
    by reflexivity.
  split; [by repeat split|].
  exact (listHelper_fetches_every_page 2 c [] l o st st' H1 H2 H3).
Defined.

(** The third page of the demo collection reports 7 results; the options
    end with the 6 of the first. *)
Lemma totals_of_last_page_counterexample : ¬ totals_of_last_page_claim.
Proof.
  intros Hclaim.
  destruct (Hclaim (Paged Z) _ 2%nat demo_client [] 1%positive
              (NewListOptions 0 "")
              (demo_state "linode/instances" (NewListOptions 0 ""))
              demo_fetched (requests demo_fetched) [(3, 6); (3, 6); (3, 7)])
    as (o' & po' & Ho' & Hpo' & Hlast);
    [reflexivity|right; reflexivity|reflexivity|reflexivity|reflexivity|].
  vm_compute in Ho'. injection Ho' as <-.
  cbn in Hpo'. injection Hpo' as <-.
  cbn in Hlast. discriminate Hlast.
Qed.

Lemma listHelper_writes_first_totals_witness :
  let c := demo_client in
  let l := 1%positive in
  let o := NewListOptions 0 "" in
  let st := demo_state "linode/instances" o in
  let st' := demo_fetched in
  (heap st !! l = Some o
   ∧ (pageOptions o = None ∨ Page <$> pageOptions o = Some 0)
   ∧ listHelper 2 c [] (Some l) st = Some (None, st'))
  ∧ ∃ pages results sent totals,
      requests st' = requests st ++ sent
      ∧ replay [] (pager st) sent.*1
        = (pager st', Ok <$> (pages, results) :: totals)
      ∧ heap st'
        = <[l := setPageOptions
                   {| Page := if decide (2 ≤ pages) then pages else 0;
                      Pages := pages; Results := results |} o]> (heap st).
Proof.
  intros c l o st st'.
  assert (heap st !! l = Some o) as H1 by reflexivity.
  assert (pageOptions o = None ∨ Page <$> pageOptions o = Some 0) as H2
    by (right; reflexivity).
  assert (listHelper 2 c [] (Some l) st = Some (None, st')) as H3
    by reflexivity.
  split; [by repeat split|].
  exact (listHelper_writes_first_totals 2 c [] l o st st' H1 H2 H3).
Defined.

Lemma listHelper_leaves_last_page_witness :
  let c := demo_client in
  let l := 1%positive in
  let o := NewListOptions 0 "" in
  let st := demo_state "linode/instances" o in
  let st' := demo_fetched in
  (heap st !! l = Some o
   ∧ (pageOptions o = None ∨ Page <$> pageOptions o = Some 0)
   ∧ listHelper 2 c [] (Some l) st = Some (None, st')
   ∧ (castResult (pager st) (requestOf c o) (endpoint (pager st) [])).2
     = Ok (3, 6)
   ∧ 2 ≤ 3)
  ∧ (∃ o', heap st' !! l = Some o' ∧ Page <$> pageOptions o' = Some 3)
  ∧ ∃ req,
      QueryParam req !! "page" = Some [Itoa 3]
      ∧ ∀ fuel', ∃ err st'',
          listHelper (S fuel') c [] (Some l) st' = Some (err, st'')
          ∧ requests st'' = requests st' ++ [(req, endpoint (pager st') [])].
Proof.
  intros c l o st st'.
  assert (heap st !! l = Some o) as H1 by reflexivity.
  assert (pageOptions o = None ∨ Page <$> pageOptions o = Some 0) as H2
    by (right; reflexivity).
  assert (listHelper 2 c [] (Some l) st = Some (None, st')) as H3
    by reflexivity.
  assert ((castResult (pager st) (requestOf c o) (endpoint (pager st) [])).2
          = Ok (3, 6)) as H4 by reflexivity.
  assert (2 ≤ 3) as H5 by lia.
  split; [by repeat split|].
  exact (listHelper_leaves_last_page 2 c [] l o st st' 3 6 H1 H2 H3 H4 H5).
Defined.

Example bad_options_do_not_apply :
  applyListOptionsToRequest (Some bad_options) (R demo_client)
  = (R demo_client,
     Some (Errorf_w "failed to apply list options: "
             (Errorf "unsupported query param type: float64"))).
Proof. reflexivity. Qed.

(** With query parameters that cannot be flattened no request is made. *)
Lemma single_page_counterexample : ¬ single_page_claim.
Proof.
  intros Hclaim.
  destruct (Hclaim (Paged Z) _ 1%nat demo_client [] 1%positive bad_options
              (newPageOptions 2) (demo_state "linode/instances" bad_options))
    as (err & st' & req & Hrun & Hreqs & _); [reflexivity|reflexivity|done|].
  assert (listHelper 2 demo_client [] (Some 1%positive)
            (demo_state "linode/instances" bad_options)
          = Some (Some (Errorf_w "failed to apply list options: "
                          (Errorf "unsupported query param type: float64")),
                  demo_state "linode/instances" bad_options)) as Hrun'
    by reflexivity.
  pose proof (eq_trans (eq_sym Hrun) Hrun') as Heq.
  injection Heq as _ ->. discriminate Hreqs.
Qed.

Lemma listHelper_single_page_witness :
  let c := demo_client in
  let l := 1%positive in
  let o := NewListOptions 2 "" in
  let po := newPageOptions 2 in
  let st := demo_state "linode/instances" o in
  (heap st !! l = Some o ∧ pageOptions o = Some po ∧ 0 < Page po ∧ applies o)
  ∧ ∃ req,
      applyListOptionsToRequest (Some o) (R c) = (req, None)
      ∧ QueryParam req !! "page" = Some [Itoa (Page po)]
      ∧ ∀ fuel,
          listHelper (S fuel) c [] (Some l) st
          = let url := endpoint (pager st) [] in
            match castResult (pager st) req url with
            | (pg', Err err) =>
              Some (Some err,
                    {| heap := heap st; pager := pg';
                       requests := requests st ++ [(req, url)] |})
            | (pg', Ok (pages, results)) =>
              Some (None,
                    {| heap := <[l := setTotals results pages o]> (heap st);
                       pager := pg';
                       requests := requests st ++ [(req, url)] |})
            end.
Proof.
  intros c l o po st.
  assert (heap st !! l = Some o) as H1 by reflexivity.
  assert (pageOptions o = Some po) as H2 by reflexivity.
  assert (0 < Page po) as H3 by (cbn; lia).
  assert (applies o) as H4 by (left; reflexivity).
  split; [by repeat split|].
  exact (proj1 (listHelper_single_page c [] l o po st H1 H2 H3) H4).
Defined.

(** With query parameters that cannot be flattened the header is not
    set. *)
Lemma filter_header_counterexample : ¬ filter_header_claim.
Proof.
  intros Hclaim.
  destruct (Hclaim bad_options (R demo_client)) as [Hset _].
  specialize (Hset ltac:(done)). vm_compute in Hset. discriminate Hset.
Qed.

Lemma filter_goes_to_header_witness :
  let o := NewListOptions 0 "label:myserver" in
  let req := R demo_client in
  applies o
  ∧ ∃ req',
      applyListOptionsToRequest (Some o) req = (req', None)
      ∧ (Filter o ≠ "" → Header req' = <["X-Filter" := [Filter o]]> (Header req))
      ∧ (Filter o = "" → Header req' = Header req)
      ∧ QueryParam req'
        = QueryParam (applyListOptionsToRequest (Some (withFilter "" o)) req).1.
Proof.
  intros o req.
  assert (applies o) as H1 by (left; reflexivity).
  split; [done|]. exact (proj1 (filter_goes_to_header o req) H1).
Defined.

(** The scenario of the specification: the filter is in the header and
    the query string is empty. *)
Example filter_scenario :
  applyListOptionsToRequest
    (Some {| pageOptions := None; PageSize := 0; Filter := "label:myserver";
             QueryParams := None |})
    (R demo_client)
  = ({| QueryParam := ∅; Header := {["X-Filter" := ["label:myserver"]]} |},
     None).
Proof. reflexivity. Qed.

Lemma listHelper_aborts_on_error_witness :
  let c := demo_client in
  let l := 1%positive in
  let o := NewListOptions 0 "" in
  let st := demo_state "flaky" o in
  let e := errorString "502 Bad Gateway" in
  (heap st !! l = Some o ∧ applies o)
  ∧ (∃ st' sent,
       listHelper 2 c [] (Some l) st = Some (Some e, st')
       ∧ st' = demo_aborted
       ∧ requests st' = requests st ++ sent
       ∧ sent.*1 = requestOf c o :: (pageRequest c o <$> seqZ 2 (3 - 1))
       ∧ gathered (pager st')
         = gathered (pager st) ++ concat (decodedAll [] (pager st) sent.*1))
  ∧ (∃ st' sent,
       listHelper 2 c [] None st = Some (Some e, st')
       ∧ requests st' = requests st ++ sent
       ∧ sent.*1 = R c :: (pageRequest c defaultOptions <$> seqZ 2 (3 - 1))
       ∧ gathered (pager st') = [11; 12; 21; 22]
       ∧ heap st' !! l = Some o
       ∧ heap st' !! 2%positive
         = Some (setPageOptions {| Page := 3; Pages := 3; Results := 6 |}
                                defaultOptions)).
Proof.
  intros c l o st e.
  assert (heap st !! l = Some o) as H1 by reflexivity.
  assert (pageOptions o = None ∨ Page <$> pageOptions o = Some 0) as H2
    by (right; reflexivity).
  assert (applies o) as H3 by (left; reflexivity).
  split; [by split|].
  destruct (listHelper_aborts_on_error 0 c [] st) as (Hopts & _ & Hnil).
  destruct (Hopts l o H1 H3) as [_ Hlater].
  split.
  - destruct (Hlater (demo_pager "flaky" [11; 12]) 3 6 3
                (demo_pager "flaky" [11; 12; 21; 22]) [(3, 6)]
                (demo_pager "flaky" [11; 12; 21; 22]) e)
      as (st' & sent & Hrun & Hreqs & Hsent & Hpg & Hdata & Hheap);
      [exact H2|reflexivity|lia|reflexivity|reflexivity|].
    exists st', sent. split; [exact Hrun|].
    split.
    { assert (listHelper 2 c [] (Some l) st = Some (Some e, demo_aborted))
        as Hrun' by reflexivity.
      pose proof (eq_trans (eq_sym Hrun) Hrun') as Heq. by injection Heq. }
    split; [exact Hreqs|]. split; [exact Hsent|]. by rewrite Hpg.
  - destruct (Hnil (demo_pager "flaky" [11; 12]) 3 6 3
                (demo_pager "flaky" [11; 12; 21; 22]) [(3, 6)]
                (demo_pager "flaky" [11; 12; 21; 22]) e)
      as (st' & sent & Hrun & Hreqs & Hsent & Hpg & Hdata & Hheap & Hkept);
      [reflexivity|lia|reflexivity|reflexivity|].
    exists st', sent. split; [exact Hrun|].
    split; [exact Hreqs|]. split; [exact Hsent|].
    split; [by rewrite Hpg|]. split; [by apply Hkept|].
    rewrite Hheap. reflexivity.
Defined.

Lemma listHelper_nil_options_are_local_witness :
  let c := demo_client in
  let st := demo_state "linode/instances" (NewListOptions 1 "mine") in
  let st' := demo_fetched_nil in
  listHelper 2 c [] None st = Some (None, st')
  ∧ (∀ l o, heap st !! l = Some o → heap st' !! l = Some o)
  ∧ (@None error = None →
     ∃ l pages results sent totals,
       heap st !! l = None
       ∧ heap st'
         = <[l := setPageOptions
                    {| Page := if decide (2 ≤ pages) then pages else 0;
                       Pages := pages; Results := results |}
                    defaultOptions]> (heap st)
       ∧ requests st' = requests st ++ sent
       ∧ sent.*1 = R c :: (pageRequest c defaultOptions <$> seqZ 2 (pages - 1))
       ∧ replay [] (pager st) sent.*1
         = (pager st', Ok <$> (pages, results) :: totals)).
Proof.
  intros c st st'.
  assert (listHelper 2 c [] None st = Some (None, st')) as H1 by reflexivity.
  split; [done|].
  exact (listHelper_nil_options_are_local 2 c [] st None st' H1).
Defined.

Example demo_fields_flattened :
  flattenQueryStruct (Some (VPointer "" (Some (VStruct "Params" demo_fields))))
  = Ok {["limit" := "0"; "size" := "512"; "active" := "true"]}.
Proof. by vm_compute. Qed.

(** A pointer field that points to 0 is sent, as [0]. *)
Lemma zero_never_sent_counterexample : ¬ zero_never_sent_claim.
Proof.
  intros Hclaim.
  pose (f := {| Name := "Limit"; Tag := [("query", "limit")] |}).
  pose (v := VPointer "" (Some (VInt KInt "int" 0))).
  destruct (Hclaim (VStruct "Params" [(f, v)]) [(f, v)] f v "limit"
              {["limit" := "0"]}) as (_ & Hzero & _);
    [reflexivity| |by left|reflexivity|by vm_compute|].
  { split; cbn; apply NoDup_singleton. }
  specialize (Hzero eq_refl). vm_compute in Hzero. discriminate Hzero.
Qed.

Lemma flatten_omits_zero_fields_witness :
  let val := VPointer "" (Some (VStruct "Params" demo_fields)) in
  let f := {| Name := "Label"; Tag := [("query", "label")] |} in
  let v := VString "string" "" in
  (recordOf val = Some demo_fields
   ∧ wellFormed demo_fields
   ∧ (∀ f v t, (f, v) ∈ demo_fields → Lookup (Tag f) "query" = Some t →
               IsZero v = false → supported (Kind (Indirect v)) = true)
   ∧ (f, v) ∈ demo_fields
   ∧ Lookup (Tag f) "query" = Some "label")
  ∧ ∃ m, flattenQueryStruct (Some val) = Ok m
         ∧ (IsZero v = true → m !! "label" = None)
         ∧ (IsZero v = false →
            ∃ s, queryFieldToString (Indirect v) = Ok s
                 ∧ m !! "label" = Some s).
Proof.
  intros val f v.
  assert (recordOf val = Some demo_fields) as H1 by reflexivity.
  assert (wellFormed demo_fields) as H2.
  { split; apply (bool_decide_unpack _); by vm_compute. }
  assert (∀ f v t, (f, v) ∈ demo_fields → Lookup (Tag f) "query" = Some t →
                   IsZero v = false → supported (Kind (Indirect v)) = true)
    as H3.
  { intros f' v' t' Hin Ht Hz. apply list_elem_of_In in Hin. simpl in Hin.
    destruct Hin as [E|[E|[E|[E|[E|[]]]]]];
      injection E as <- <-; (reflexivity || discriminate). }
  assert ((f, v) ∈ demo_fields) as H4 by (right; left).
  assert (Lookup (Tag f) "query" = Some "label") as H5 by reflexivity.
  split; [exact (conj H1 (conj H2 (conj H3 (conj H4 H5))))|].
  exact (flatten_omits_zero_fields val demo_fields f v "label" H1 H2 H3 H4 H5).
Defined.

(** An [int16] is refused. *)
Lemma any_integer_width_counterexample : ¬ any_integer_width_claim.
Proof.
  intros Hclaim. specialize (Hclaim KInt16 "int16" 7). discriminate Hclaim.
Qed.

Example nil_pointer_fails :
  flattenQueryStruct (Some (VPointer "" None))
  = Err (Errorf "QueryParams is a nil pointer").
Proof. reflexivity. Qed.

Example int_is_no_struct :
  flattenQueryStruct (Some (VInt KInt "int" 5))
  = Err (Errorf "expected struct type for the QueryParams but got: int").
Proof. reflexivity. Qed.

Example int16_field_fails :
  flattenQueryStruct
    (Some (VStruct "Params"
             [({| Name := "Port"; Tag := [("query", "port")] |},
               VInt KInt16 "int16" 7)]))
  = Err (Errorf "unsupported query param type: int16").
Proof. reflexivity. Qed.

Example FormatInt10_samples :
  FormatInt10 0 = "0" ∧ FormatInt10 512 = "512" ∧ FormatInt10 (-40) = "-40"
  ∧ FormatInt10 9223372036854775807 = "9223372036854775807"
  ∧ FormatInt10 (-9223372036854775808) = "-9223372036854775808".
Proof. by vm_compute. Qed.

(** * Further properties *)

(** ** Applying the options *)

Section ApplyFacts.
Implicit Types (o : ListOptions) (req : Request).

Lemma apply_Ok o req :
  applies o →
  applyListOptionsToRequest (Some o) req
  = (let req := {| QueryParam := extraParams o ∪ QueryParam req;
                   Header := Header req |} in
     let req :=
       match pageOptions o with
       | Some po =>
         if 0 <? Page po then SetQueryParam "page" (Itoa (Page po)) req
         else req
       | None => req
       end in
     let req :=
       if 0 <? PageSize o
       then SetQueryParam "page_size" (Itoa (PageSize o)) req
       else req in
     if (0 <? String.length (Filter o))%nat
     then SetHeader "X-Filter" (Filter o) req
     else req, None).
Proof.
  intros Happ. unfold applyListOptionsToRequest, extraParams.
  destruct (QueryParams o) as [v|] eqn:Eq.
  - destruct Happ as [?|[params Hp]]; [congruence|]. rewrite Eq in Hp.
    by rewrite Hp.
  - rewrite (left_id_L ∅ (∪)). by destruct req.
Qed.

Lemma apply_QueryParam o req :
  applies o →
  QueryParam (applyListOptionsToRequest (Some o) req).1
  = standardParams o ∪ extraParams o ∪ QueryParam req.
Proof.
  intros Happ. rewrite (apply_Ok o req Happ). cbn [fst]. unfold standardParams.
  rewrite <-!(assoc_L (∪)).
  destruct (0 <? String.length (Filter o))%nat; cbn [SetHeader QueryParam];
    (destruct (0 <? PageSize o); cbn [SetQueryParam QueryParam];
     [rewrite insert_union_singleton_l; f_equal|rewrite (left_id_L ∅ (∪))];
     (destruct (pageOptions o) as [po|]; [destruct (0 <? Page po)|];
      cbn [SetQueryParam QueryParam];
      rewrite ?insert_union_singleton_l, ?(left_id_L ∅ (∪)); done)).
Qed.

Lemma apply_Header o req :
  applies o →
  Header (applyListOptionsToRequest (Some o) req).1
  = if (0 <? String.length (Filter o))%nat
    then <["X-Filter" := [Filter o]]> (Header req) else Header req.
Proof.
  intros Happ. rewrite (apply_Ok o req Happ). cbn [fst].
  destruct (0 <? String.length (Filter o))%nat; cbn [SetHeader Header];
    destruct (0 <? PageSize o);
    (destruct (pageOptions o) as [po|]; [destruct (0 <? Page po)|]); done.
Qed.

Lemma Request_eq (r r' : Request) :
  QueryParam r = QueryParam r' → Header r = Header r' → r = r'.
Proof. destruct r, r'; cbn; congruence. Qed.

(** X1. What options that apply make of a request, in one equation. The
    query parameters are merged by precedence: the options' own [page]
    and [page_size] (each only when positive) override the caller's
    flattened parameters, which override what the request already had.
    The filter, when not empty, replaces the header [X-Filter]; no other
    header changes. *)
Theorem standard_fields_override_query_params o req :
  applies o →
  applyListOptionsToRequest (Some o) req
  = ({| QueryParam := standardParams o ∪ extraParams o ∪ QueryParam req;
        Header := if (0 <? String.length (Filter o))%nat
                  then <["X-Filter" := [Filter o]]> (Header req)
                  else Header req |}, None).
Proof.
  intros Happ.
  pose proof (apply_QueryParam o req Happ) as Hq.
  pose proof (apply_Header o req Happ) as Hh.
  pose proof (proj1 (applies_no_error o req) Happ) as He.
  destruct (applyListOptionsToRequest (Some o) req) as [req' err].
  cbn [fst snd] in *. subst err. f_equal. by apply Request_eq.
Qed.

Lemma apply_error_fixed o req :
  ¬ applies o →
  ∃ err, ∀ req', applyListOptionsToRequest (Some o) req' = (req', Some err).
Proof.
  intros Hna. unfold applyListOptionsToRequest.
  destruct (QueryParams o) as [v|] eqn:Eq; [|destruct Hna; by left].
  destruct (flattenQueryStruct (Some v)) as [m|e] eqn:Ef.
  - destruct Hna. right. rewrite Eq. by exists m.
  - by eexists.
Qed.

Lemma applies_dec o : applies o ∨ ¬ applies o.
Proof.
  unfold applies. destruct (QueryParams o) as [v|]; [|by left; left].
  destruct (flattenQueryStruct (Some v)) as [m|e].
  - left. right. by exists m.
  - right. by intros [?|[? ?]].
Qed.

(** X2. Applying the same options a second time changes nothing: the
    request and the error are those of the first time. *)
Theorem applyListOptionsToRequest_idempotent (opts : option ListOptions) req :
  applyListOptionsToRequest opts (applyListOptionsToRequest opts req).1
  = applyListOptionsToRequest opts req.
Proof.
  destruct opts as [o|]; [|done].
  destruct (applies_dec o) as [Happ|Hna].
  2:{ destruct (apply_error_fixed o req Hna) as [err Herr]. by rewrite !Herr. }
  pose proof (proj1 (applies_no_error o req) Happ) as He.
  pose proof (proj1 (applies_no_error o (applyListOptionsToRequest (Some o) req).1)
                Happ) as He'.
  apply injective_projections; [|congruence].
  apply Request_eq.
  - rewrite !apply_QueryParam by done.
    rewrite (assoc_L (∪) (standardParams o ∪ extraParams o)).
    by rewrite (idemp_L (∪)).
  - rewrite !apply_Header by done.
    destruct (0 <? String.length (Filter o))%nat; [|done].
    by rewrite insert_insert_eq.
Qed.
End ApplyFacts.

(** ** What a call leaves as it was *)

Section ListHelperFrame.
Context {P : Type} `{PagedResponse P}.

Lemma withWindow_id o : withWindow (pageOptions o) o = o.
Proof. by destruct o. Qed.

Lemma withWindow_ensure w o : withWindow w (ensurePageOptions o) = withWindow w o.
Proof. unfold ensurePageOptions. by destruct (pageOptions o). Qed.

Lemma walk_opts_window c ids ks : ∀ o pg,
  ∃ w, w_opts (walk c ids o ks pg) = withWindow w o.
Proof.
  induction ks as [|k ks IH]; intros o pg; cbn [walk].
  { exists (pageOptions o). cbn. by rewrite withWindow_id. }
  destruct (castResult pg _ _) as [pg' [[pages results]|e]]; cbn.
  - destruct (IH (setTotals results pages (setPage k o)) pg') as [w ->].
    by exists w.
  - by eexists.
Qed.

Lemma walk_sent_window c ids ks : ∀ o pg,
  Forall (λ rq, ∃ w, rq.1 = requestOf c (withWindow w o))
         (w_sent (walk c ids o ks pg)).
Proof.
  induction ks as [|k ks IH]; intros o pg; cbn [walk]; [done|].
  destruct (castResult pg _ _) as [pg' [[pages results]|e]]; cbn.
  - constructor; [by eexists|].
    eapply Forall_impl; [apply IH|]. intros rq [w ->]. by exists w.
  - constructor; [by eexists|done].
Qed.

(** What any call through a pointer does to the state: it adds requests
    to the log, each built from the options as they were given but for the
    page window, and it writes to the page window of the object. *)
Lemma listHelper_shape fuel c ids l o st r st' :
  heap st !! l = Some o →
  listHelper fuel c ids (Some l) st = Some (r, st') →
  ∃ sent w,
    requests st' = requests st ++ sent
    ∧ heap st' = <[l := withWindow w o]> (heap st)
    ∧ (sent = [] ∨ applies o)
    ∧ Forall (λ rq, ∃ w', rq.1 = requestOf c (withWindow w' o)) sent.
Proof.
  intros Hl Hrun.
  destruct fuel as [|fuel]; [done|].
  apply (listHelper_fuel_le _ (S (S fuel))) in Hrun; [|lia].
  destruct (applyListOptionsToRequest (Some o) (R c)) as [req0 [err|]] eqn:Ha.
  { rewrite (listHelper_apply_error _ _ _ _ _ _ _ _ Hl Ha) in Hrun.
    injection Hrun as <- <-. exists [], (pageOptions o).
    rewrite withWindow_id, insert_id, app_nil_r by done. auto. }
  assert ((applyListOptionsToRequest (Some o) (R c)).2 = None) as Ha'
    by by rewrite Ha.
  assert (applies o) as Happ by by apply (applies_no_error _ (R c)).
  rewrite (state_insert_id st l o Hl) in Hrun.
  assert (∀ w, <[l := withWindow w o]> (<[l := o]> (heap st))
               = <[l := withWindow w o]> (heap st)) as Hins
    by (intros; apply insert_insert_eq).
  destruct (pageOptions o) as [po|] eqn:Hpo;
    [destruct (decide (Page po = 0)) as [Hz|Hnz]|].
  2:{ rewrite (listHelper_single _ _ _ _ _ po) in Hrun by done.
      cbn zeta in Hrun.
      destruct (castResult _ _ _) as [pg' [[pages results]|e]];
        injection Hrun as <- <-; cbn [requests heap].
      - exists [(requestOf c o, endpoint (pager st) ids)],
          (pageOptions (setTotals results pages o)).
        split; [done|]. split; [done|].
        split; [by right|]. constructor; [|done].
        exists (pageOptions o). by rewrite withWindow_id.
      - exists [(requestOf c o, endpoint (pager st) ids)], (pageOptions o).
        split; [done|]. rewrite withWindow_id. split; [done|].
        split; [by right|]. constructor; [|done].
        exists (pageOptions o). by rewrite withWindow_id. }
  all: rewrite listHelper_all in Hrun
         by first [done|right; rewrite Hpo; cbn; by rewrite Hz|by left].
  all: cbn zeta in Hrun.
  all: destruct (castResult _ _ _) as [pg' [[pages results]|e]];
         injection Hrun as <- <-; cbn [requests heap].
  all: try (exists [(requestOf c o, endpoint (pager st) ids)], (pageOptions o);
            split; [done|]; rewrite withWindow_id;
            split; [done|];
            split; [by right|]; constructor; [|done];
            exists (pageOptions o); by rewrite withWindow_id).
  all: destruct (walk_opts_window c ids (seqZ 2 (pages - 1)) (ensurePageOptions o) pg')
         as [w Hw].
  all: pose proof (walk_sent_window c ids (seqZ 2 (pages - 1)) (ensurePageOptions o) pg')
         as Hs.
  all: rewrite withWindow_ensure in Hw.
  all: exists ((requestOf c o, endpoint (pager st) ids)
               :: w_sent (walk c ids (ensurePageOptions o) (seqZ 2 (pages - 1)) pg')),
         (match w_err (walk c ids (ensurePageOptions o) (seqZ 2 (pages - 1)) pg') with
          | None => pageOptions (setTotals results pages (withWindow w o))
          | Some _ => w
          end).
  all: split; [done|].
  all: split; [rewrite Hw; by destruct (w_err _)|].
  all: split; [by right|].
  all: constructor; [exists (pageOptions o); by rewrite withWindow_id|].
  all: eapply Forall_impl; [apply Hs|]; intros rq [w' ->]; exists w'.
  all: by rewrite withWindow_ensure.
Qed.

Lemma extraParams_withWindow w o : extraParams (withWindow w o) = extraParams o.
Proof. done. Qed.

Lemma standardParams_withWindow w o k :
  k ≠ "page" → standardParams (withWindow w o) !! k = standardParams o !! k.
Proof.
  intros Hk. unfold standardParams. cbn [withWindow PageSize pageOptions].
  rewrite !lookup_union. f_equal.
  transitivity (@None (list string)).
  - destruct w as [po|]; [destruct (0 <? Page po)|];
      by rewrite ?lookup_singleton_ne, ?lookup_empty.
  - destruct (pageOptions o) as [po|]; [destruct (0 <? Page po)|];
      by rewrite ?lookup_singleton_ne, ?lookup_empty.
Qed.

(** X3. All the requests one call sends, whatever page mode it runs in
    and however it ends, carry the same headers (the filter among them)
    and, but for [page], the same query parameters: the page size and the
    parameters of the caller's own go out with every page. *)
Theorem listHelper_requests_differ_in_page_only fuel c ids l o st r st' :
  heap st !! l = Some o →
  listHelper fuel c ids (Some l) st = Some (r, st') →
  ∃ sent,
    requests st' = requests st ++ sent
    ∧ ∀ req url, (req, url) ∈ sent →
        Header req
        = (if (0 <? String.length (Filter o))%nat
           then <["X-Filter" := [Filter o]]> (Header (R c))
           else Header (R c))
        ∧ ∀ k, k ≠ "page" →
            QueryParam req !! k
            = (standardParams o ∪ extraParams o ∪ QueryParam (R c)) !! k.
Proof.
  intros Hl Hrun.
  destruct (listHelper_shape _ _ _ _ _ _ _ _ Hl Hrun)
    as (sent & w & Hreqs & _ & Happ & Hsent).
  exists sent. split; [done|]. intros req url Hin.
  destruct Happ as [->|Happ]; [by apply elem_of_nil in Hin|].
  rewrite Forall_forall in Hsent.
  destruct (Hsent _ Hin) as [w' Hreq]. cbn [fst] in Hreq. subst req.
  unfold requestOf. split.
  - by rewrite apply_Header.
  - intros k Hk. rewrite apply_QueryParam by done.
    rewrite extraParams_withWindow, !lookup_union.
    by rewrite standardParams_withWindow.
Qed.

(** X4. A call through a pointer writes to page windows and to nothing
    else: every [ListOptions] object, the one the call is given among
    them, keeps its page size, its filter and its query parameters, and
    no object is made or lost. *)
Theorem listHelper_writes_only_the_page_window fuel c ids l o st r st' :
  heap st !! l = Some o →
  listHelper fuel c ids (Some l) st = Some (r, st') →
  (∀ l' o', heap st !! l' = Some o' →
     ∃ o'', heap st' !! l' = Some o''
            ∧ PageSize o'' = PageSize o' ∧ Filter o'' = Filter o'
            ∧ QueryParams o'' = QueryParams o')
  ∧ dom (heap st') = dom (heap st).
Proof.
  intros Hl Hrun.
  destruct (listHelper_shape _ _ _ _ _ _ _ _ Hl Hrun)
    as (sent & w & _ & Hheap & _).
  rewrite Hheap. split.
  - intros l' o' Hl'. destruct (decide (l' = l)) as [->|Hne].
    + exists (withWindow w o). rewrite lookup_insert_eq.
      rewrite Hl in Hl'. by injection Hl' as <-.
    + exists o'. by rewrite lookup_insert_ne.
  - rewrite dom_insert_L. apply (elem_of_dom_2 (D := gset loc)) in Hl.
    apply subseteq_union_1_L. by apply singleton_subseteq_l.
Qed.

(** X5. A negative page is no error and no fetch of all pages: the
    request is the one the options would give with no page window at
    all (it names no page of the options'), it is the only one, and its
    totals are written next to the negative page, which stays. *)
Theorem listHelper_negative_page fuel c ids l o po st :
  heap st !! l = Some o →
  pageOptions o = Some po → Page po < 0 →
  applies o →
  requestOf c o = requestOf c (withWindow None o)
  ∧ listHelper (S fuel) c ids (Some l) st
    = let req := requestOf c (withWindow None o) in
      let url := endpoint (pager st) ids in
      match castResult (pager st) req url with
      | (pg', Err err) =>
        Some (Some err, {| heap := heap st; pager := pg';
                           requests := requests st ++ [(req, url)] |})
      | (pg', Ok (pages, results)) =>
        Some (None,
              {| heap := <[l := setPageOptions
                                 {| Page := Page po; Pages := pages;
                                    Results := results |} o]> (heap st);
                 pager := pg'; requests := requests st ++ [(req, url)] |})
      end.
Proof.
  intros Hl Hpo Hneg Happ.
  assert (requestOf c o = requestOf c (withWindow None o)) as Hreq.
  { unfold requestOf, applyListOptionsToRequest.
    cbn [withWindow pageOptions QueryParams PageSize Filter]. rewrite Hpo.
    by assert ((0 <? Page po) = false) as -> by lia. }
  split; [done|]. rewrite <-Hreq.
  rewrite (state_insert_id st l o Hl) at 1.
  rewrite (listHelper_single _ _ _ _ _ po) by
    first [done|lia|by apply applies_no_error].
  cbn zeta.
  destruct (castResult _ _ _) as [pg' [[pages results]|e]].
  - do 4 f_equal.
    unfold setTotals, setPageOptions. by rewrite Hpo.
  - by rewrite insert_id.
Qed.

(** X6. When the query parameters of the caller's own do not flatten,
    the call returns, in every page mode and before anything is sent or
    written, an error that wraps the flattener's: its message is the
    flattener's after the prefix, and [Unwrap] gives the flattener's
    error back. *)
Theorem listHelper_returns_wrapped_flatten_error fuel c ids l o st inner :
  heap st !! l = Some o →
  QueryParams o ≠ None →
  flattenQueryStruct (QueryParams o) = Err inner →
  ∃ err,
    listHelper (S fuel) c ids (Some l) st = Some (Some err, st)
    ∧ Unwrap err = Some inner
    ∧ Error err = "failed to apply list options: " +:+ Error inner.
Proof.
  intros Hl Hq Hf.
  exists (Errorf_w "failed to apply list options: " inner).
  split; [|done].
  apply (listHelper_apply_error _ _ _ _ o _ (R c)); [done|].
  unfold applyListOptionsToRequest. rewrite Hf.
  by destruct (QueryParams o).
Qed.




End ListHelperFrame.

(** ** The query flattener, in full *)

Section FlattenFacts.
Implicit Types (v : Value) (f : StructField)
  (fields all rest : list (StructField * Value)) (m result : gmap string string).

(** X8. What the flattener makes of the value as a whole: a pointer to a
    value that is no pointer is flattened as that value; a nil pointer, a
    pointer to a pointer, a value that is no struct and the nil interface
    are each refused with their own message. Options without query
    parameters never get that far: they always apply. *)
Theorem flattenQueryStruct_top_level :
  (∀ tname v, Kind v ≠ reflect.Pointer →
     flattenQueryStruct (Some (VPointer tname (Some v)))
     = flattenQueryStruct (Some v))
  ∧ (∀ tname,
       flattenQueryStruct (Some (VPointer tname None))
       = Err (Errorf "QueryParams is a nil pointer"))
  ∧ (∀ tname tname' elem,
       flattenQueryStruct (Some (VPointer tname (Some (VPointer tname' elem))))
       = Err (Errorf "expected struct type for the QueryParams but got: ptr"))
  ∧ (∀ v, Kind v ∉ [reflect.Pointer; reflect.Struct] →
       flattenQueryStruct (Some v)
       = Err (Errorf ("expected struct type for the QueryParams but got: "
                      +:+ reflect.Kind_String (Kind v))))
  ∧ flattenQueryStruct None
    = Err (Errorf "expected struct type for the QueryParams but got: invalid")
  ∧ (∀ o req, QueryParams o = None →
       (applyListOptionsToRequest (Some o) req).2 = None).
Proof.
  split; [|split; [done|split; [done|split; [|split; [done|]]]]].
  - intros tname v Hk. cbn [flattenQueryStruct Kind IsNil Indirect].
    destruct v as [| [] | [] | [] | [] | | | | | []]; done.
  - intros v Hk. cbn [flattenQueryStruct].
    destruct v as [| [] | [] | [] | [] | | | | | []]; try done;
      destruct Hk; repeat first [by left|right].
  - intros o req Hq. unfold applyListOptionsToRequest. by rewrite Hq.
Qed.

Lemma flattenFields_sound all rest : ∀ result m t s,
  (∀ f v, (f, v) ∈ rest → FieldByName all (Name f) = Some v) →
  flattenFields all rest result = Ok m →
  m !! t = Some s →
  result !! t = Some s
  ∨ ∃ f v, (f, v) ∈ rest ∧ Lookup (Tag f) "query" = Some t
           ∧ IsZero v = false ∧ queryFieldToString (Indirect v) = Ok s.
Proof.
  induction rest as [|[f0 v0] rest IH]; intros result m t s Hname Hrun Hm.
  { injection Hrun as <-. by left. }
  assert (∀ f v, (f, v) ∈ rest → FieldByName all (Name f) = Some v) as Hname'
    by (intros; apply Hname; by right).
  assert (∀ result',
    flattenFields all rest result' = Ok m →
    result' !! t = Some s
    ∨ ∃ f v, (f, v) ∈ (f0, v0) :: rest ∧ Lookup (Tag f) "query" = Some t
             ∧ IsZero v = false ∧ queryFieldToString (Indirect v) = Ok s) as Hrest.
  { intros result' Hrun'.
    destruct (IH result' m t s Hname' Hrun' Hm) as [?|(f & v & Hin & ?)]; [by left|].
    right. exists f, v. split; [by right|done]. }
  cbn [flattenFields] in Hrun.
  destruct (Lookup (Tag f0) "query") as [t0|] eqn:Ht0; [|by apply Hrest].
  rewrite (Hname f0 v0) in Hrun by left.
  destruct (IsZero v0) eqn:Hz; [by apply Hrest|].
  rewrite deref_Indirect in Hrun.
  destruct (queryFieldToString (Indirect v0)) as [s0|e] eqn:Hs0; [|done].
  destruct (Hrest _ Hrun) as [Hins|?]; [|by right].
  destruct (decide (t = t0)) as [->|Hne].
  - rewrite lookup_insert_eq in Hins. injection Hins as ->.
    right. exists f0, v0. split; [by left|done].
  - rewrite lookup_insert_ne in Hins by done. by left.
Qed.

(** X9. Nothing is in the flattened map that no field put there: every
    entry is the string of an annotated field that is not zero, under
    that field's query name. *)
Theorem flatten_result_comes_from_fields val fields m t s :
  recordOf val = Some fields →
  NoDup (Name <$> fields.*1) →
  flattenQueryStruct (Some val) = Ok m →
  m !! t = Some s →
  ∃ f v, (f, v) ∈ fields ∧ Lookup (Tag f) "query" = Some t
         ∧ IsZero v = false ∧ queryFieldToString (Indirect v) = Ok s.
Proof.
  intros Hrec Hnd Hrun Hm.
  rewrite (flattenQueryStruct_record _ _ Hrec) in Hrun.
  destruct (flattenFields_sound fields fields ∅ m t s) as [Hempty|?]; try done.
  intros f v Hin. by apply FieldByName_elem_of.
Qed.

Lemma flattenFields_Ok_iff all rest : ∀ result,
  (∀ f v, (f, v) ∈ rest → FieldByName all (Name f) = Some v) →
  (∃ m, flattenFields all rest result = Ok m)
  ↔ ∀ f v, (f, v) ∈ rest → is_Some (Lookup (Tag f) "query") →
           IsZero v = false → supported (Kind (Indirect v)) = true.
Proof.
  induction rest as [|[f0 v0] rest IH]; intros result Hname.
  { split; [|by eexists]. intros _ f v Hin. by apply elem_of_nil in Hin. }
  assert (∀ f v, (f, v) ∈ rest → FieldByName all (Name f) = Some v) as Hname'
    by (intros; apply Hname; by right).
  assert (∀ Q : StructField → Value → Prop,
            (∀ f v, (f, v) ∈ (f0, v0) :: rest → Q f v)
            ↔ Q f0 v0 ∧ ∀ f v, (f, v) ∈ rest → Q f v) as Hcons.
  { intros Q. split.
    - intros HQ. split; [apply HQ; by left|]. intros. apply HQ. by right.
    - intros [H0 Hr] f v [[= -> ->]|Hin]%elem_of_cons; auto. }
  rewrite (Hcons (λ f v, is_Some (Lookup (Tag f) "query") →
                         IsZero v = false → supported (Kind (Indirect v)) = true)).
  cbn [flattenFields].
  destruct (Lookup (Tag f0) "query") as [t0|] eqn:Ht0.
  2:{ rewrite (IH result Hname'). split; [|by intros [_ ?]].
      intros Hr. split; [|done]. by intros [? ?]. }
  rewrite (Hname f0 v0) by left.
  destruct (IsZero v0) eqn:Hz.
  { rewrite (IH result Hname'). split; [|by intros [_ ?]].
    intros Hr. split; [|done]. done. }
  rewrite deref_Indirect.
  destruct (supported (Kind (Indirect v0))) eqn:Hs.
  - destruct (queryFieldToString_supported _ Hs) as [s0 ->].
    rewrite (IH _ Hname'). split; [|by intros [_ ?]]. by intros Hr.
  - rewrite (queryFieldToString_unsupported _ Hs). split; [by intros [? ?]|].
    intros [H0 _]. by discriminate H0.
Qed.

(** X10. The flattener succeeds exactly when every annotated field that
    is not zero is of a supported kind once dereferenced. A field of
    another kind is no obstacle as long as it holds its zero value or
    has no [query] tag. *)
Theorem flatten_succeeds_iff val fields :
  recordOf val = Some fields →
  NoDup (Name <$> fields.*1) →
  (∃ m, flattenQueryStruct (Some val) = Ok m)
  ↔ ∀ f v, (f, v) ∈ fields → is_Some (Lookup (Tag f) "query") →
           IsZero v = false → supported (Kind (Indirect v)) = true.
Proof.
  intros Hrec Hnd. rewrite (flattenQueryStruct_record _ _ Hrec).
  apply flattenFields_Ok_iff. intros f v Hin. by apply FieldByName_elem_of.
Qed.

Lemma flattenFields_untouched all rest t : ∀ result m,
  (∀ f v, (f, v) ∈ rest → FieldByName all (Name f) = Some v) →
  (∀ f v, (f, v) ∈ rest → Lookup (Tag f) "query" = Some t → IsZero v = true) →
  flattenFields all rest result = Ok m →
  m !! t = result !! t.
Proof.
  induction rest as [|[f0 v0] rest IH]; intros result m Hname Hzero Hrun.
  { by injection Hrun as <-. }
  assert (∀ f v, (f, v) ∈ rest → FieldByName all (Name f) = Some v) as Hname'
    by (intros; apply Hname; by right).
  assert (∀ f v, (f, v) ∈ rest → Lookup (Tag f) "query" = Some t →
                 IsZero v = true) as Hzero'
    by (intros ?? Hin; apply Hzero; by right).
  cbn [flattenFields] in Hrun.
  destruct (Lookup (Tag f0) "query") as [t0|] eqn:Ht0; [|by apply IH].
  rewrite (Hname f0 v0) in Hrun by left.
  destruct (IsZero v0) eqn:Hz; [by apply IH|].
  destruct (queryFieldToString _) as [s0|e]; [|done].
  rewrite (IH _ _ Hname' Hzero' Hrun).
  apply lookup_insert_ne. intros ->.
  rewrite (Hzero f0 v0) in Hz; [done|by left|done].
Qed.

(** X11. When several fields share a query name, the last of them in
    declaration order that is not zero gives the value. *)
Theorem flatten_last_field_wins val pre f v post t m :
  recordOf val = Some (pre ++ (f, v) :: post) →
  NoDup (Name <$> (pre ++ (f, v) :: post).*1) →
  Lookup (Tag f) "query" = Some t →
  IsZero v = false →
  (∀ f' v', (f', v') ∈ post → Lookup (Tag f') "query" = Some t →
            IsZero v' = true) →
  flattenQueryStruct (Some val) = Ok m →
  ∃ s, queryFieldToString (Indirect v) = Ok s ∧ m !! t = Some s.
Proof.
  intros Hrec Hnd Ht Hz Hpost Hrun.
  rewrite (flattenQueryStruct_record _ _ Hrec) in Hrun.
  set (fields := pre ++ (f, v) :: post) in *.
  assert (∀ f' v', (f', v') ∈ fields → FieldByName fields (Name f') = Some v')
    as Hname by (intros; by apply FieldByName_elem_of).
  unfold fields at 2 in Hrun. rewrite flattenFields_app in Hrun.
  destruct (flattenFields fields pre ∅) as [m0|e]; [|done].
  cbn [flattenFields] in Hrun. rewrite Ht in Hrun.
  rewrite (Hname f v) in Hrun by (apply elem_of_app; right; by left).
  rewrite Hz, deref_Indirect in Hrun.
  destruct (queryFieldToString (Indirect v)) as [s|e]; [|done].
  exists s. split; [done|].
  rewrite (flattenFields_untouched fields post t (<[t:=s]> m0) m);
    [by rewrite lookup_insert_eq| |done..].
  intros f' v' Hin. apply Hname. apply elem_of_app. right. by right.
Qed.

Lemma wellFormed_Permutation fields fields' :
  fields ≡ₚ fields' → wellFormed fields → wellFormed fields'.
Proof.
  intros Hp [Hn Ht]. split.
  - by rewrite <-Hp.
  - unfold queryTags. by rewrite <-Hp.
Qed.

(** In a well-formed record that flattens, a field that is not zero is
    in the map under its query name. *)
Lemma flatten_complete fields m f v t :
  wellFormed fields →
  flattenFields fields fields ∅ = Ok m →
  (f, v) ∈ fields → Lookup (Tag f) "query" = Some t → IsZero v = false →
  ∃ s, queryFieldToString (Indirect v) = Ok s ∧ m !! t = Some s.
Proof.
  intros [Hn Ht] Hrun Hin Htag Hz.
  assert (∀ f v, (f, v) ∈ fields → FieldByName fields (Name f) = Some v)
    as Hname by (intros; by apply FieldByName_elem_of).
  destruct (flattenFields_spec fields fields Hname Ht) with (result := (∅ : gmap string string))
    as (m0 & Hm0 & _ & Hfields).
  { intros f' v' t' Hin' Ht' Hz'.
    apply (proj1 (flattenFields_Ok_iff fields fields ∅ Hname)
             (ex_intro _ m Hrun) f' v'); [done| |done].
    by rewrite Ht'. }
  rewrite Hrun in Hm0. injection Hm0 as <-.
  by apply (Hfields f v t Hin Htag).
Qed.

(** X17. In a well-formed record the order of the fields does not show:
    when the record flattens, so does every rearrangement of its fields,
    to the same map. *)
Theorem flatten_ignores_field_order tname tname' fields fields' m :
  wellFormed fields →
  fields ≡ₚ fields' →
  flattenQueryStruct (Some (VStruct tname fields)) = Ok m →
  flattenQueryStruct (Some (VStruct tname' fields')) = Ok m.
Proof.
  intros Hwf Hp. cbn [flattenQueryStruct Kind]. intros Hrun.
  pose proof (wellFormed_Permutation _ _ Hp Hwf) as Hwf'.
  assert (∀ f v, (f, v) ∈ fields → FieldByName fields (Name f) = Some v)
    as Hname by (intros; apply FieldByName_elem_of; [apply Hwf|done]).
  assert (∀ f v, (f, v) ∈ fields' → FieldByName fields' (Name f) = Some v)
    as Hname' by (intros; apply FieldByName_elem_of; [apply Hwf'|done]).
  destruct (proj2 (flattenFields_Ok_iff fields' fields' ∅ Hname')) as [m' Hrun'].
  { intros f v Hin. rewrite <-Hp in Hin. revert f v Hin.
    apply (proj1 (flattenFields_Ok_iff fields fields ∅ Hname)). by exists m. }
  rewrite Hrun'. f_equal. apply map_eq. intros t.
  destruct (m !! t) as [s|] eqn:Hm.
  - destruct (flattenFields_sound fields fields ∅ m t s Hname Hrun Hm)
      as [?|(f & v & Hin & Ht & Hz & Hs)]; [done|].
    rewrite Hp in Hin.
    destruct (flatten_complete fields' m' f v t Hwf' Hrun' Hin Ht Hz)
      as (s' & Hs' & ->). congruence.
  - destruct (m' !! t) as [s'|] eqn:Hm'; [|done].
    destruct (flattenFields_sound fields' fields' ∅ m' t s' Hname' Hrun' Hm')
      as [?|(f & v & Hin & Ht & Hz & Hs)]; [done|].
    rewrite <-Hp in Hin.
    destruct (flatten_complete fields m f v t Hwf Hrun Hin Ht Hz)
      as (s & _ & Hsome). congruence.
Qed.
End FlattenFacts.

(** ** Listing instances, in the older package *)

Section InstancesFacts.
Import golinode.
Context {W Time : Type} `{Transport W Time}.
Variable parseDates : string → option Time * option error.

Implicit Types (c : Client) (st : State W).

(** One call through a pointer, in full. *)
Lemma ListInstances_Some f c l o po h w log e :
  Endpoint (Instances c) = Ok e →
  pageOptions o = Some po →
  ListInstances parseDates (S f) c (Some l)
    {| heap := <[l := o]> h; world := w; sent := log |}
  = let req := instancesRequest c (Page po) in
    let '(w', r) := Get_InstancesPagedResponse w req e in
    let log' := log ++ [getOf e req] in
    match r with
    | Err err =>
      Some (Returns (Err err),
            {| heap := <[l := o]> h; world := w'; sent := log' |})
    | Ok result =>
      match PageOptions_ result, fixDatesAll parseDates (Data result) with
      | Some rpo, Returns data =>
        Some (Returns (Ok data),
              {| heap := <[l := setResults (Results rpo) o]> h;
                 world := w'; sent := log' |})
      | _, _ =>
        Some (Panics, {| heap := <[l := o]> h; world := w'; sent := log' |})
      end
    end.
Proof.
  intros He Hpo. cbn [ListInstances]. rewrite He.
  cbn [deref heap]. rewrite lookup_insert_eq. cbn [fmap option_fmap option_map].
  rewrite Hpo. cbn [world sent].
  fold (instancesRequest c (Page po)).
  destruct (Get_InstancesPagedResponse w _ e) as [w' [result|err]]; [|done].
  destruct (PageOptions_ result) as [rpo|]; [|done].
  destruct (fixDatesAll parseDates _) as [data|]; [|done].
  unfold store. cbn [heap world sent].
  by rewrite alter_insert_eq.
Qed.

Lemma appendPages_mono
    (body body' : Z → State W → option (Outcome (list (Instance Time)) * State W))
    ks :
  (∀ k st r, body k st = Some r → body' k st = Some r) →
  ∀ data st r, appendPages body ks data st = Some r →
               appendPages body' ks data st = Some r.
Proof.
  intros Hb. induction ks as [|k ks IH]; intros data st r; cbn; [done|].
  destruct (body k st) as [[[next|] st']|] eqn:E; [| |done].
  - rewrite (Hb _ _ _ E). apply IH.
  - by rewrite (Hb _ _ _ E).
Qed.

Lemma ListInstances_fuel_S f : ∀ c opts st r,
  ListInstances parseDates f c opts st = Some r →
  ListInstances parseDates (S f) c opts st = Some r.
Proof.
  induction f as [|f IH]; intros c opts st r Hr; [done|].
  set (f' := S f). cbn [ListInstances] in Hr |- *.
  destruct (Endpoint (Instances c)) as [e|err]; [|done].
  destruct (deref (heap st) opts) as [o|]; [|done].
  destruct (match o with Some _ => _ | None => _ end) as [req|]; [|done].
  destruct (Get_InstancesPagedResponse (world st) req e) as [w [result|err]]; [|done].
  destruct (PageOptions_ result) as [rpo|]; [|done].
  destruct (fixDatesAll parseDates _) as [data|]; [|done].
  destruct opts as [l|]; [done|].
  destruct (appendPages _ (seqZ 2 (Pages rpo - 1)) _ _) as [r0|] eqn:E; [|done].
  apply (appendPages_mono _
           (λ page st,
              let '(l, st) := alloc (pageOnly page) st in
              match ListInstances parseDates f' c (Some l) st with
              | None => None
              | Some (Panics, st) => Some (Panics, st)
              | Some (Returns (Err _), st) => Some (Returns [], st)
              | Some (Returns (Ok next), st) => Some (Returns next, st)
              end)) in E.
  - by rewrite E.
  - intros k st3 r3. cbn beta. destruct (alloc (pageOnly k) st3) as [l st4].
    destruct (ListInstances parseDates f c (Some l) st4) as [r4|] eqn:E4; [|done].
    subst f'. by rewrite (IH _ _ _ _ E4).
Qed.

Lemma ListInstances_fuel_le f f' c opts st r :
  (f ≤ f')%nat →
  ListInstances parseDates f c opts st = Some r →
  ListInstances parseDates f' c opts st = Some r.
Proof. induction 1; auto using ListInstances_fuel_S. Qed.

Lemma state_heap_insert_id st l o :
  heap st !! l = Some o →
  st = {| heap := <[l := o]> (heap st); world := world st; sent := sent st |}.
Proof. intros Hl. destruct st; cbn in *. by rewrite insert_id. Qed.

Lemma fixDatesAll_fixed raw : ∀ data,
  fixDatesAll parseDates raw = Returns data →
  Forall (datesFixed parseDates) data.
Proof.
  induction raw as [|[el|] raw IH]; intros data; cbn [fixDatesAll]; [|  |done].
  - by intros [= <-].
  - destruct (fixDatesAll parseDates raw) as [fixed|]; [|done].
    intros [= <-]. constructor; [done|by apply IH].
Qed.

(** The loop over the pages [ks] when it runs to its end: every page is
    asked for, in turn, and what the answers bring is appended; a page
    that fails brings nothing. *)
Lemma appendPages_returns f c e ks : ∀ data st data' st',
  Endpoint (Instances c) = Ok e →
  appendPages
    (λ page st,
       let '(l, st) := alloc (pageOnly page) st in
       match ListInstances parseDates (S f) c (Some l) st with
       | None => None
       | Some (Panics, st) => Some (Panics, st)
       | Some (Returns (Err _), st) => Some (Returns [], st)
       | Some (Returns (Ok next), st) => Some (Returns next, st)
       end)
    ks data st
  = Some (Returns data', st') →
  ∃ answers,
    replayGet e (world st) (instancesRequest c <$> ks) = (world st', answers)
    ∧ sent st' = sent st ++ (getOf e <$> (instancesRequest c <$> ks))
    ∧ data' = data ++ concat (instancesOf parseDates <$> answers)
    ∧ heap st ⊆ heap st'.
Proof.
  induction ks as [|k ks IH]; intros data st data' st' He; cbn [appendPages].
  { intros [= <- <-]. exists []. by rewrite !app_nil_r. }
  unfold alloc at 1.
  pose proof (is_fresh (dom (heap st))) as Hfresh.
  apply not_elem_of_dom in Hfresh.
  set (l := fresh (dom (heap st))) in *.
  rewrite (ListInstances_Some _ _ _ _ (newPageOptions k) _ _ _ e) by done.
  cbn zeta. cbn [newPageOptions Page fmap list_fmap replayGet].
  fold (fmap (M:=list) (instancesRequest c)).
  destruct (Get_InstancesPagedResponse (world st) _ e) as [w' [result|err]].
  - destruct (PageOptions_ result) as [rpo|]; [|done].
    destruct (fixDatesAll parseDates (Data result)) as [next|] eqn:Hnext; [|done].
    intros Hrest.
    destruct (IH _ _ _ _ He Hrest) as (answers & Hreplay & Hsent & Hdata & Hheap).
    cbn [world sent heap] in *. rewrite Hreplay.
    eexists. split; [done|]. cbn [fmap list_fmap concat instancesOf].
    rewrite Hnext.
    split; [by rewrite Hsent, <-app_assoc|].
    split; [by rewrite Hdata, <-app_assoc|].
    etrans; [|exact Hheap]. by apply insert_subseteq.
  - intros Hrest.
    destruct (IH _ _ _ _ He Hrest) as (answers & Hreplay & Hsent & Hdata & Hheap).
    cbn [world sent heap] in *. rewrite Hreplay.
    eexists. split; [done|]. cbn [fmap list_fmap concat instancesOf].
    split; [by rewrite Hsent, <-app_assoc|].
    split; [by rewrite Hdata, app_nil_r|].
    etrans; [|exact Hheap]. by apply insert_subseteq.
Qed.

(** X12. [ListInstances(nil)] that returns: when the first request
    fails, its error is returned and nothing else was sent. When it
    succeeds, every page from 2 to the page count of the first answer
    was asked for, in order, whether or not the pages before failed; the
    result is never an error, and it holds the instances of the answers
    that came, in order. No object of the caller's is changed. *)
Theorem ListInstances_ignores_errors_of_later_pages fuel c st out st' e :
  Endpoint (Instances c) = Ok e →
  ListInstances parseDates fuel c None st = Some (Returns out, st') →
  (∀ w1 err,
     Get_InstancesPagedResponse (world st) (R c) e = (w1, Err err) →
     out = Err err
     ∧ st' = {| heap := heap st; world := w1;
                sent := sent st ++ [getOf e (R c)] |})
  ∧ (∀ w1 result,
       Get_InstancesPagedResponse (world st) (R c) e = (w1, Ok result) →
       ∃ po answers,
         PageOptions_ result = Some po
         ∧ replayGet e w1 (instancesRequest c <$> seqZ 2 (Pages po - 1))
           = (world st', answers)
         ∧ sent st'
           = sent st
               ++ (getOf e <$> R c :: (instancesRequest c <$> seqZ 2 (Pages po - 1)))
         ∧ out = Ok (concat (instancesOf parseDates <$> Ok result :: answers))
         ∧ heap st ⊆ heap st').
Proof.
  intros He Hrun.
  destruct fuel as [|fuel]; [done|].
  apply (ListInstances_fuel_le _ (S (S fuel))) in Hrun; [|lia].
  remember (S fuel) as f' eqn:Ef'. cbn [ListInstances] in Hrun. subst f'.
  rewrite He in Hrun. cbn [deref] in Hrun.
  fold (getOf e (R c)) in Hrun.
  destruct (Get_InstancesPagedResponse (world st) (R c) e) as [w [result|err]].
  2:{ injection Hrun as <- <-. split; [|done]. by intros ?? [= <- <-]. }
  split; [done|]. intros ?? [= <- <-].
  destruct (PageOptions_ result) as [po|]; [|done].
  cbn [fmap list_fmap concat instancesOf].
  destruct (fixDatesAll parseDates (Data result)) as [data|]; [|done].
  destruct (appendPages _ _ _ _) as [[[data'|] st1]|] eqn:E; [|done..].
  injection Hrun as <- <-.
  destruct (appendPages_returns _ _ _ _ _ _ _ _ He E)
    as (answers & Hreplay & Hsent & Hdata & Hheap).
  cbn [world sent heap] in *.
  exists po, answers. split; [done|]. split; [done|].
  split; [by rewrite Hsent, <-app_assoc|]. split; [by rewrite Hdata|done].
Qed.

(** X13. [ListInstances] with options. Without a page window it
    panics, before anything is sent. With one, it sends one request,
    which always names the page, page 0 as [0]; of the totals of the
    answer only [Results] is written to the options. An answer without
    page window, or with a nil instance, makes it panic. *)
Theorem ListInstances_with_options fuel c l o st e :
  heap st !! l = Some o →
  Endpoint (Instances c) = Ok e →
  (pageOptions o = None →
   ListInstances parseDates (S fuel) c (Some l) st = Some (Panics, st))
  ∧ (∀ po, pageOptions o = Some po →
       QueryParam (instancesRequest c (Page po)) !! "page" = Some [Itoa (Page po)]
       ∧ (Page po = 0 →
          QueryParam (instancesRequest c (Page po)) !! "page" = Some ["0"])
       ∧ ListInstances parseDates (S fuel) c (Some l) st
         = let req := instancesRequest c (Page po) in
           let '(w', r) := Get_InstancesPagedResponse (world st) req e in
           let log' := sent st ++ [getOf e req] in
           match r with
           | Err err =>
             Some (Returns (Err err),
                   {| heap := heap st; world := w'; sent := log' |})
           | Ok result =>
             match PageOptions_ result, fixDatesAll parseDates (Data result) with
             | Some rpo, Returns data =>
               Some (Returns (Ok data),
                     {| heap :=
                          <[l := setPageOptions
                                   {| Page := Page po; Pages := Pages po;
                                      Results := Results rpo |} o]> (heap st);
                        world := w'; sent := log' |})
             | _, _ =>
               Some (Panics, {| heap := heap st; world := w'; sent := log' |})
             end
           end).
Proof.
  intros Hl He. split.
  - intros Hpo. cbn [ListInstances]. rewrite He. cbn [deref]. rewrite Hl.
    cbn. by rewrite Hpo.
  - intros po Hpo. split; [apply lookup_insert_eq|].
    split.
    { intros ->. unfold instancesRequest, SetQueryParam. cbn [QueryParam].
      by rewrite lookup_insert_eq. }
    rewrite (state_heap_insert_id st l o Hl) at 1.
    rewrite (ListInstances_Some _ _ _ _ po _ _ _ e) by done. cbn zeta.
    destruct (Get_InstancesPagedResponse _ _ _) as [w' [result|err]].
    + destruct (PageOptions_ result) as [rpo|];
        [destruct (fixDatesAll parseDates _)|]; rewrite ?insert_id by done;
        try done.
      do 4 f_equal. unfold setResults, setPageOptions. by rewrite Hpo.
    + by rewrite insert_id.
Qed.

Lemma appendPages_Forall (Q : Instance Time → Prop)
    (body : Z → State W → option (Outcome (list (Instance Time)) * State W))
    ks :
  (∀ k s out s', body k s = Some (Returns out, s') → Forall Q out) →
  ∀ data s out s',
    Forall Q data →
    appendPages body ks data s = Some (Returns out, s') →
    Forall Q out.
Proof.
  intros Hbody. induction ks as [|k ks IH]; intros data s out s' Hdata;
    cbn [appendPages].
  { by intros [= <- <-]. }
  destruct (body k s) as [[[next|] s1]|] eqn:Ek; [|done..].
  apply IH. apply Forall_app. split; [done|]. by apply (Hbody _ _ _ _ Ek).
Qed.

Lemma ListInstances_dates fuel : ∀ c opts st data st',
  ListInstances parseDates fuel c opts st = Some (Returns (Ok data), st') →
  Forall (datesFixed parseDates) data.
Proof.
  induction fuel as [|fuel IH]; intros c opts st data st'; [done|].
  cbn [ListInstances].
  destruct (Endpoint (Instances c)) as [e|err]; [|done].
  destruct (deref (heap st) opts) as [o|]; [|done].
  destruct (match o with Some _ => _ | None => _ end) as [req|]; [|done].
  destruct (Get_InstancesPagedResponse (world st) req e) as [w [result|err]]; [|done].
  destruct (PageOptions_ result) as [rpo|]; [|done].
  destruct (fixDatesAll parseDates _) as [first|] eqn:Hfirst; [|done].
  apply fixDatesAll_fixed in Hfirst.
  destruct opts as [l|]; [by intros [= <- <-]|].
  destruct (appendPages _ _ _ _) as [[[data'|] st1]|] eqn:E; [|done..].
  intros [= <- <-].
  refine (appendPages_Forall _ _ _ _ _ _ _ _ Hfirst E).
  intros k s out s'. cbn beta. destruct (alloc (pageOnly k) s) as [l s1].
  destruct (ListInstances parseDates fuel c (Some l) s1)
    as [[[[next|err]|] s2]|] eqn:E'; try done.
  - intros [= <- <-]. by apply (IH _ _ _ _ _ E').
  - by intros [= <- <-].
Qed.

(** X14. Every instance [ListInstances] returns, from whichever page,
    and the instance [GetInstance] returns have their dates fixed:
    [Created] and [Updated] are what [parseDates] makes of the strings. *)
Theorem instances_come_with_their_dates_fixed :
  (∀ fuel c opts st data st',
     ListInstances parseDates fuel c opts st = Some (Returns (Ok data), st') →
     Forall (datesFixed parseDates) data)
  ∧ (∀ c linodeID st instance st',
       GetInstance parseDates c linodeID st = (Ok instance, st') →
       datesFixed parseDates instance).
Proof.
  split; [apply ListInstances_dates|].
  intros c linodeID st instance st'. unfold GetInstance.
  destruct (Endpoint (Instances c)) as [e|err]; [|done].
  destruct (Get_Instance (world st) (R c) _) as [w [result|err]]; [|done].
  by intros [= <- <-].
Qed.

End InstancesFacts.

(** ** Converting an integer to a string *)

Section Conversions.
Import golinode.

(** A decimal number starts with a digit or with the minus sign. *)
Lemma formatDigits_head n : ∀ u acc,
  0 ≤ u →
  ∃ d s, 0 ≤ d < 10 ∧ formatDigits (S n) u acc = String (digitChar d) s.
Proof.
  induction n as [|n IH]; intros u acc Hu.
  - cbn [formatDigits]. exists (u mod 10).
    destruct (u / 10 =? 0); eexists; (split; [apply Z.mod_pos_bound; lia|done]).
  - remember (S n) as n' eqn:En. cbn [formatDigits].
    destruct (u / 10 =? 0).
    + exists (u mod 10). eexists. split; [apply Z.mod_pos_bound; lia|done].
    + subst n'. apply IH. apply Z.div_pos; lia.
Qed.

Lemma FormatInt10_head i :
  ∃ a s, FormatInt10 i = String a s
         ∧ (N_of_ascii a < 64)%N.
Proof.
  unfold FormatInt10.
  destruct (formatDigits_head (Z.to_nat (Z.log2 (Z.abs i))) (Z.abs i) "")
    as (d & s & Hd & ->); [lia|].
  destruct (i <? 0).
  - eexists _, _. split; [done|]. by vm_compute.
  - eexists _, _. split; [done|].
    unfold digitChar. rewrite N_ascii_embedding by lia. lia.
Qed.

Lemma lead_byte_range :
  Forall (λ q, 192 ≤ Z.lor 0xC0 q < 256) (seqZ 0 32)
  ∧ Forall (λ q, 192 ≤ Z.lor 0xE0 q < 256) (seqZ 0 16)
  ∧ Forall (λ q, 192 ≤ Z.lor 0xF0 q < 256) (seqZ 0 8).
Proof.
  repeat split; apply (bool_decide_unpack _); by vm_compute.
Qed.

(** What is no ASCII character starts with a byte of 192 or more. *)
Lemma encoderune_head r :
  ¬ (0 ≤ r ≤ 0x7F) →
  ∃ b bs, encoderune r = b :: bs ∧ 192 ≤ b < 256.
Proof.
  intros Hr. unfold encoderune.
  destruct lead_byte_range as (H2 & H3 & H4).
  rewrite Forall_forall in H2, H3, H4.
  destruct (Z.ltb_spec r 0); [eexists _, _; split; [done|lia]|].
  destruct (Z.leb_spec r 0x7F); [lia|].
  destruct (Z.leb_spec r 0x7FF).
  { eexists _, _. split; [done|]. apply H2, elem_of_seqZ.
    rewrite Z.shiftr_div_pow2 by lia. change (2 ^ 6) with 64.
    split; [apply Z.div_pos; lia|]. apply Z.div_lt_upper_bound; lia. }
  destruct (_ || _) eqn:Einv; [eexists _, _; split; [done|lia]|].
  apply orb_false_iff in Einv as [Hmax%Z.ltb_ge _].
  destruct (Z.leb_spec r 0xFFFF).
  { eexists _, _. split; [done|]. apply H3, elem_of_seqZ.
    rewrite Z.shiftr_div_pow2 by lia. change (2 ^ 12) with 4096.
    split; [apply Z.div_pos; lia|]. apply Z.div_lt_upper_bound; lia. }
  eexists _, _. split; [done|]. apply H4, elem_of_seqZ.
  rewrite Z.shiftr_div_pow2 by lia. change (2 ^ 18) with 262144.
  split; [apply Z.div_pos; lia|]. apply Z.div_lt_upper_bound; lia.
Qed.

Lemma intstring_ascii :
  Forall (λ v, intstring v ≠ Itoa v) (seqZ 1 127).
Proof.
  apply Forall_forall. intros v Hv.
  assert (Forall (λ v, String.eqb (intstring v) (Itoa v) = false) (seqZ 1 127))
    as Hall by (apply (bool_decide_unpack _); by vm_compute).
  rewrite Forall_forall in Hall. specialize (Hall v Hv).
  intros Heq. rewrite Heq, String.eqb_refl in Hall. done.
Qed.

(** The conversion of an integer to a string never gives its decimal
    digits. *)
Lemma intstring_not_Itoa v : v ≠ 0 → intstring v ≠ Itoa v.
Proof.
  intros Hv.
  destruct (decide (0 ≤ v ≤ 0x7F)) as [Hascii|Hno].
  { pose proof intstring_ascii as Hall. rewrite Forall_forall in Hall.
    apply Hall, elem_of_seqZ. lia. }
  destruct (encoderune_head v Hno) as (b & bs & Henc & Hb).
  destruct (FormatInt10_head v) as (a & s & Hfmt & Ha).
  unfold intstring, Itoa. rewrite Henc, Hfmt. cbn.
  intros [= Heq _]. rewrite <-Heq, N_ascii_embedding in Ha; lia.
Qed.

End Conversions.

(** ** Acting on an instance *)

Section Actions.
Import golinode.
Context {W Time : Type} `{Transport W Time}.
Variable json_Marshal : gmap string string → Result string.

(** X15. [ShutdownInstance] posts the client's bare request to the
    address of [ResizeInstance], [.../<id>/resize]; [RebootInstance] and
    [MutateInstance] have addresses of their own. *)
Theorem ShutdownInstance_posts_to_resize (c : Client) id (st : State W) e :
  Endpoint (Instances c) = Ok e →
  let resize := e +:+ "/" +:+ Itoa id +:+ "/resize" in
  let reboot := e +:+ "/" +:+ Itoa id +:+ "/reboot" in
  let mutate := e +:+ "/" +:+ Itoa id +:+ "/mutate" in
  (∃ err w,
     ShutdownInstance c id st
     = (settleBoolResponseOrError err,
        {| heap := heap st; world := w;
           sent := sent st
                     ++ [{| method := "POST"; url := resize; request := R c |}] |}))
  ∧ (∀ linodeType,
       url <$> last (sent (ResizeInstance c id linodeType st).2) = Some resize)
  ∧ (∀ configID,
       url <$> last (sent (RebootInstance c id configID st).2) = Some reboot)
  ∧ url <$> last (sent (MutateInstance c id st).2) = Some mutate
  ∧ NoDup [resize; reboot; mutate].
Proof.
  intros He resize reboot mutate.
  unfold ShutdownInstance, ResizeInstance, RebootInstance, MutateInstance.
  rewrite He. unfold post, postJSON, post_.
  split; [|split; [|split; [|split]]].
  - destruct (Post (world st) (R c) _) as [w err]. by exists err, w.
  - intros linodeType. destruct (Post (world st) _ _) as [w err]. cbn.
    by rewrite last_snoc.
  - intros configID. destruct (Post (world st) _ _) as [w err]. cbn.
    by rewrite last_snoc.
  - destruct (Post (world st) _ _) as [w err]. cbn. by rewrite last_snoc.
  - assert (∀ s s', e +:+ "/" +:+ Itoa id +:+ s = e +:+ "/" +:+ Itoa id +:+ s'
                    → s = s') as Hinj.
    { intros s s' Heq. by do 3 apply String.app_inj in Heq. }
    repeat (apply NoDup_cons; split;
            [rewrite ?elem_of_cons, elem_of_nil;
             intros Hin; repeat destruct Hin as [Hin|Hin];
             try done; by apply Hinj in Hin|]).
    apply NoDup_nil_2.
Qed.

(** X16. [BootInstance] with a configuration puts under [config_id]
    the character whose code point is the number, never the decimal
    digits of the number, which is what [RebootInstance] sends. *)
Theorem BootInstance_never_sends_the_decimal_id c id configID (st : State W) e body :
  configID ≠ 0 →
  Endpoint (Instances c) = Ok e →
  json_Marshal {["config_id" := intstring configID]} = Ok body →
  (∃ err w,
     BootInstance json_Marshal c id configID st
     = (settleBoolResponseOrError err,
        {| heap := heap st; world := w;
           sent := sent st
                     ++ [{| method := "POST";
                            url := e +:+ "/" +:+ Itoa id +:+ "/boot";
                            request :=
                              SetBody body
                                (SetHeader "Content-Type" "application/json"
                                   (R c)) |}] |}))
  ∧ intstring configID ≠ Itoa configID
  ∧ Body <$> (request <$> last (sent (RebootInstance c id configID st).2))
    = Some ("{" +:+ quoted "config_id" +:+ ":" +:+ quoted (Itoa configID)
            +:+ "}").
Proof.
  intros Hne He Hbody. split; [|split].
  - unfold BootInstance. apply Z.eqb_neq in Hne. rewrite Hne, Hbody, He.
    unfold postJSON, post_.
    destruct (Post (world st) _ _) as [w err]. by exists err, w.
  - by apply intstring_not_Itoa.
  - unfold RebootInstance. rewrite He. unfold postJSON, post_.
    destruct (Post (world st) _ _) as [w err]. cbn. by rewrite last_snoc.
Qed.

End Actions.

(** ** The properties at work *)

Example rich_run :
  listHelper 2 demo_client [] (Some 1%positive)
    (demo_state "linode/instances" rich_options)
  = Some (None, rich_fetched).
Proof. reflexivity. Qed.

Lemma standard_fields_override_query_params_witness :
  let o := setPageOptions (newPageOptions 2) rich_options in
  let req := R demo_client in
  applies o
  ∧ applyListOptionsToRequest (Some o) req
    = ({| QueryParam := standardParams o ∪ extraParams o ∪ QueryParam req;
          Header := if (0 <? String.length (Filter o))%nat
                    then <["X-Filter" := [Filter o]]> (Header req)
                    else Header req |}, None).
Proof.
  intros o req.
  assert (applies o) as H1 by (right; eexists; reflexivity).
  split; [exact H1|].
  exact (standard_fields_override_query_params o req H1).
Defined.

Lemma listHelper_requests_differ_in_page_only_witness :
  let c := demo_client in
  let l := 1%positive in
  let o := rich_options in
  let st := demo_state "linode/instances" o in
  let st' := rich_fetched in
  (heap st !! l = Some o
   ∧ listHelper 2 c [] (Some l) st = Some (None, st'))
  ∧ ∃ sent,
      requests st' = requests st ++ sent
      ∧ ∀ req url, (req, url) ∈ sent →
          Header req
          = (if (0 <? String.length (Filter o))%nat
             then <["X-Filter" := [Filter o]]> (Header (R c))
             else Header (R c))
          ∧ ∀ k, k ≠ "page" →
              QueryParam req !! k
              = (standardParams o ∪ extraParams o ∪ QueryParam (R c)) !! k.
Proof.
  intros c l o st st'.
  assert (heap st !! l = Some o) as H1 by reflexivity.
  assert (listHelper 2 c [] (Some l) st = Some (None, st')) as H2
    by reflexivity.
  split; [exact (conj H1 H2)|].
  exact (listHelper_requests_differ_in_page_only 2 c [] l o st None st' H1 H2).
Defined.

Lemma listHelper_writes_only_the_page_window_witness :
  let c := demo_client in
  let l := 1%positive in
  let o := rich_options in
  let st := demo_state "linode/instances" o in
  let st' := rich_fetched in
  (heap st !! l = Some o
   ∧ listHelper 2 c [] (Some l) st = Some (None, st'))
  ∧ (∀ l' o', heap st !! l' = Some o' →
       ∃ o'', heap st' !! l' = Some o''
              ∧ PageSize o'' = PageSize o' ∧ Filter o'' = Filter o'
              ∧ QueryParams o'' = QueryParams o')
  ∧ dom (heap st') = dom (heap st).
Proof.
  intros c l o st st'.
  assert (heap st !! l = Some o) as H1 by reflexivity.
  assert (listHelper 2 c [] (Some l) st = Some (None, st')) as H2
    by reflexivity.
  split; [exact (conj H1 H2)|].
  exact (listHelper_writes_only_the_page_window 2 c [] l o st None st' H1 H2).
Defined.

Lemma listHelper_negative_page_witness :
  let c := demo_client in
  let l := 1%positive in
  let o := NewListOptions (-1) "" in
  let po := newPageOptions (-1) in
  let st := demo_state "linode/instances" o in
  (heap st !! l = Some o ∧ pageOptions o = Some po ∧ Page po < 0 ∧ applies o)
  ∧ requestOf c o = requestOf c (withWindow None o)
  ∧ listHelper 1 c [] (Some l) st
    = let req := requestOf c (withWindow None o) in
      let url := endpoint (pager st) [] in
      match castResult (pager st) req url with
      | (pg', Err err) =>
        Some (Some err, {| heap := heap st; pager := pg';
                           requests := requests st ++ [(req, url)] |})
      | (pg', Ok (pages, results)) =>
        Some (None,
              {| heap := <[l := setPageOptions
                                 {| Page := Page po; Pages := pages;
                                    Results := results |} o]> (heap st);
                 pager := pg'; requests := requests st ++ [(req, url)] |})
      end.
Proof.
  intros c l o po st.
  assert (heap st !! l = Some o) as H1 by reflexivity.
  assert (pageOptions o = Some po) as H2 by reflexivity.
  assert (Page po < 0) as H3 by (cbn; lia).
  assert (applies o) as H4 by (left; reflexivity).
  split; [exact (conj H1 (conj H2 (conj H3 H4)))|].
  exact (listHelper_negative_page 0 c [] l o po st H1 H2 H3 H4).
Defined.

Lemma listHelper_returns_wrapped_flatten_error_witness :
  let c := demo_client in
  let l := 1%positive in
  let o := bad_options in
  let st := demo_state "linode/instances" o in
  let inner := Errorf "unsupported query param type: float64" in
  (heap st !! l = Some o
   ∧ QueryParams o ≠ None
   ∧ flattenQueryStruct (QueryParams o) = Err inner)
  ∧ ∃ err,
      listHelper 1 c [] (Some l) st = Some (Some err, st)
      ∧ Unwrap err = Some inner
      ∧ Error err = "failed to apply list options: " +:+ Error inner.
Proof.
  intros c l o st inner.
  assert (heap st !! l = Some o) as H1 by reflexivity.
  assert (QueryParams o ≠ None) as H2 by discriminate.
  assert (flattenQueryStruct (QueryParams o) = Err inner) as H3 by reflexivity.
  split; [exact (conj H1 (conj H2 H3))|].
  exact (listHelper_returns_wrapped_flatten_error 0 c [] l o st inner H1 H2 H3).
Defined.


Lemma flatten_result_comes_from_fields_witness :
  let val := VPointer "" (Some (VStruct "Params" demo_fields)) in
  let m : gmap string string :=
    {["limit" := "0"; "size" := "512"; "active" := "true"]} in
  (recordOf val = Some demo_fields
   ∧ NoDup (Name <$> demo_fields.*1)
   ∧ flattenQueryStruct (Some val) = Ok m
   ∧ m !! "size" = Some "512")
  ∧ ∃ f v, (f, v) ∈ demo_fields ∧ Lookup (Tag f) "query" = Some "size"
           ∧ IsZero v = false ∧ queryFieldToString (Indirect v) = Ok "512".
Proof.
  intros val m.
  assert (recordOf val = Some demo_fields) as H1 by reflexivity.
  assert (NoDup (Name <$> demo_fields.*1)) as H2
    by (apply (bool_decide_unpack _); by vm_compute).
  assert (flattenQueryStruct (Some val) = Ok m) as H3 by (by vm_compute).
  assert (m !! "size" = Some "512") as H4 by (by vm_compute).
  split; [exact (conj H1 (conj H2 (conj H3 H4)))|].
  exact (flatten_result_comes_from_fields val demo_fields m "size" "512"
           H1 H2 H3 H4).
Defined.

Lemma flatten_succeeds_iff_witness :
  let val := VStruct "Params" demo_fields in
  (recordOf val = Some demo_fields ∧ NoDup (Name <$> demo_fields.*1))
  ∧ ((∃ m, flattenQueryStruct (Some val) = Ok m)
     ↔ ∀ f v, (f, v) ∈ demo_fields → is_Some (Lookup (Tag f) "query") →
              IsZero v = false → supported (Kind (Indirect v)) = true).
Proof.
  intros val.
  assert (recordOf val = Some demo_fields) as H1 by reflexivity.
  assert (NoDup (Name <$> demo_fields.*1)) as H2
    by (apply (bool_decide_unpack _); by vm_compute).
  split; [exact (conj H1 H2)|].
  exact (flatten_succeeds_iff val demo_fields H1 H2).
Defined.

Lemma flatten_last_field_wins_witness :
  let val := VStruct "Params" twice_tagged in
  let pre := [({| Name := "Old"; Tag := [("query", "label")] |},
               VString "string" "a")] in
  let f := {| Name := "New"; Tag := [("query", "label")] |} in
  let v := VString "string" "b" in
  let post := [({| Name := "Spare"; Tag := [("query", "label")] |},
                VString "string" "")] in
  let m : gmap string string := {["label" := "b"]} in
  (recordOf val = Some (pre ++ (f, v) :: post)
   ∧ NoDup (Name <$> (pre ++ (f, v) :: post).*1)
   ∧ Lookup (Tag f) "query" = Some "label"
   ∧ IsZero v = false
   ∧ (∀ f' v', (f', v') ∈ post → Lookup (Tag f') "query" = Some "label" →
               IsZero v' = true)
   ∧ flattenQueryStruct (Some val) = Ok m)
  ∧ ∃ s, queryFieldToString (Indirect v) = Ok s ∧ m !! "label" = Some s.
Proof.
  intros val pre f v post m.
  assert (recordOf val = Some (pre ++ (f, v) :: post)) as H1 by reflexivity.
  assert (NoDup (Name <$> (pre ++ (f, v) :: post).*1)) as H2
    by (apply (bool_decide_unpack _); by vm_compute).
  assert (Lookup (Tag f) "query" = Some "label") as H3 by reflexivity.
  assert (IsZero v = false) as H4 by reflexivity.
  assert (∀ f' v', (f', v') ∈ post → Lookup (Tag f') "query" = Some "label" →
                   IsZero v' = true) as H5.
  { intros f' v' Hin _. apply list_elem_of_In in Hin. simpl in Hin.
    destruct Hin as [E|[]]. injection E as <- <-. reflexivity. }
  assert (flattenQueryStruct (Some val) = Ok m) as H6 by (by vm_compute).
  split; [exact (conj H1 (conj H2 (conj H3 (conj H4 (conj H5 H6)))))|].
  exact (flatten_last_field_wins val pre f v post "label" m H1 H2 H3 H4 H5 H6).
Defined.

Lemma flatten_ignores_field_order_witness :
  let m : gmap string string :=
    {["limit" := "0"; "size" := "512"; "active" := "true"]} in
  (wellFormed demo_fields
   ∧ demo_fields ≡ₚ reverse demo_fields
   ∧ flattenQueryStruct (Some (VStruct "Params" demo_fields)) = Ok m)
  ∧ flattenQueryStruct (Some (VStruct "Reversed" (reverse demo_fields))) = Ok m.
Proof.
  intros m.
  assert (wellFormed demo_fields) as H1.
  { split; apply (bool_decide_unpack _); by vm_compute. }
  assert (demo_fields ≡ₚ reverse demo_fields) as H2
    by (symmetry; apply reverse_Permutation).
  assert (flattenQueryStruct (Some (VStruct "Params" demo_fields)) = Ok m)
    as H3 by (by vm_compute).
  split; [exact (conj H1 (conj H2 H3))|].
  exact (flatten_ignores_field_order "Params" "Reversed" demo_fields
           (reverse demo_fields) m H1 H2 H3).
Defined.


Example demo_ListInstances :
  golinode.ListInstances demo_parseDates 2 demo_instances_client None
    demo_instances_state
  = Some (golinode.Returns
            (Ok [demo_fixed 101 "2018-01-02T03:04:05";
                 demo_fixed 103 "2018-03-04T05:06:07"]),
          demo_instances_listed).
Proof. by vm_compute. Qed.

Section InstancesWitnesses.
Import golinode.

Lemma ListInstances_ignores_errors_of_later_pages_witness :
  let c := demo_instances_client in
  let st := demo_instances_state in
  let st' := demo_instances_listed in
  let e := "linode/instances" in
  let out := Ok [demo_fixed 101 "2018-01-02T03:04:05";
                 demo_fixed 103 "2018-03-04T05:06:07"] in
  (Endpoint (Instances c) = Ok e
   ∧ ListInstances demo_parseDates 2 c None st = Some (Returns out, st'))
  ∧ (∀ w1 err,
       Get_InstancesPagedResponse (world st) (R c) e = (w1, Err err) →
       out = Err err
       ∧ st' = {| heap := heap st; world := w1;
                  sent := sent st ++ [getOf e (R c)] |})
  ∧ (∀ w1 result,
       Get_InstancesPagedResponse (world st) (R c) e = (w1, Ok result) →
       ∃ po answers,
         PageOptions_ result = Some po
         ∧ replayGet e w1 (instancesRequest c <$> seqZ 2 (Pages po - 1))
           = (world st', answers)
         ∧ sent st'
           = sent st
               ++ (getOf e <$> R c :: (instancesRequest c <$> seqZ 2 (Pages po - 1)))
         ∧ out = Ok (concat (instancesOf demo_parseDates <$> Ok result :: answers))
         ∧ heap st ⊆ heap st').
Proof.
  intros c st st' e out.
  assert (Endpoint (Instances c) = Ok e) as H1 by reflexivity.
  assert (ListInstances demo_parseDates 2 c None st = Some (Returns out, st'))
    as H2 by (by vm_compute).
  split; [exact (conj H1 H2)|].
  exact (ListInstances_ignores_errors_of_later_pages demo_parseDates 2 c st out
           st' e H1 H2).
Defined.

Lemma ListInstances_with_options_witness :
  let c := demo_instances_client in
  let l := 1%positive in
  let o := NewListOptions 0 "" in
  let st := demo_instances_state in
  let e := "linode/instances" in
  (heap st !! l = Some o ∧ Endpoint (Instances c) = Ok e)
  ∧ (pageOptions o = None →
     ListInstances demo_parseDates 1 c (Some l) st = Some (Panics, st))
  ∧ (∀ po, pageOptions o = Some po →
       QueryParam (instancesRequest c (Page po)) !! "page" = Some [Itoa (Page po)]
       ∧ (Page po = 0 →
          QueryParam (instancesRequest c (Page po)) !! "page" = Some ["0"])
       ∧ ListInstances demo_parseDates 1 c (Some l) st
         = let req := instancesRequest c (Page po) in
           let '(w', r) := Get_InstancesPagedResponse (world st) req e in
           let log' := sent st ++ [getOf e req] in
           match r with
           | Err err =>
             Some (Returns (Err err),
                   {| heap := heap st; world := w'; sent := log' |})
           | Ok result =>
             match PageOptions_ result, fixDatesAll demo_parseDates (Data result) with
             | Some rpo, Returns data =>
               Some (Returns (Ok data),
                     {| heap :=
                          <[l := setPageOptions
                                   {| Page := Page po; Pages := Pages po;
                                      Results := Results rpo |} o]> (heap st);
                        world := w'; sent := log' |})
             | _, _ =>
               Some (Panics, {| heap := heap st; world := w'; sent := log' |})
             end
           end).
Proof.
  intros c l o st e.
  assert (heap st !! l = Some o) as H1 by reflexivity.
  assert (Endpoint (Instances c) = Ok e) as H2 by reflexivity.
  split; [exact (conj H1 H2)|].
  exact (ListInstances_with_options demo_parseDates 0 c l o st e H1 H2).
Defined.

Lemma ShutdownInstance_posts_to_resize_witness :
  let c := demo_instances_client in
  let id := 123 in
  let st := demo_instances_state in
  let e := "linode/instances" in
  let resize := "linode/instances/123/resize" in
  let reboot := "linode/instances/123/reboot" in
  let mutate := "linode/instances/123/mutate" in
  Endpoint (Instances c) = Ok e
  ∧ (∃ err w,
       ShutdownInstance c id st
       = (settleBoolResponseOrError err,
          {| heap := heap st; world := w;
             sent := sent st
                       ++ [{| method := "POST"; url := resize; request := R c |}] |}))
  ∧ (∀ linodeType,
       url <$> last (sent (ResizeInstance c id linodeType st).2) = Some resize)
  ∧ (∀ configID,
       url <$> last (sent (RebootInstance c id configID st).2) = Some reboot)
  ∧ url <$> last (sent (MutateInstance c id st).2) = Some mutate
  ∧ NoDup [resize; reboot; mutate].
Proof.
  intros c id st e resize reboot mutate.
  assert (Endpoint (Instances c) = Ok e) as H1 by reflexivity.
  split; [exact H1|].
  exact (ShutdownInstance_posts_to_resize c id st e H1).
Defined.

Lemma BootInstance_never_sends_the_decimal_id_witness :
  let c := demo_instances_client in
  let id := 123 in
  let configID := 65 in
  let st := demo_instances_state in
  let e := "linode/instances" in
  let body := "{" +:+ quoted "config_id" +:+ ":" +:+ quoted "A" +:+ "}" in
  (configID ≠ 0
   ∧ Endpoint (Instances c) = Ok e
   ∧ demo_Marshal {["config_id" := intstring configID]} = Ok body)
  ∧ (∃ err w,
       BootInstance demo_Marshal c id configID st
       = (settleBoolResponseOrError err,
          {| heap := heap st; world := w;
             sent := sent st
                       ++ [{| method := "POST";
                              url := e +:+ "/" +:+ Itoa id +:+ "/boot";
                              request :=
                                SetBody body
                                  (SetHeader "Content-Type" "application/json"
                                     (R c)) |}] |}))
  ∧ intstring configID ≠ Itoa configID
  ∧ Body <$> (request <$> last (sent (RebootInstance c id configID st).2))
    = Some ("{" +:+ quoted "config_id" +:+ ":" +:+ quoted (Itoa configID)
            +:+ "}").
Proof.
  intros c id configID st e body.
  assert (configID ≠ 0) as H1 by discriminate.
  assert (Endpoint (Instances c) = Ok e) as H2 by reflexivity.
  assert (demo_Marshal {["config_id" := intstring configID]} = Ok body) as H3
    by (by vm_compute).
  split; [exact (conj H1 (conj H2 H3))|].
  exact (BootInstance_never_sends_the_decimal_id demo_Marshal c id configID st
           e body H1 H2 H3).
Defined.
End InstancesWitnesses.
